(** * Vocabulary tutor: exercise generation and export

    A shallow embedding of [src/exercises/models.py],
    [src/exercises/generator.py] and [src/exercises/export.py], followed by
    the properties of the generator and of the exporter.

    - Python [str] values are lists of Unicode code points, so [len] is
      [length] and indexing is list lookup.
    - The effects of the program (the [random] module, [uuid.uuid4],
      [datetime.now], the file system) are threaded through an explicit
      [World]; an exception ends the computation with [Raised]. *)

From Stdlib Require Import ZArith Ascii String Decimal.
From stdpp Require Import gmap strings list.

Local Open Scope N_scope.

(** ** Python strings *)

Module PyStr.

Definition char := N.
Definition str := list char.

(** A source-code literal is read from its UTF-8 bytes. *)
Fixpoint decode_utf8 (need : nat) (acc : N) (bs : list N) : str :=
  match bs with
  | [] => []
  | b :: bs' =>
    match need with
    | S k =>
      let acc' := acc * 64 + b mod 64 in
      match k with
      | O => acc' :: decode_utf8 O 0 bs'
      | _ => decode_utf8 k acc' bs'
      end
    | O =>
      if b <? 128 then b :: decode_utf8 O 0 bs'
      else if b <? 224 then decode_utf8 1 (b mod 32) bs'
      else if b <? 240 then decode_utf8 2 (b mod 16) bs'
      else decode_utf8 3 (b mod 8) bs'
    end
  end.

Definition py (s : string) : str :=
  decode_utf8 O 0 (N_of_ascii <$> list_ascii_of_string s).

Definition str_eqb (a b : str) : bool := bool_decide (a = b).

(** [sep.join(parts)] *)
Definition join (sep : str) (parts : list str) : str :=
  match parts with
  | [] => []
  | p :: ps => p ++ flat_map (fun q => sep ++ q) ps
  end.

(** [needle in hay] for strings *)
Fixpoint starts_with (needle hay : str) : bool :=
  match needle, hay with
  | [], _ => true
  | _ :: _, [] => false
  | a :: n', b :: h' => (a =? b) && starts_with n' h'
  end.

Fixpoint contains (needle hay : str) : bool :=
  starts_with needle hay ||
  match hay with
  | [] => false
  | _ :: h' => contains needle h'
  end.

(** [str.isspace] on one code point: the characters on which
    [str.split()] and [str.strip()] cut. *)
Definition isspace (c : char) : bool :=
  ((9 <=? c) && (c <=? 13)) || ((28 <=? c) && (c <=? 32)) ||
  (c =? 133) || (c =? 160) || (c =? 5760) ||
  ((8192 <=? c) && (c <=? 8202)) || (c =? 8232) || (c =? 8233) ||
  (c =? 8239) || (c =? 8287) || (c =? 12288).

(** [s.split()]: the maximal runs of non-space characters. *)
Fixpoint split_ws (cur : str) (s : str) : list str :=
  match s with
  | [] => match cur with [] => [] | _ => [cur] end
  | c :: s' =>
    if isspace c
    then match cur with [] => split_ws [] s' | _ => cur :: split_ws [] s' end
    else split_ws (cur ++ [c]) s'
  end.

Definition split (s : str) : list str := split_ws [] s.

Fixpoint lstrip (s : str) : str :=
  match s with
  | c :: s' => if isspace c then lstrip s' else s
  | [] => []
  end.

Definition strip (s : str) : str := reverse (lstrip (reverse (lstrip s))).

(** [s.split(sep)[0]] for a one-character separator *)
Fixpoint before (sep : char) (s : str) : str :=
  match s with
  | [] => []
  | c :: s' => if c =? sep then [] else c :: before sep s'
  end.

(** [str(n)] for a non-negative integer *)
Fixpoint digits (u : Decimal.uint) : str :=
  match u with
  | Nil => []
  | D0 u' => 48 :: digits u'
  | D1 u' => 49 :: digits u'
  | D2 u' => 50 :: digits u'
  | D3 u' => 51 :: digits u'
  | D4 u' => 52 :: digits u'
  | D5 u' => 53 :: digits u'
  | D6 u' => 54 :: digits u'
  | D7 u' => 55 :: digits u'
  | D8 u' => 56 :: digits u'
  | D9 u' => 57 :: digits u'
  end.

Definition str_of_nat (n : nat) : str := digits (Nat.to_uint n).

(** Case mapping on Basic Latin. *)
Definition ascii_lower (c : char) : char :=
  if (65 <=? c) && (c <=? 90) then c + 32 else c.

Definition ascii_upper (c : char) : char :=
  if (97 <=? c) && (c <=? 122) then c - 32 else c.

Definition ascii_alpha (c : char) : bool :=
  ((65 <=? c) && (c <=? 90)) || ((97 <=? c) && (c <=? 122)).

(** [s.replace(a, b)] for single characters *)
Definition replace_char (a b : char) (s : str) : str :=
  (fun c => if c =? a then b else c) <$> s.

(** [s.title()] on Basic Latin text: the first letter of every run of
    letters is upper-cased, the others are lower-cased.  It is applied
    only to the enum values of [models.py]. *)
Fixpoint title_from (in_word : bool) (s : str) : str :=
  match s with
  | [] => []
  | c :: s' =>
    if ascii_alpha c
    then (if in_word then ascii_lower c else ascii_upper c) :: title_from true s'
    else c :: title_from false s'
  end.

Definition title (s : str) : str := title_from false s.

(** The part of Python's Unicode tables that the generator relies on:
    [str.lower], [str.upper] and the character comparison of a literal
    pattern under [re.IGNORECASE].  They belong to the Python library and
    are taken as parameters; on Basic Latin the comparison is the usual
    one. *)
Class TextLib := {
  str_lower : str -> str;
  str_upper : str -> str;
  ci_match : char -> char -> bool;
  ci_match_ascii : forall p t,
    p < 128 -> t < 128 -> ci_match p t = (ascii_lower p =? ascii_lower t)
}.

(** The tables that leave every code point outside Basic Latin alone. *)
Definition BasicLatin : TextLib := {|
  str_lower s := ascii_lower <$> s;
  str_upper s := ascii_upper <$> s;
  ci_match p t := ascii_lower p =? ascii_lower t;
  ci_match_ascii p t _ _ := eq_refl
|}.

End PyStr.
Export PyStr.

(** ** Data model ([models.py]) *)

Module Models.

Inductive Difficulty := EASY | MEDIUM | HARD.

Inductive ExerciseType := FILL_IN_BLANK | MATCHING | SPELLING | HANGMAN.

#[export] Instance Difficulty_eq_dec : EqDecision Difficulty.
Proof. solve_decision. Defined.

#[export] Instance ExerciseType_eq_dec : EqDecision ExerciseType.
Proof. solve_decision. Defined.

(** [Difficulty.value] and [ExerciseType.value] *)
Definition difficulty_value (d : Difficulty) : str :=
  match d with
  | EASY => py "easy"
  | MEDIUM => py "medium"
  | HARD => py "hard"
  end.

Definition exercise_type_value (t : ExerciseType) : str :=
  match t with
  | FILL_IN_BLANK => py "fill_in_blank"
  | MATCHING => py "matching"
  | SPELLING => py "spelling"
  | HANGMAN => py "hangman"
  end.

(** [for difficulty in Difficulty] and [for exercise_type in ExerciseType] *)
Definition all_difficulties : list Difficulty := [EASY; MEDIUM; HARD].
Definition all_exercise_types : list ExerciseType :=
  [FILL_IN_BLANK; MATCHING; SPELLING; HANGMAN].

(** A vocabulary item is a dictionary read from [vocabulary.json].  A key
    that the generator reads with [.get] is optional; ["id"] is read with
    [item["id"]] and is required. *)
Record ExampleSentence := {
  source : option str;
  target : option str
}.

Record VocabularyItem := {
  item_id : str;
  sourceForm_text : option str;
  targetForm_text : option str;
  wordType : option str;
  exampleSentences : list ExampleSentence
}.

(** The fields of the base class [Exercise], as [__post_init__] leaves
    them: [type] is set there to the constant of the subclass (see
    [type_of] below) whatever the constructor was given, and [id] is not
    empty (the generator always passes one). *)
Record Exercise := {
  id : str;
  difficulty : Difficulty;
  vocabulary_ids : list str;
  instructions : str
}.

Record FillInBlankExercise := {
  fib_base : Exercise;
  sentence : str;
  blank_position : nat;
  correct_answer : str;
  fib_hint : option str;
  word_type : option str
}.

Record MatchingPair := {
  pair_id : str;
  left : str;
  right : str;
  vocabulary_id : str
}.

Record MatchingExercise := {
  match_base : Exercise;
  pairs : list MatchingPair;
  shuffled_right : list str
}.

Record SpellingExercise := {
  spell_base : Exercise;
  german_word : str;
  english_word : str;
  scrambled_letters : list str;
  spell_hint : option str
}.

Record HangmanExercise := {
  hang_base : Exercise;
  word : str;
  hang_hint : str;
  category : str;
  max_attempts : Z;
  revealed_letters : list Z
}.

(** An object of one of the four subclasses of [Exercise]. *)
Inductive AnyExercise :=
| FillInBlank (e : FillInBlankExercise)
| Matching (e : MatchingExercise)
| Spelling (e : SpellingExercise)
| Hangman (e : HangmanExercise).

(** [self.type] *)
Definition type_of (e : AnyExercise) : ExerciseType :=
  match e with
  | FillInBlank _ => FILL_IN_BLANK
  | Matching _ => MATCHING
  | Spelling _ => SPELLING
  | Hangman _ => HANGMAN
  end.

Definition base (e : AnyExercise) : Exercise :=
  match e with
  | FillInBlank x => fib_base x
  | Matching x => match_base x
  | Spelling x => spell_base x
  | Hangman x => hang_base x
  end.

Record ExerciseSet := {
  set_id : str;
  name : str;
  exercise_type : ExerciseType;
  set_difficulty : Difficulty;
  exercises : list AnyExercise;
  created_at : str
}.

(** *** JSON values and Python dictionaries

    A dictionary keeps its keys in insertion order; assigning to a key
    that is present replaces the value in place. *)
Local Unset Elimination Schemes.
Inductive json :=
| JNull
| JInt (n : Z)
| JStr (s : str)
| JList (l : list json)
| JObj (kvs : list (str * json)).
Local Set Elimination Schemes.

Fixpoint dict_set {V} (k : str) (v : V) (d : list (str * V)) : list (str * V) :=
  match d with
  | [] => [(k, v)]
  | (k', v') :: d' =>
    if str_eqb k' k then (k, v) :: d' else (k', v') :: dict_set k v d'
  end.

Fixpoint dict_get {V} (k : str) (d : list (str * V)) : option V :=
  match d with
  | [] => None
  | (k', v) :: d' => if str_eqb k' k then Some v else dict_get k d'
  end.

(** [base.update(extra)] *)
Definition dict_update {V} (d extra : list (str * V)) : list (str * V) :=
  foldl (fun acc kv => dict_set kv.1 kv.2 acc) d extra.

(** [{k: v for ...}] *)
Definition dict_of {V} (kvs : list (str * V)) : list (str * V) :=
  dict_update [] kvs.

(** [d.get(k)] on a JSON object; [None] is [JNull]. *)
Definition json_get (k : str) (d : list (str * json)) : json :=
  default JNull (dict_get k d).

Definition json_opt (o : option str) : json :=
  match o with
  | Some s => JStr s
  | None => JNull
  end.

Definition json_len {A} (l : list A) : json := JInt (Z.of_nat (length l)).

(** [Exercise.to_dict] *)
Definition base_to_dict (t : ExerciseType) (e : Exercise)
  : list (str * json) :=
  [ (py "id", JStr (id e));
    (py "type", JStr (exercise_type_value t));
    (py "difficulty", JStr (difficulty_value (difficulty e)));
    (py "vocabularyIds", JList (JStr <$> vocabulary_ids e));
    (py "instructions", JStr (instructions e)) ].

Definition pair_to_dict (p : MatchingPair) : json :=
  JObj [ (py "id", JStr (pair_id p));
         (py "left", JStr (left p));
         (py "right", JStr (right p));
         (py "vocabularyId", JStr (vocabulary_id p)) ].

(** [to_dict] of the four subclasses, by dynamic dispatch. *)
Definition to_dict (e : AnyExercise) : list (str * json) :=
  let base_dict := base_to_dict (type_of e) (base e) in
  match e with
  | FillInBlank x =>
    dict_update base_dict
      [ (py "sentence", JStr (sentence x));
        (py "blankPosition", JInt (Z.of_nat (blank_position x)));
        (py "correctAnswer", JStr (correct_answer x));
        (py "hint", json_opt (fib_hint x));
        (py "wordType", json_opt (word_type x)) ]
  | Matching x =>
    dict_update base_dict
      [ (py "pairs", JList (pair_to_dict <$> pairs x));
        (py "shuffledRight", JList (JStr <$> shuffled_right x));
        (py "pairCount", json_len (pairs x)) ]
  | Spelling x =>
    dict_update base_dict
      [ (py "germanWord", JStr (german_word x));
        (py "englishWord", JStr (english_word x));
        (py "scrambledLetters", JList (JStr <$> scrambled_letters x));
        (py "hint", json_opt (spell_hint x));
        (py "letterCount", json_len (english_word x)) ]
  | Hangman x =>
    dict_update base_dict
      [ (py "word", JStr (word x));
        (py "wordLength", json_len (word x));
        (py "hint", JStr (hang_hint x));
        (py "category", JStr (category x));
        (py "maxAttempts", JInt (max_attempts x));
        (py "revealedLetters", JList (JInt <$> revealed_letters x)) ]
  end.

(** [ExerciseSet.to_dict] *)
Definition set_to_dict (s : ExerciseSet) : list (str * json) :=
  [ (py "id", JStr (set_id s));
    (py "name", JStr (name s));
    (py "exerciseType", JStr (exercise_type_value (exercise_type s)));
    (py "difficulty", JStr (difficulty_value (set_difficulty s)));
    (py "exerciseCount", json_len (exercises s));
    (py "exercises", JList ((fun e => JObj (to_dict e)) <$> exercises s));
    (py "createdAt", JStr (created_at s)) ].

End Models.
Export Models.

(** ** The world the program runs in *)

Module Effects.

(** A path is the list of its components below the root. *)
Definition path := list str.

(** The exceptions; those of the file system carry the path given to the
    call that failed. *)
Inductive exn :=
| ValueError (msg : str)
| IndexError (msg : str)
| KeyError (key : str)
| TypeError (msg : str)
| FileExistsError (p : path)
| FileNotFoundError (p : path)
| NotADirectoryError (p : path)
| IsADirectoryError (p : path).

(** - [rand]: the successive draws of the random source;
    - [uuids]: the successive values of [uuid.uuid4().hex[:8]];
    - [clock]: the successive readings of
      [datetime.now(timezone.utc).isoformat()];
    - [files]: the regular files that exist, each with the JSON document
      it holds: a file is written with
      [json.dump(data, f, indent=2, ensure_ascii=False)] only, and its
      text is a fixed function of that document;
    - [dirs]: the directories that exist, besides the directory [[]] that
      the relative paths start from.

    Permissions and the room left on the device are not part of the
    world: a call fails for what the tree of files and directories
    holds, and for nothing else. *)
Record World := {
  rand : list nat;
  uuids : list str;
  clock : list str;
  files : gmap path json;
  dirs : gset path
}.

Inductive outcome (A : Type) :=
| Done (a : A) (w : World)
| Raised (e : exn).
Arguments Done {A} a w.
Arguments Raised {A} e.

Definition M (A : Type) := World -> outcome A.

Definition ret {A} (a : A) : M A := fun w => Done a w.

Definition bind {A B} (m : M A) (f : A -> M B) : M B :=
  fun w =>
    match m w with
    | Done a w' => f a w'
    | Raised e => Raised e
    end.

Definition raise {A} (e : exn) : M A := fun _ => Raised e.

Declare Scope py_scope.
Delimit Scope py_scope with py.
Notation "x <- m ;; k" := (bind m (fun x => k))
  (at level 100, m at next level, right associativity) : py_scope.
Notation "m ;;; k" := (bind m (fun _ => k))
  (at level 100, right associativity) : py_scope.
Local Open Scope py_scope.

(** [for x in l: out.append(f(x))] *)
Fixpoint for_each {A B} (f : A -> M B) (l : list A) : M (list B) :=
  match l with
  | [] => ret []
  | x :: l' => y <- f x ;; ys <- for_each f l' ;; ret (y :: ys)
  end.

(** [random._randbelow(n)]: an integer below [n] read off the random
    source. *)
Definition randbelow (n : nat) : M nat :=
  fun w =>
    let x := hd O (rand w) in
    Done (match n with O => O | _ => x mod n end)%nat
         {| rand := tl (rand w); uuids := uuids w; clock := clock w;
            files := files w; dirs := dirs w |}.

(** [uuid.uuid4().hex[:8]] *)
Definition uuid4_hex8 : M str :=
  fun w =>
    Done (hd (py "00000000") (uuids w))
         {| rand := rand w; uuids := tl (uuids w); clock := clock w;
            files := files w; dirs := dirs w |}.

(** [datetime.now(timezone.utc).isoformat()] *)
Definition now_isoformat : M str :=
  fun w =>
    Done (hd [] (clock w))
         {| rand := rand w; uuids := uuids w; clock := tl (clock w);
            files := files w; dirs := dirs w |}.

(** [x[i], x[j] = x[j], x[i]] *)
Definition swap {A} (x : list A) (i j : nat) : list A :=
  match x !! i, x !! j with
  | Some a, Some b => <[j := a]> (<[i := b]> x)
  | _, _ => x
  end.

(** [random.shuffle(x)]:
    [for i in reversed(range(1, len(x))): j = randbelow(i + 1); swap] *)
Fixpoint shuffle_from {A} (i : nat) (x : list A) : M (list A) :=
  match i with
  | O => ret x
  | S i' => j <- randbelow (S i) ;; shuffle_from i' (swap x i j)
  end.

Definition shuffle {A} (x : list A) : M (list A) :=
  shuffle_from (length x - 1) x.

(** [random.sample(population, k)], by the selection that CPython runs on
    a copy of the population: [n] is the number of items not yet chosen,
    which are kept at [pool[0 : n]].  (For a large population CPython
    draws indices and rejects those already chosen; both ways return the
    items found at [k] different positions, in the order of the draws.) *)
Fixpoint sample_pool {A} (k : nat) (pool : list A) (n : nat) : M (list A) :=
  match k with
  | O => ret []
  | S k' =>
    j <- randbelow n ;;
    match pool !! j, pool !! (n - 1)%nat with
    | Some x, Some y =>
      rest <- sample_pool k' (<[j := y]> pool) (n - 1) ;;
      ret (x :: rest)
    | _, _ => raise (IndexError (py "list index out of range"))
    end
  end.

Definition sample {A} (population : list A) (k : Z) : M (list A) :=
  if ((0 <=? k) && (k <=? Z.of_nat (length population)))%Z
  then sample_pool (Z.to_nat k) population (length population)
  else raise (ValueError (py "Sample larger than population or is negative")).

End Effects.
Export Effects.

(** ** Exercise generator ([generator.py]) *)

Module ExerciseGenerator.

Local Open Scope py_scope.
Local Open Scope nat_scope.

Record Config := {
  max_word_length : nat;
  show_hints : bool;
  matching_pairs : nat;
  hangman_attempts : Z;
  reveal_first_letter : bool
}.

Definition DIFFICULTY_CONFIG (d : Difficulty) : Config :=
  match d with
  | EASY =>
    {| max_word_length := 6; show_hints := true; matching_pairs := 4;
       hangman_attempts := 8; reveal_first_letter := true |}
  | MEDIUM =>
    {| max_word_length := 10; show_hints := true; matching_pairs := 6;
       hangman_attempts := 6; reveal_first_letter := false |}
  | HARD =>
    {| max_word_length := 100; show_hints := false; matching_pairs := 8;
       hangman_attempts := 5; reveal_first_letter := false |}
  end.

(** Truth value of a string and of an optional string. *)
Definition truthy (s : str) : bool :=
  match s with [] => false | _ => true end.

Definition truthy_opt (o : option str) : bool :=
  match o with Some s => truthy s | None => false end.

Definition _get_english (item : VocabularyItem) : str :=
  default [] (sourceForm_text item).

Definition _get_german (item : VocabularyItem) : str :=
  let text := default [] (targetForm_text item) in
  if contains (py ";") text then strip (before 59%N text) else text.

Definition _get_example_sentence (item : VocabularyItem) : option str :=
  match exampleSentences item with
  | s :: _ => source s
  | [] => None
  end.

Definition get_word_type (item : VocabularyItem) : str :=
  default (py "unknown") (wordType item).

(** The test of [_filter_by_difficulty]:
    [len(english) <= max_length and english] *)
Definition eligible (config : Config) (item : VocabularyItem) : bool :=
  let english := _get_english item in
  (length english <=? max_word_length config) && truthy english.

(** [pattern.sub(repl, text)] for [pattern = re.compile(re.escape(word),
    re.IGNORECASE)]: the occurrences of the literal [word] are replaced
    from left to right, without overlap. *)
Section Regex.
Context `{!TextLib}.

Fixpoint ci_prefix (p s : str) : bool :=
  match p, s with
  | [], _ => true
  | _ :: _, [] => false
  | a :: p', b :: s' => ci_match a b && ci_prefix p' s'
  end.

Fixpoint sub_literal (p repl : str) (skip : nat) (s : str) : str :=
  match s with
  | [] => []
  | c :: s' =>
    match skip with
    | S k => sub_literal p repl k s'
    | O =>
      if ci_prefix p s
      then repl ++ sub_literal p repl (length p - 1) s'
      else c :: sub_literal p repl O s'
    end
  end.

Definition re_sub_ignorecase (word repl text : str) : str :=
  match word with
  | [] => repl ++ flat_map (fun c => c :: repl) text
  | _ => sub_literal word repl O text
  end.

End Regex.

(** [next((i for i, w in enumerate(words) if test(w)), 0)] *)
Fixpoint index_where (test : str -> bool) (words : list str) : option nat :=
  match words with
  | [] => None
  | w :: ws => if test w then Some O else S <$> index_where test ws
  end.

Definition blank : str := py "___".

Definition templates : list (str * str) :=
  [ (py "noun", py "The ___ is important.");
    (py "verb", py "I ___ every day.");
    (py "adjective", py "It is very ___.");
    (py "adverb", py "She did it ___.") ].

Section Generator.
Context `{!TextLib}.
Variable vocabulary : list VocabularyItem.

Definition _filter_by_difficulty (difficulty : Difficulty)
  : list VocabularyItem :=
  let config := DIFFICULTY_CONFIG difficulty in
  filter (fun item => eligible config item = true) vocabulary.

Definition _select_random {A} (items : list A) (count : Z) : M (list A) :=
  if (Z.of_nat (length items) <=? count)%Z
  then ret items
  else sample items count.

(** The body of the loop of [generate_fill_in_blank]. *)
Definition fill_in_blank_exercise (difficulty : Difficulty)
    (item : VocabularyItem) : M FillInBlankExercise :=
  let config := DIFFICULTY_CONFIG difficulty in
  let english := _get_english item in
  let german := _get_german item in
  let word_type := get_word_type item in
  let example := _get_example_sentence item in
  let '(sentence, blank_pos) :=
    if truthy_opt example then
      let sentence := re_sub_ignorecase english blank (default [] example) in
      let words := split sentence in
      (sentence, default O (index_where (contains blank) words))
    else
      let sentence :=
        default (py "The word is ___.") (dict_get word_type templates) in
      (sentence, default O (index_where (str_eqb blank) (split sentence))) in
  u <- uuid4_hex8 ;;
  ret {| fib_base :=
           {| id := py "fib_" ++ u;
              difficulty := difficulty;
              vocabulary_ids := [item_id item];
              instructions :=
                py "Fill in the blank with the correct English word." |};
         sentence := sentence;
         blank_position := blank_pos;
         correct_answer := english;
         fib_hint := if show_hints config then Some german else None;
         word_type := Some word_type |}.

Definition generate_fill_in_blank (difficulty : Difficulty) (count : Z)
  : M (list FillInBlankExercise) :=
  let vocabulary := _filter_by_difficulty difficulty in
  let with_examples :=
    filter (fun v => truthy_opt (_get_example_sentence v) = true) vocabulary in
  let without_examples :=
    filter (fun v => ¬ truthy_opt (_get_example_sentence v) = true)
      vocabulary in
  selected <- _select_random with_examples count ;;
  selected <-
    (if (Z.of_nat (length selected) <? count)%Z
     then
       let remaining := (count - Z.of_nat (length selected))%Z in
       extra <- _select_random without_examples remaining ;;
       ret (selected ++ extra)
     else ret selected) ;;
  for_each (fill_in_blank_exercise difficulty) selected.

(** The construction of one [MatchingPair]. *)
Definition matching_pair (item : VocabularyItem) : M MatchingPair :=
  u <- uuid4_hex8 ;;
  ret {| pair_id := py "pair_" ++ u;
         left := _get_english item;
         right := _get_german item;
         vocabulary_id := item_id item |}.

(** The loop [for _ in range(count)] of [generate_matching]; [remaining]
    is the part of the shuffled pool that is not used yet. *)
Fixpoint matching_loop (difficulty : Difficulty)
    (pool : list VocabularyItem) (n : nat) (remaining : list VocabularyItem)
  : M (list MatchingExercise) :=
  match n with
  | O => ret []
  | S n' =>
    let pairs_per_exercise := matching_pairs (DIFFICULTY_CONFIG difficulty) in
    remaining <-
      (if length remaining <? pairs_per_exercise
       then shuffle pool
       else ret remaining) ;;
    let selected := take pairs_per_exercise remaining in
    let remaining := drop pairs_per_exercise remaining in
    pairs <- for_each matching_pair selected ;;
    shuffled <- shuffle (right <$> pairs) ;;
    u <- uuid4_hex8 ;;
    let exercise :=
      {| match_base :=
           {| id := py "match_" ++ u;
              difficulty := difficulty;
              vocabulary_ids := vocabulary_id <$> pairs;
              instructions :=
                py "Match the English words with their German translations." |};
         pairs := pairs;
         shuffled_right := shuffled |} in
    rest <- matching_loop difficulty pool n' remaining ;;
    ret (exercise :: rest)
  end.

Definition generate_matching (difficulty : Difficulty) (count : Z)
  : M (list MatchingExercise) :=
  let vocabulary := _filter_by_difficulty difficulty in
  remaining <- shuffle vocabulary ;;
  matching_loop difficulty vocabulary (Z.to_nat count) remaining.

(** The loop [while joined(letters) == english.lower() and attempts < 10],
    where [joined] concatenates the letters with the empty separator; the
    argument [left_over] is [10 - attempts]. *)
Fixpoint reshuffle (original : str) (left_over : nat) (letters : list str)
  : M (list str) :=
  match left_over with
  | O => ret letters
  | S k =>
    if str_eqb (join [] letters) original
    then letters <- shuffle letters ;; reshuffle original k letters
    else ret letters
  end.

(** [list(s)]: the one-character strings of [s] *)
Definition chars (s : str) : list str := (fun c => [c]) <$> s.

Definition scramble (english : str) : M (list str) :=
  letters <- shuffle (chars (str_lower english)) ;;
  reshuffle (str_lower english) 10 letters.

Definition spelling_hint (config : Config) (english : str)
  : M (option str) :=
  if show_hints config then
    if reveal_first_letter config then
      match english with
      | c :: _ =>
        ret (Some (py "Starts with '" ++ str_upper [c] ++ py "', " ++
                   str_of_nat (length english) ++ py " letters"))
      | [] => raise (IndexError (py "string index out of range"))
      end
    else ret (Some (str_of_nat (length english) ++ py " letters"))
  else ret None.

(** The body of the loop of [generate_spelling]. *)
Definition spelling_exercise (difficulty : Difficulty)
    (item : VocabularyItem) : M SpellingExercise :=
  let config := DIFFICULTY_CONFIG difficulty in
  let english := _get_english item in
  let german := _get_german item in
  letters <- scramble english ;;
  hint <- spelling_hint config english ;;
  u <- uuid4_hex8 ;;
  ret {| spell_base :=
           {| id := py "spell_" ++ u;
              difficulty := difficulty;
              vocabulary_ids := [item_id item];
              instructions :=
                py "Arrange the letters to spell the English word." |};
         german_word := german;
         english_word := english;
         scrambled_letters := letters;
         spell_hint := hint |}.

Definition generate_spelling (difficulty : Difficulty) (count : Z)
  : M (list SpellingExercise) :=
  let vocabulary := _filter_by_difficulty difficulty in
  selected <- _select_random vocabulary count ;;
  for_each (spelling_exercise difficulty) selected.

(** The body of the loop of [generate_hangman]. *)
Definition hangman_exercise (difficulty : Difficulty)
    (item : VocabularyItem) : M HangmanExercise :=
  let config := DIFFICULTY_CONFIG difficulty in
  let english := _get_english item in
  let german := _get_german item in
  let word_type := get_word_type item in
  let revealed :=
    if reveal_first_letter config && (0 <? length english)
    then [0%Z] else [] in
  u <- uuid4_hex8 ;;
  ret {| hang_base :=
           {| id := py "hang_" ++ u;
              difficulty := difficulty;
              vocabulary_ids := [item_id item];
              instructions := py "Guess the English word letter by letter." |};
         word := english;
         hang_hint := german;
         category := word_type;
         max_attempts := hangman_attempts config;
         revealed_letters := revealed |}.

Definition generate_hangman (difficulty : Difficulty) (count : Z)
  : M (list HangmanExercise) :=
  let vocabulary := _filter_by_difficulty difficulty in
  selected <- _select_random vocabulary count ;;
  for_each (hangman_exercise difficulty) selected.

(** The dictionary [generators] of [generate_exercise_set]; every member
    of [ExerciseType] has an entry. *)
Definition generators (exercise_type : ExerciseType)
    (difficulty : Difficulty) (count : Z) : M (list AnyExercise) :=
  match exercise_type with
  | FILL_IN_BLANK =>
    l <- generate_fill_in_blank difficulty count ;; ret (FillInBlank <$> l)
  | MATCHING =>
    l <- generate_matching difficulty count ;; ret (Matching <$> l)
  | SPELLING =>
    l <- generate_spelling difficulty count ;; ret (Spelling <$> l)
  | HANGMAN =>
    l <- generate_hangman difficulty count ;; ret (Hangman <$> l)
  end.

Definition default_name (exercise_type : ExerciseType)
    (difficulty : Difficulty) : str :=
  title (replace_char 95%N 32%N (exercise_type_value exercise_type)) ++
  py " - " ++ title (difficulty_value difficulty).

Definition generate_exercise_set (exercise_type : ExerciseType)
    (difficulty : Difficulty) (count : Z) (name : option str)
  : M ExerciseSet :=
  exercises <- generators exercise_type difficulty count ;;
  let name :=
    if truthy_opt name then default [] name
    else default_name exercise_type difficulty in
  u <- uuid4_hex8 ;;
  t <- now_isoformat ;;
  ret {| set_id := py "set_" ++ u;
         name := name;
         exercise_type := exercise_type;
         set_difficulty := difficulty;
         exercises := exercises;
         created_at := t |}.

(** [generate_all_sets]: the dictionary, in insertion order. *)
Definition generate_all_sets (count_per_set : Z)
  : M (list (str * ExerciseSet)) :=
  sets <-
    for_each (fun '(difficulty, exercise_type) =>
            s <- generate_exercise_set exercise_type difficulty
                   count_per_set None ;;
            ret (difficulty_value difficulty ++ py "_" ++
                 exercise_type_value exercise_type, s))
         (d ← all_difficulties; t ← all_exercise_types; [(d, t)]) ;;
  ret (dict_of sets).

End Generator.

End ExerciseGenerator.
Export ExerciseGenerator.

(** ** Exercise exporter ([export.py]) *)

Module ExerciseExporter.

Local Open Scope py_scope.
Local Open Scope nat_scope.

(** The prefixes of a path that are not empty, the shortest first. *)
Definition ancestors (p : path) : list path :=
  (fun n => take (S n) p) <$> seq 0 (length p).

(** [p.parent] *)
Definition parent (p : path) : path := take (length p - 1) p.

(** What a path names in a world.  A name that [dirs] holds is a
    directory, whatever [files] says of it. *)
Inductive entry := Directory | RegularFile | Nothing.

Definition lookup_entry (w : World) (p : path) : entry :=
  if bool_decide (p = []) then Directory
  else if bool_decide (p ∈ dirs w) then Directory
  else match files w !! p with
       | Some _ => RegularFile
       | None => Nothing
       end.

(** The system walks the directories that lead to [whole], the outermost
    first: it fails with [ENOTDIR] at a regular file and with [ENOENT] at
    a name that does not exist. *)
Fixpoint walk (w : World) (whole : path) (qs : list path) : option exn :=
  match qs with
  | [] => None
  | q :: qs' =>
    match lookup_entry w q with
    | Directory => walk w whole qs'
    | RegularFile => Some (NotADirectoryError whole)
    | Nothing => Some (FileNotFoundError whole)
    end
  end.

Definition resolve_parent (w : World) (p : path) : option exn :=
  walk w p (ancestors (parent p)).

(** [p.is_dir()] *)
Definition is_dir (w : World) (p : path) : bool :=
  match resolve_parent w p, lookup_entry w p with
  | None, Directory => true
  | _, _ => false
  end.

(** [os.mkdir(p)] *)
Definition os_mkdir (p : path) : M unit :=
  fun w =>
    match resolve_parent w p with
    | Some e => Raised e
    | None =>
      match lookup_entry w p with
      | Nothing =>
        Done tt {| rand := rand w; uuids := uuids w; clock := clock w;
                   files := files w;
                   dirs := dirs w ∪ {[ p ]} |}
      | _ => Raised (FileExistsError p)
      end
    end.

(** [p.mkdir(parents=False, exist_ok=True)]: a failure of [os.mkdir] is
    passed over when the directory is there, except that a missing parent
    is always an error. *)
Definition mkdir_exist_ok (p : path) : M unit :=
  fun w =>
    match os_mkdir p w with
    | Done u w' => Done u w'
    | Raised (FileNotFoundError q) => Raised (FileNotFoundError q)
    | Raised e => if is_dir w p then Done tt w else Raised e
    end.

(** [p.mkdir(parents=True, exist_ok=True)], as [pathlib] writes it: when
    a parent is missing, the parent is made in the same way and [p] is
    made again.  The recursion is on the number [n] of components of [p];
    at [n = 0] the path is its own parent and the error is raised. *)
Fixpoint mkdir_rec (n : nat) (p : path) : M unit :=
  fun w =>
    match os_mkdir p w with
    | Done u w' => Done u w'
    | Raised (FileNotFoundError q) =>
      match n with
      | O => Raised (FileNotFoundError q)
      | S n' => (mkdir_rec n' (parent p) ;;; mkdir_exist_ok p) w
      end
    | Raised e => if is_dir w p then Done tt w else Raised e
    end.

Definition mkdir_parents (p : path) : M unit := mkdir_rec (length p) p.

(** [with open(p, "w", encoding="utf-8") as f: json.dump(data, f, ...)]:
    the file is made or replaced, and holds the text of [data].  Opening
    fails when a directory on the way is missing or is a regular file,
    and when [p] is a directory. *)
Definition write_json (p : path) (data : json) : M unit :=
  fun w =>
    match resolve_parent w p with
    | Some e => Raised e
    | None =>
      match lookup_entry w p with
      | Directory => Raised (IsADirectoryError p)
      | _ =>
        Done tt {| rand := rand w; uuids := uuids w; clock := clock w;
                   files := <[p := data]> (files w);
                   dirs := dirs w |}
      end
    end.

(** [str(p.relative_to(base))] *)
Definition relative_to (base p : path) : str :=
  join (py "/") (drop (length base) p).

Section Exporter.
(** [self.output_dir] *)
Variable output_dir : path.

Definition _ensure_directories : M unit :=
  for_each (fun difficulty =>
          mkdir_parents (output_dir ++ [difficulty_value difficulty]))
       all_difficulties ;;;
  ret tt.

Definition export_set (exercise_set : ExerciseSet) : M path :=
  _ensure_directories ;;;
  let difficulty_dir :=
    output_dir ++ [difficulty_value (set_difficulty exercise_set)] in
  let filename :=
    exercise_type_value (exercise_type exercise_set) ++ py ".json" in
  let output_path := difficulty_dir ++ [filename] in
  let data := set_to_dict exercise_set in
  write_json output_path (JObj data) ;;;
  ret output_path.

Definition manifest_entry (key : str) (p : path) (exercise_set : ExerciseSet)
  : json :=
  JObj [ (py "key", JStr key);
         (py "path", JStr (relative_to output_dir p));
         (py "type", JStr (exercise_type_value (exercise_type exercise_set)));
         (py "difficulty",
          JStr (difficulty_value (set_difficulty exercise_set)));
         (py "exerciseCount", json_len (exercises exercise_set));
         (py "name", JStr (name exercise_set)) ].

(** [exercise_sets] is the dictionary in the order of [items()]. *)
Definition export_all (exercise_sets : list (str * ExerciseSet))
  : M (list (str * path)) :=
  _ensure_directories ;;;
  done <-
    for_each (fun '(key, exercise_set) =>
            p <- export_set exercise_set ;;
            ret ((key, p), manifest_entry key p exercise_set))
         exercise_sets ;;
  let exported := dict_of (fst <$> done) in
  let manifest_entries := snd <$> done in
  t <- now_isoformat ;;
  let manifest :=
    JObj [ (py "version", JStr (py "1.0"));
           (py "generatedAt", JStr t);
           (py "totalSets", json_len exercise_sets);
           (py "sets", JList manifest_entries) ] in
  write_json (output_dir ++ [py "manifest.json"]) manifest ;;;
  ret exported.

(** One item [p["left"]: p["right"]] of the dictionary comprehension of
    [export_answers]. *)
Definition pair_entry (p : json) : M (str * json) :=
  match p with
  | JObj kvs =>
    match dict_get (py "left") kvs, dict_get (py "right") kvs with
    | Some (JStr l), Some r => ret (l, r)
    | Some _, Some _ => raise (TypeError (py "keys must be str"))
    | None, _ => raise (KeyError (py "left"))
    | _, None => raise (KeyError (py "right"))
    end
  | _ => raise (TypeError (py "not subscriptable"))
  end.

(** The entry that [export_answers] stores under [exercise.id]; the
    branch is chosen by the type of the set. *)
Definition answer_entry (set_type : ExerciseType) (exercise : AnyExercise)
  : M json :=
  let exercise_dict := to_dict exercise in
  match set_type with
  | FILL_IN_BLANK =>
    ret (JObj [(py "answer", json_get (py "correctAnswer") exercise_dict)])
  | MATCHING =>
    match default (JList []) (dict_get (py "pairs") exercise_dict) with
    | JList pairs =>
      kvs <- for_each pair_entry pairs ;;
      ret (JObj [(py "pairs", JObj (dict_of kvs))])
    | _ => raise (TypeError (py "not iterable"))
    end
  | SPELLING =>
    ret (JObj [(py "answer", json_get (py "englishWord") exercise_dict)])
  | HANGMAN =>
    ret (JObj [(py "answer", json_get (py "word") exercise_dict)])
  end.

(** The dictionary [answers] built by [export_answers]. *)
Definition answers_of (exercise_sets : list (str * ExerciseSet))
  : M (list (str * json)) :=
  per_set <-
    for_each (fun '(key, exercise_set) =>
            entries <-
              for_each (fun exercise =>
                      a <- answer_entry (exercise_type exercise_set) exercise ;;
                      ret (id (base exercise), a))
                   (exercises exercise_set) ;;
            ret (key, JObj (dict_of entries)))
         exercise_sets ;;
  ret (dict_of per_set).

Definition export_answers (exercise_sets : list (str * ExerciseSet))
  : M path :=
  _ensure_directories ;;;
  answers <- answers_of exercise_sets ;;
  let answers_path := output_dir ++ [py "answers.json"] in
  write_json answers_path (JObj answers) ;;;
  ret answers_path.

End Exporter.

End ExerciseExporter.
Export ExerciseExporter.

(** * Notions used in the statements *)

Module Notions.

Local Open Scope nat_scope.

(** The vocabulary ids used by a list of exercises, with repetitions. *)
Definition used_ids (l : list AnyExercise) : list str :=
  e ← l; vocabulary_ids (base e).

(** The world in which the [k]-th shuffle of [letters] runs when every
    earlier one has returned [letters] unchanged, and the result of that
    shuffle.  [scramble] shuffles once and reshuffles at most 10 times:
    these are the attempts 0 to 10. *)
Fixpoint world_after (letters : list str) (k : nat) (w : World) : World :=
  match k with
  | O => w
  | S k' =>
    match shuffle letters w with
    | Done _ w' => world_after letters k' w'
    | Raised _ => w
    end
  end.

Definition attempt (letters : list str) (k : nat) (w : World)
  : option (list str) :=
  match shuffle letters (world_after letters k w) with
  | Done l _ => Some l
  | Raised _ => None
  end.

(** The world in which the body of the loop of [generate_spelling] starts
    for the exercise of index [i], in the run of
    [generate_spelling difficulty count] from [w]: the selection is made,
    then the exercises of smaller index are built.  The first thing the
    body does in that world is to scramble the word. *)
Definition spelling_world `{!TextLib} (vocabulary : list VocabularyItem)
    (difficulty : Difficulty) (count : Z) (i : nat) (w : World)
  : option World :=
  match _select_random (_filter_by_difficulty vocabulary difficulty) count w
  with
  | Done selected w1 =>
    match for_each (spelling_exercise difficulty) (take i selected) w1 with
    | Done _ w2 => Some w2
    | Raised _ => None
    end
  | Raised _ => None
  end.

(** The pair [p] was built from the item [x]. *)
Definition pair_of (x : VocabularyItem) (p : MatchingPair) : Prop :=
  vocabulary_id p = item_id x /\
  left p = _get_english x /\
  right p = _get_german x.

(** What holds of every exercise built by [generate_matching] from the
    eligible [pool]: its pairs were built, one each, from items found at
    different positions of the pool. *)
Definition matching_ok (difficulty : Difficulty) (pool : list VocabularyItem)
    (e : MatchingExercise) : Prop :=
  (exists selected, selected ⊆+ pool /\ Forall2 pair_of selected (pairs e)) /\
  vocabulary_ids (match_base e) = vocabulary_id <$> pairs e /\
  shuffled_right e ≡ₚ right <$> pairs e /\
  length (pairs e) <= matching_pairs (DIFFICULTY_CONFIG difficulty).

(** The answer stored for one exercise: the correct word of a
    fill-in-the-blank, the mapping from the left to the right word of the
    pairs of a matching, the English word of a spelling, the word to guess
    of a hangman. *)
Definition answer_payload (e : AnyExercise) : json :=
  match e with
  | FillInBlank x => JObj [(py "answer", JStr (correct_answer x))]
  | Matching x =>
    JObj [(py "pairs",
           JObj (dict_of ((fun p => (left p, JStr (right p))) <$> pairs x)))]
  | Spelling x => JObj [(py "answer", JStr (english_word x))]
  | Hangman x => JObj [(py "answer", JStr (word x))]
  end.

(** What [export_answers] stores for one set. *)
Definition answers_for (s : ExerciseSet) (v : json) : Prop :=
  exists set_doc, v = JObj set_doc /\
    (NoDup (id ∘ base <$> exercises s) ->
     forall e, e ∈ exercises s -> type_of e = exercise_type s ->
       dict_get (id (base e)) set_doc = Some (answer_payload e)).

(** Text made of Basic Latin characters only. *)
Definition basic_latin (s : str) : Prop := Forall (fun c => (c < 128)%N) s.

(** The file of the set of a given difficulty and type. *)
Definition set_path (output_dir : path) (d : Difficulty) (t : ExerciseType)
  : path :=
  output_dir ++ [difficulty_value d; exercise_type_value t ++ py ".json"].

Definition answers_path (output_dir : path) : path :=
  output_dir ++ [py "answers.json"].

(** Only directories were made between [w] and [w']. *)
Definition grows_dirs (w w' : World) : Prop :=
  rand w' = rand w /\ uuids w' = uuids w /\ clock w' = clock w /\
  files w' = files w /\ dirs w ⊆ dirs w'.

End Notions.
Export Notions.

(** * Concrete vocabularies and worlds *)

Module Examples.

(** A world whose random source always draws 0. *)
Definition quiet : World :=
  {| rand := []; uuids := []; clock := []; files := ∅; dirs := ∅ |}.

(** A world whose random source draws 1 eleven times: every shuffle of a
    two-letter list swaps position 1 with itself. *)
Definition stubborn : World :=
  {| rand := replicate 11 1%nat; uuids := []; clock := [];
     files := ∅; dirs := ∅ |}.

Definition item (i english german : string) : VocabularyItem :=
  {| item_id := py i;
     sourceForm_text := Some (py english);
     targetForm_text := Some (py german);
     wordType := Some (py "noun");
     exampleSentences := [] |}.

(** The vocabulary of the example scenario. *)
Definition sleeve : VocabularyItem :=
  {| item_id := py "v1";
     sourceForm_text := Some (py "sleeve");
     targetForm_text := Some (py "Ärmel");
     wordType := Some (py "noun");
     exampleSentences :=
       [ {| source := Some (py "She has short sleeves."); target := None |} ] |}.

Definition four_items : list VocabularyItem :=
  [ item "v1" "sleeve" "Ärmel"; item "v2" "insect" "Insekt";
    item "v3" "safe" "sicher"; item "v4" "cat" "Katze" ].

Definition ab : VocabularyItem := item "v1" "ab" "x".

(** An item whose source word has 101 characters. *)
Definition long_word : str := replicate 101 97%N.

Definition long_item : VocabularyItem :=
  {| item_id := py "v1";
     sourceForm_text := Some long_word;
     targetForm_text := Some (py "lang");
     wordType := Some (py "noun");
     exampleSentences := [] |}.

(** A set of one hangman exercise. *)
Definition cat_hangman : AnyExercise :=
  Hangman
    {| hang_base :=
         {| id := py "hang_1";
            difficulty := EASY;
            vocabulary_ids := [py "v4"];
            instructions := py "Guess the English word letter by letter." |};
       word := py "cat";
       hang_hint := py "Katze";
       category := py "noun";
       max_attempts := 8;
       revealed_letters := [0%Z] |}.

Definition cat_set : ExerciseSet :=
  {| set_id := py "set_1";
     name := py "Hangman - Easy";
     exercise_type := HANGMAN;
     set_difficulty := EASY;
     exercises := [cat_hangman];
     created_at := py "2024-05-01T10:00:00+00:00" |}.

End Examples.
Export Examples.

(** * The rest of the generator *)

Module Indices.

Local Open Scope nat_scope.

(** [if key not in index: index[key] = []] followed by
    [index[key].append(item)] *)
Definition index_add `{Countable K} (key : K) (item : VocabularyItem)
    (index : gmap K (list VocabularyItem)) : gmap K (list VocabularyItem) :=
  <[key := default [] (index !! key) ++ [item]]> index.

(** [_build_indices]: the dictionaries [by_word_type] and [by_length]. *)
Definition _build_indices (vocabulary : list VocabularyItem)
  : gmap str (list VocabularyItem) * gmap nat (list VocabularyItem) :=
  foldl (fun '(by_word_type, by_length) item =>
           (index_add (get_word_type item) item by_word_type,
            index_add (length (_get_english item)) item by_length))
        (∅, ∅) vocabulary.

End Indices.
Export Indices.

(** * The command line ([generate_exercises.py]) *)

Module Cli.

(** [s.split(sep)] for a one-character separator: the pieces between the
    separators, the empty ones included. *)
Fixpoint split_on (sep : char) (cur : str) (s : str) : list str :=
  match s with
  | [] => [cur]
  | c :: s' =>
    if c =? sep then cur :: split_on sep [] s'
    else split_on sep (cur ++ [c]) s'
  end.

(** [ExerciseType(t)] and [Difficulty(d)]: the member with that value;
    [None] stands for the [ValueError] that the callers catch. *)
Definition exercise_type_of_value (t : str) : option ExerciseType :=
  head (filter (fun m => exercise_type_value m = t) all_exercise_types).

Definition difficulty_of_value (d : str) : option Difficulty :=
  head (filter (fun m => difficulty_value m = d) all_difficulties).

Section Parsing.
Context `{!TextLib}.

(** The loop shared by [parse_types] and [parse_difficulties]: the
    members found and the lines printed. *)
Definition parse_tokens {E} (member_of_value : str -> option E)
    (warning : str -> str) (tokens : list str) : list E * list str :=
  foldl (fun '(found, printed) t =>
           let t := str_lower (strip t) in
           match member_of_value t with
           | Some m => (found ++ [m], printed)
           | None => (found, printed ++ [warning t])
           end)
        ([], []) tokens.

Definition parse_types (type_str : str) : list ExerciseType * list str :=
  if str_eqb (str_lower type_str) (py "all") then (all_exercise_types, [])
  else
    parse_tokens exercise_type_of_value
      (fun t => py "Warning: Unknown exercise type '" ++ t ++ py "', skipping.")
      (split_on 44 [] type_str).

Definition parse_difficulties (diff_str : str)
  : list Difficulty * list str :=
  if str_eqb (str_lower diff_str) (py "all") then (all_difficulties, [])
  else
    parse_tokens difficulty_of_value
      (fun d => py "Warning: Unknown difficulty '" ++ d ++ py "', skipping.")
      (split_on 44 [] diff_str).

End Parsing.

End Cli.
Export Cli.

(** * More notions used in the statements *)

Module MoreNotions.

Local Open Scope nat_scope.

(** The words a student has to find in an exercise. *)
Definition answer_words (e : AnyExercise) : list str :=
  match e with
  | FillInBlank x => [correct_answer x]
  | Matching x => left <$> pairs x
  | Spelling x => [english_word x]
  | Hangman x => [word x]
  end.

(** The eligible items with and without a usable example sentence. *)
Definition with_examples (pool : list VocabularyItem) : list VocabularyItem :=
  filter (fun v => truthy_opt (_get_example_sentence v) = true) pool.

Definition without_examples (pool : list VocabularyItem)
  : list VocabularyItem :=
  filter (fun v => ¬ truthy_opt (_get_example_sentence v) = true) pool.

(** The key ["{difficulty}_{type}"] of a set. *)
Definition set_key (d : Difficulty) (t : ExerciseType) : str :=
  difficulty_value d ++ py "_" ++ exercise_type_value t.

Definition all_set_keys : list str :=
  d ← all_difficulties; t ← all_exercise_types; [set_key d t].

Definition manifest_path (output_dir : path) : path :=
  output_dir ++ [py "manifest.json"].

(** The path of a set file relative to the output directory, as text. *)
Definition relative_set_path (d : Difficulty) (t : ExerciseType) : str :=
  difficulty_value d ++ py "/" ++ exercise_type_value t ++ py ".json".

(** The files after the sets of a mapping were written one after the
    other. *)
Definition write_sets (output_dir : path) (sets : list (str * ExerciseSet))
    (fs : gmap path json) : gmap path json :=
  foldl (fun fs ks =>
           <[set_path output_dir (set_difficulty ks.2) (exercise_type ks.2)
               := JObj (set_to_dict ks.2)]> fs)
        fs sets.

(** The field of the document of an exercise that holds its answer. *)
Definition answer_in_document (e : AnyExercise) : json :=
  match e with
  | FillInBlank _ => json_get (py "correctAnswer") (to_dict e)
  | Matching _ => json_get (py "pairs") (to_dict e)
  | Spelling _ => json_get (py "englishWord") (to_dict e)
  | Hangman _ => json_get (py "word") (to_dict e)
  end.

(** The prefix of the id of an exercise of each type. *)
Definition id_prefix (t : ExerciseType) : str :=
  match t with
  | FILL_IN_BLANK => py "fib_"
  | MATCHING => py "match_"
  | SPELLING => py "spell_"
  | HANGMAN => py "hang_"
  end.

(** An operation that does not draw from [uuid.uuid4]. *)
Definition keeps_uuids {A} (m : M A) : Prop :=
  forall w a w', m w = Done a w' -> uuids w' = uuids w.

(** The tree of files and directories is in order: no name is both a
    directory and a regular file, and every directory and every file
    lies in a directory that is there. *)
Definition tree_ok (w : World) : Prop :=
  (forall q, lookup_entry w q = Directory -> files w !! q = None) /\
  (forall q, q ∈ dirs w -> resolve_parent w q = None) /\
  (forall q, is_Some (files w !! q) -> resolve_parent w q = None).

(** A character of a lower-case name: Basic Latin, no capital letter, no
    white space, no comma. *)
Definition name_char (c : char) : Prop :=
  (c < 128)%N /\ ascii_lower c = c /\ isspace c = false /\ c ≠ 44%N.

(** [str.lower] on Basic Latin text changes the capital letters only. *)
Definition lower_is_ascii `{!TextLib} : Prop :=
  forall s, basic_latin s -> str_lower s = ascii_lower <$> s.

End MoreNotions.
Export MoreNotions.

(** ** More inputs *)

Module MoreExamples.

Local Open Scope py_scope.

(** A world that draws 0 from the random source and holds nine distinct
    uuid values. *)
Definition numbered : World :=
  {| rand := [];
     uuids := (fun n => py "0000000" ++ str_of_nat n) <$> seq 1 9;
     clock := []; files := ∅; dirs := ∅ |}.

(** An item whose example sentence has an inflected form of the word
    only. *)
Definition run : VocabularyItem :=
  {| item_id := py "v5";
     sourceForm_text := Some (py "run");
     targetForm_text := Some (py "rennen");
     wordType := Some (py "verb");
     exampleSentences :=
       [ {| source := Some (py "He ran."); target := None |} ] |}.

Definition cat : VocabularyItem := item "v4" "cat" "Katze".



End MoreExamples.
Export MoreExamples.

(** * Properties *)

(** ** The effect monad *)

Section EffectFacts.
Local Open Scope py_scope.
Local Open Scope nat_scope.

Lemma bind_Done {A B} (m : M A) (f : A -> M B) w b w' :
  bind m f w = Done b w' <-> exists a w1, m w = Done a w1 /\ f a w1 = Done b w'.
Proof.
  unfold bind. split.
  - destruct (m w) as [a w1|e]; [eauto | discriminate].
  - intros (a & w1 & -> & Hf). exact Hf.
Qed.

Lemma ret_Done {A} (a b : A) w w' : ret a w = Done b w' <-> a = b /\ w = w'.
Proof. unfold ret. split; [intros [= -> ->]; done | intros [-> ->]; done]. Qed.

(** Every output of a loop was produced by the body on the input at the
    same position, in some world. *)
Lemma for_each_inv {A B} (f : A -> M B) l w ys w' :
  for_each f l w = Done ys w' ->
  Forall2 (fun x y => exists w0 w1, f x w0 = Done y w1) l ys.
Proof.
  revert w ys w'. induction l as [|x l IH]; intros w ys w'; simpl.
  - intros [<- _]%ret_Done. constructor.
  - intros (y & w1 & Hy & (ys' & w2 & Hys & [<- _]%ret_Done)%bind_Done)%bind_Done.
    constructor; eauto.
Qed.

Lemma for_each_Forall2 {A B} (R : A -> B -> Prop) (f : A -> M B) l w ys w' :
  (forall x w0 y w1, f x w0 = Done y w1 -> R x y) ->
  for_each f l w = Done ys w' -> Forall2 R l ys.
Proof.
  intros HR Hl. eapply Forall2_impl; [exact (for_each_inv _ _ _ _ _ Hl)|].
  intros x y (w0 & w1 & Hxy). eauto.
Qed.

(** A loop whose body returns on every item of the list returns. *)
Lemma for_each_returns {A B} (f : A -> M B) l w :
  Forall (fun x => forall w0, exists y w1, f x w0 = Done y w1) l ->
  exists ys w', for_each f l w = Done ys w'.
Proof.
  intros Hl. revert w. induction Hl as [|x l Hx _ IH]; intros w; simpl.
  - eexists _, _. reflexivity.
  - destruct (Hx w) as (y & w1 & Hy). destruct (IH w1) as (ys & w2 & Hys).
    exists (y :: ys), w2. unfold bind. rewrite Hy, Hys. reflexivity.
Qed.

Lemma randbelow_Done n w :
  exists j w', randbelow n w = Done j w' /\ (0 < n -> j < n).
Proof.
  unfold randbelow. eexists _, _. split; [reflexivity|].
  intros Hn. destruct n; [lia|]. apply Nat.mod_upper_bound. lia.
Qed.

Lemma swap_Permutation {A} (x : list A) i j : swap x i j ≡ₚ x.
Proof.
  unfold swap. destruct (x !! i) as [a|] eqn:Hi; [|done].
  destruct (x !! j) as [b|] eqn:Hj; [|done].
  by apply Permutation_insert_swap.
Qed.

Lemma shuffle_from_Done {A} i (x : list A) w :
  exists y w', shuffle_from i x w = Done y w' /\ y ≡ₚ x.
Proof.
  revert x w. induction i as [|i IH]; intros x w; simpl.
  - by exists x, w.
  - destruct (randbelow_Done (S (S i)) w) as (j & w1 & Hj & _).
    destruct (IH (swap x (S i) j) w1) as (y & w2 & Hy & Hp).
    exists y, w2. unfold bind. rewrite Hj. split; [done|].
    by rewrite Hp, swap_Permutation.
Qed.

Lemma shuffle_Done {A} (x : list A) w :
  exists y w', shuffle x w = Done y w' /\ y ≡ₚ x.
Proof. apply shuffle_from_Done. Qed.

Lemma shuffle_Permutation {A} (x y : list A) w w' :
  shuffle x w = Done y w' -> y ≡ₚ x.
Proof.
  intros H. destruct (shuffle_Done x w) as (y' & w1 & Hy & Hp). congruence.
Qed.

Lemma insert_last_Permutation {A} (l : list A) j x y :
  l !! j = Some x -> x :: <[j := y]> l ≡ₚ y :: l.
Proof.
  intros Hj.
  apply (Permutation_insert_swap (y :: l) 0 (S j) y x); done.
Qed.

(** One step of the selection: the chosen item leaves the pool. *)
Lemma sample_step_Permutation {A} (pool : list A) n j x y :
  j < n -> n <= length pool ->
  pool !! j = Some x -> pool !! (n - 1) = Some y ->
  x :: take (n - 1) (<[j := y]> pool) ≡ₚ take n pool.
Proof.
  intros Hj Hn Hx Hy.
  replace (take n pool) with (take (n - 1) pool ++ [y]); last first.
  { replace n with (S (n - 1)) at 2 by lia. by erewrite take_S_r. }
  destruct (decide (j = n - 1)) as [->|Hne].
  - rewrite list_insert_id by done. simplify_eq.
    by rewrite Permutation_cons_append.
  - rewrite take_insert_lt by lia.
    rewrite insert_last_Permutation.
    + by rewrite Permutation_cons_append.
    + rewrite lookup_take_lt by lia. done.
Qed.

Lemma sample_pool_Done {A} k (pool : list A) n w :
  k <= n -> n <= length pool ->
  exists res w', sample_pool k pool n w = Done res w' /\
    length res = k /\ res ⊆+ take n pool.
Proof.
  revert pool n w. induction k as [|k IH]; intros pool n w Hk Hn; simpl.
  - exists [], w. split_and!; [done..|]. apply submseteq_nil_l.
  - destruct (randbelow_Done n w) as (j & w1 & Hj & Hlt).
    specialize (Hlt ltac:(lia)).
    destruct (lookup_lt_is_Some_2 pool j ltac:(lia)) as [x Hx].
    destruct (lookup_lt_is_Some_2 pool (n - 1) ltac:(lia)) as [y Hy].
    destruct (IH (<[j := y]> pool) (n - 1) w1) as (res & w2 & Hres & Hlen & Hsub);
      [lia | rewrite length_insert; lia |].
    exists (x :: res), w2. unfold bind at 1. rewrite Hj, Hx, Hy.
    unfold bind. rewrite Hres. split_and!; [done | simpl; lia |].
    rewrite <- (sample_step_Permutation pool n j x y) by done.
    by apply submseteq_skip.
Qed.

Lemma sample_Done {A} (population : list A) (k : Z) w :
  (0 <= k <= Z.of_nat (length population))%Z ->
  exists res w', sample population k w = Done res w' /\
    length res = Z.to_nat k /\ res ⊆+ population.
Proof.
  intros Hk. unfold sample.
  rewrite (proj2 (andb_true_iff _ _)) by (split; lia).
  destruct (sample_pool_Done (Z.to_nat k) population (length population) w)
    as (res & w' & Hres & Hlen & Hsub); [lia | lia |].
  rewrite firstn_all in Hsub. eauto.
Qed.

Lemma sample_negative {A} (population : list A) (k : Z) w :
  (k < 0)%Z -> exists e, sample population k w = Raised e.
Proof.
  intros Hk. unfold sample.
  replace (0 <=? k)%Z with false by lia. simpl. by eexists.
Qed.

End EffectFacts.

(** ** The difficulty filter and the random selection *)

Section SelectionFacts.
Context `{!TextLib}.
Variable vocabulary : list VocabularyItem.
Local Open Scope py_scope.
Local Open Scope nat_scope.

Lemma truthy_true s : truthy s = true <-> s ≠ [].
Proof. destruct s; simpl; split; (done || congruence). Qed.

Lemma eligible_true config item :
  eligible config item = true <->
  _get_english item ≠ [] /\
  length (_get_english item) <= max_word_length config.
Proof.
  unfold eligible. rewrite andb_true_iff, truthy_true, Nat.leb_le. tauto.
Qed.

Lemma elem_of_filter_by_difficulty difficulty item :
  item ∈ _filter_by_difficulty vocabulary difficulty <->
  item ∈ vocabulary /\ _get_english item ≠ [] /\
  length (_get_english item) <=
    max_word_length (DIFFICULTY_CONFIG difficulty).
Proof.
  unfold _filter_by_difficulty. rewrite list_elem_of_filter, eligible_true.
  tauto.
Qed.

Lemma filter_by_difficulty_sub difficulty :
  _filter_by_difficulty vocabulary difficulty ⊆+ vocabulary.
Proof. apply sublist_submseteq, sublist_filter. Qed.

Lemma select_random_returns {A} (items : list A) count w :
  (0 <= count)%Z -> exists res w', _select_random items count w = Done res w'.
Proof.
  intros Hc. unfold _select_random.
  destruct (Z.leb_spec (Z.of_nat (length items)) count).
  - by eexists _, _.
  - destruct (sample_Done items count w) as (res & w' & Hres & _); [lia|].
    eauto.
Qed.

Lemma select_random_inv {A} (items res : list A) count w w' :
  _select_random items count w = Done res w' ->
  (0 <= count)%Z /\ res ⊆+ items /\
  length res = Z.to_nat count `min` length items.
Proof.
  unfold _select_random.
  destruct (Z.leb_spec (Z.of_nat (length items)) count).
  - intros [<- _]%ret_Done. split_and!; [lia | done | lia].
  - destruct (Z.le_gt_cases 0 count) as [Hc|Hc].
    + destruct (sample_Done items count w) as (r & w1 & Hr & Hlen & Hsub);
        [lia|].
      rewrite Hr. intros [= <- _]. split_and!; [done | done | lia].
    + destruct (sample_negative items count w) as [e He]; [lia|].
      rewrite He. discriminate.
Qed.

End SelectionFacts.

(** ** The loop bodies of the generator *)

Section BodyFacts.
Context `{!TextLib}.
Local Open Scope py_scope.
Local Open Scope nat_scope.

Lemma fill_in_blank_exercise_Done difficulty item w :
  exists e w', fill_in_blank_exercise difficulty item w = Done e w' /\
    vocabulary_ids (fib_base e) = [item_id item] /\
    correct_answer e = _get_english item.
Proof.
  unfold fill_in_blank_exercise.
  destruct (truthy_opt (_get_example_sentence item)); by eexists _, _.
Qed.

Lemma fill_in_blank_exercise_inv difficulty item w e w' :
  fill_in_blank_exercise difficulty item w = Done e w' ->
  vocabulary_ids (fib_base e) = [item_id item] /\
  correct_answer e = _get_english item.
Proof.
  destruct (fill_in_blank_exercise_Done difficulty item w)
    as (e0 & w0 & -> & Hid); by intros [= <- _].
Qed.

Lemma hangman_exercise_Done difficulty item w :
  exists e w', hangman_exercise difficulty item w = Done e w' /\
    vocabulary_ids (hang_base e) = [item_id item] /\
    word e = _get_english item.
Proof. by eexists _, _. Qed.

Lemma hangman_exercise_inv difficulty item w e w' :
  hangman_exercise difficulty item w = Done e w' ->
  vocabulary_ids (hang_base e) = [item_id item] /\ word e = _get_english item.
Proof.
  destruct (hangman_exercise_Done difficulty item w)
    as (e0 & w0 & -> & Hid); by intros [= <- _].
Qed.

Lemma matching_pair_inv item w p w' :
  matching_pair item w = Done p w' ->
  vocabulary_id p = item_id item /\ left p = _get_english item /\
  right p = _get_german item.
Proof. by intros [= <- _]. Qed.

Lemma reshuffle_Done original n letters w :
  exists r w', reshuffle original n letters w = Done r w' /\ r ≡ₚ letters.
Proof.
  revert letters w. induction n as [|n IH]; intros letters w; simpl.
  - by exists letters, w.
  - destruct (str_eqb (join [] letters) original); [|by exists letters, w].
    destruct (shuffle_Done letters w) as (l1 & w1 & Hl1 & Hp1).
    destruct (IH l1 w1) as (r & w2 & Hr & Hp2).
    exists r, w2. unfold bind. rewrite Hl1. split; [done|].
    by rewrite Hp2.
Qed.

Lemma scramble_Done english w :
  exists r w', scramble english w = Done r w' /\
    r ≡ₚ chars (str_lower english).
Proof.
  unfold scramble.
  destruct (shuffle_Done (chars (str_lower english)) w) as (l1 & w1 & Hl1 & Hp1).
  destruct (reshuffle_Done (str_lower english) 10 l1 w1) as (r & w2 & Hr & Hp2).
  exists r, w2. unfold bind. rewrite Hl1. split; [done|].
  by rewrite Hp2.
Qed.

Lemma spelling_hint_Done config english w :
  english ≠ [] -> exists h, spelling_hint config english w = Done h w.
Proof.
  intros Hne. unfold spelling_hint.
  destruct (show_hints config); [|by eexists].
  destruct (reveal_first_letter config); [|by eexists].
  destruct english; [done|]. by eexists.
Qed.

Lemma spelling_exercise_Done difficulty item w :
  _get_english item ≠ [] ->
  exists e w', spelling_exercise difficulty item w = Done e w'.
Proof.
  intros Hne. unfold spelling_exercise.
  destruct (scramble_Done (_get_english item) w) as (r & w1 & Hr & _).
  destruct (spelling_hint_Done (DIFFICULTY_CONFIG difficulty) _ w1 Hne)
    as (h & Hh).
  unfold bind. rewrite Hr, Hh. by eexists _, _.
Qed.

Lemma spelling_exercise_inv difficulty item w e w' :
  spelling_exercise difficulty item w = Done e w' ->
  vocabulary_ids (spell_base e) = [item_id item] /\
  english_word e = _get_english item /\
  exists w1, scramble (_get_english item) w = Done (scrambled_letters e) w1.
Proof.
  unfold spelling_exercise.
  intros (r & w1 & Hr & (h & w2 & Hh & (u & w3 & Hu & [<- _]%ret_Done)
    %bind_Done)%bind_Done)%bind_Done.
  simpl. eauto.
Qed.

(** [selected = self._select_random(items, count)] followed by the loop
    over [selected]. *)
Lemma select_then_loop_inv {B} (body : VocabularyItem -> M B)
    items count w l w' :
  (selected <- _select_random items count ;; for_each body selected) w
    = Done l w' ->
  exists selected, selected ⊆+ items /\
    length selected = Z.to_nat count `min` length items /\
    Forall2 (fun x y => exists w0 w1, body x w0 = Done y w1) selected l.
Proof.
  intros (selected & w1 & Hsel & Hloop)%bind_Done.
  apply select_random_inv in Hsel as (_ & Hsub & Hlen).
  exists selected. split_and!; [done..|]. by eapply for_each_inv.
Qed.

Lemma select_then_loop_returns {B} (body : VocabularyItem -> M B)
    items count w :
  (0 <= count)%Z ->
  Forall (fun x => forall w0, exists y w1, body x w0 = Done y w1) items ->
  exists l w',
    (selected <- _select_random items count ;; for_each body selected) w
      = Done l w'.
Proof.
  intros Hc Hbody.
  destruct (select_random_returns items count w Hc) as (selected & w1 & Hsel).
  pose proof Hsel as (_ & Hsub & _)%select_random_inv.
  destruct (for_each_returns body selected w1) as (l & w2 & Hl).
  { rewrite Forall_forall in Hbody |- *. intros x Hx. apply Hbody.
    by eapply elem_of_submseteq. }
  exists l, w2. unfold bind. by rewrite Hsel.
Qed.

End BodyFacts.

(** ** The four generation operations *)

Section GenerationFacts.
Context `{!TextLib}.
Variable vocabulary : list VocabularyItem.
Local Open Scope py_scope.
Local Open Scope nat_scope.

Lemma Forall2_fmap_eq {A B C} (f : A -> C) (g : B -> C) l k :
  Forall2 (fun x y => g y = f x) l k -> g <$> k = f <$> l.
Proof.
  induction 1 as [|x y l k Hxy _ IH]; [done|].
  rewrite !fmap_cons. by f_equal.
Qed.

Lemma generate_fill_in_blank_inv difficulty count w l w' :
  generate_fill_in_blank vocabulary difficulty count w = Done l w' ->
  exists selected,
    selected ⊆+ _filter_by_difficulty vocabulary difficulty /\
    length selected =
      Z.to_nat count `min` length (_filter_by_difficulty vocabulary difficulty) /\
    Forall2 (fun x e => vocabulary_ids (fib_base e) = [item_id x] /\
                        correct_answer e = _get_english x) selected l.
Proof.
  unfold generate_fill_in_blank.
  set (pool := _filter_by_difficulty vocabulary difficulty).
  pose proof (filter_app_complement
    (fun v => truthy_opt (_get_example_sentence v) = true) pool) as Hsplit.
  cbv beta in Hsplit.
  pose proof (Permutation_length Hsplit) as Hlen. rewrite length_app in Hlen.
  intros (s1 & w1 & Hs1 & (s2 & w2 & Hs2 & Hloop)%bind_Done)%bind_Done.
  apply select_random_inv in Hs1 as (Hc & Hsub1 & Hlen1).
  assert (s2 ⊆+ pool /\ length s2 = Z.to_nat count `min` length pool)
    as [Hsub Hl2].
  { destruct (Z.ltb_spec (Z.of_nat (length s1)) count).
    - apply bind_Done in Hs2 as (extra & w3 & Hextra & [<- _]%ret_Done).
      apply select_random_inv in Hextra as (_ & Hsub2 & Hlen2).
      split.
      + rewrite <- Hsplit. by apply submseteq_app.
      + rewrite length_app. lia.
    - apply ret_Done in Hs2 as [<- _]. split.
      + rewrite <- Hsplit. by apply submseteq_inserts_r.
      + lia. }
  exists s2. split_and!; [done..|].
  eapply for_each_Forall2; [|exact Hloop].
  intros x w0 y w3. apply fill_in_blank_exercise_inv.
Qed.

Lemma generate_fill_in_blank_returns difficulty count w :
  (0 <= count)%Z ->
  exists l w', generate_fill_in_blank vocabulary difficulty count w = Done l w'.
Proof.
  intros Hc. unfold generate_fill_in_blank.
  set (pool := _filter_by_difficulty vocabulary difficulty).
  match goal with |- context [_select_random ?a count] =>
    destruct (select_random_returns a count w Hc) as (s1 & w1 & Hs1) end.
  assert (exists s2 w2, forall K : list VocabularyItem -> M (list FillInBlankExercise),
    (selected <-
       (if (Z.of_nat (length s1) <? count)%Z
        then
          extra <- _select_random
            (filter (fun v => ¬ truthy_opt (_get_example_sentence v) = true) pool)
            (count - Z.of_nat (length s1)) ;;
          ret (s1 ++ extra)
        else ret s1) ;; K selected) w1 = K s2 w2) as (s2 & w2 & Hs2).
  { destruct (Z.ltb_spec (Z.of_nat (length s1)) count).
    - match goal with |- context [_select_random ?a ?c] =>
        destruct (select_random_returns a c w1) as (extra & w3 & Hextra);
          [lia|] end.
      exists (s1 ++ extra), w3. intros K. unfold bind. by rewrite Hextra.
    - by exists s1, w1. }
  destruct (for_each_returns (fill_in_blank_exercise difficulty) s2 w2)
    as (l & w3 & Hl).
  { apply Forall_forall. intros x _ w0.
    destruct (fill_in_blank_exercise_Done difficulty x w0) as (e & w4 & He & _).
    eauto. }
  exists l, w3. unfold bind at 1. rewrite Hs1. by rewrite Hs2.
Qed.

Lemma generate_spelling_inv difficulty count w l w' :
  generate_spelling vocabulary difficulty count w = Done l w' ->
  exists selected,
    selected ⊆+ _filter_by_difficulty vocabulary difficulty /\
    length selected =
      Z.to_nat count `min` length (_filter_by_difficulty vocabulary difficulty) /\
    Forall2 (fun x e => exists w0 w1,
               spelling_exercise difficulty x w0 = Done e w1) selected l.
Proof. apply select_then_loop_inv. Qed.

Lemma generate_spelling_returns difficulty count w :
  (0 <= count)%Z ->
  exists l w', generate_spelling vocabulary difficulty count w = Done l w'.
Proof.
  intros Hc. apply select_then_loop_returns; [done|].
  apply Forall_forall. intros x Hx w0.
  apply spelling_exercise_Done.
  by apply elem_of_filter_by_difficulty in Hx as (_ & Hne & _).
Qed.

Lemma generate_hangman_inv difficulty count w l w' :
  generate_hangman vocabulary difficulty count w = Done l w' ->
  exists selected,
    selected ⊆+ _filter_by_difficulty vocabulary difficulty /\
    length selected =
      Z.to_nat count `min` length (_filter_by_difficulty vocabulary difficulty) /\
    Forall2 (fun x e => vocabulary_ids (hang_base e) = [item_id x] /\
                        word e = _get_english x) selected l.
Proof.
  intros (selected & Hsub & Hlen & Hall)%select_then_loop_inv.
  exists selected. split_and!; [done..|].
  eapply Forall2_impl; [exact Hall|].
  intros x e (w0 & w1 & He). by eapply hangman_exercise_inv.
Qed.

Lemma generate_hangman_returns difficulty count w :
  (0 <= count)%Z ->
  exists l w', generate_hangman vocabulary difficulty count w = Done l w'.
Proof.
  intros Hc. apply select_then_loop_returns; [done|].
  apply Forall_forall. intros x _ w0.
  destruct (hangman_exercise_Done difficulty x w0) as (e & w1 & He & _). eauto.
Qed.

Lemma matching_loop_inv difficulty pool n remaining w l w' :
  remaining ⊆+ pool ->
  matching_loop difficulty pool n remaining w = Done l w' ->
  length l = n /\ Forall (matching_ok difficulty pool) l.
Proof.
  revert remaining w l w'.
  induction n as [|n IH]; intros remaining w l w' Hrem; simpl.
  - intros [<- _]%ret_Done. by split.
  - intros (rem1 & w1 & Hrem1 & (ps & w2 & Hps & (sh & w3 & Hsh &
      (u & w4 & _ & (rest & w5 & Hrest & [<- _]%ret_Done)%bind_Done)
      %bind_Done)%bind_Done)%bind_Done)%bind_Done.
    assert (rem1 ⊆+ pool) as Hrem1'.
    { destruct (_ <? _).
      - apply shuffle_Permutation in Hrem1. by rewrite Hrem1.
      - by apply ret_Done in Hrem1 as [<- _]. }
    apply IH in Hrest as [Hlen Hall];
      [|by etrans; [apply submseteq_drop|]].
    assert (Forall2 pair_of
              (take (matching_pairs (DIFFICULTY_CONFIG difficulty)) rem1) ps)
      as Hpairs.
    { eapply for_each_Forall2; [|exact Hps].
      intros x w0 p w6 Hp. by apply matching_pair_inv in Hp. }
    split; [simpl; lia|]. constructor; [|done].
    unfold matching_ok; simpl. split_and!.
    + eexists. split; [|exact Hpairs]. by etrans; [apply submseteq_take|].
    + done.
    + by eapply shuffle_Permutation.
    + rewrite <- (Forall2_length _ _ _ Hpairs), length_take. lia.
Qed.

Lemma matching_loop_returns difficulty pool n remaining w :
  exists l w', matching_loop difficulty pool n remaining w = Done l w'.
Proof.
  revert remaining w. induction n as [|n IH]; intros remaining w; simpl.
  - by eexists _, _.
  - assert (exists rem1 w1,
      (if length remaining <? matching_pairs (DIFFICULTY_CONFIG difficulty)
       then shuffle pool else ret remaining) w = Done rem1 w1)
      as (rem1 & w1 & Hrem1).
    { destruct (_ <? _); [|by eexists _, _].
      destruct (shuffle_Done pool w) as (r & w1 & Hr & _). eauto. }
    destruct (for_each_returns matching_pair
      (take (matching_pairs (DIFFICULTY_CONFIG difficulty)) rem1) w1)
      as (ps & w2 & Hps).
    { apply Forall_forall. intros x _ w0. by eexists _, _. }
    destruct (shuffle_Done (right <$> ps) w2) as (sh & w3 & Hsh & _).
    destruct (IH (drop (matching_pairs (DIFFICULTY_CONFIG difficulty)) rem1)
      (match uuid4_hex8 w3 with Done _ w4 => w4 | Raised _ => w3 end))
      as (rest & w5 & Hrest).
    eexists _, w5. unfold bind at 1. rewrite Hrem1.
    unfold bind at 1. rewrite Hps. unfold bind at 1. rewrite Hsh.
    unfold bind at 1. simpl. unfold bind at 1. simpl in Hrest.
    rewrite Hrest. reflexivity.
Qed.

Lemma generate_matching_inv difficulty count w l w' :
  generate_matching vocabulary difficulty count w = Done l w' ->
  length l = Z.to_nat count /\
  Forall (matching_ok difficulty (_filter_by_difficulty vocabulary difficulty)) l.
Proof.
  intros (rem & w1 & Hrem & Hloop)%bind_Done.
  eapply matching_loop_inv; [|exact Hloop].
  apply shuffle_Permutation in Hrem. by rewrite Hrem.
Qed.

Lemma matching_ok_ids difficulty pool e :
  matching_ok difficulty pool e ->
  vocabulary_ids (match_base e) ⊆+ item_id <$> pool.
Proof.
  intros ((selected & Hsub & Hpairs) & -> & _).
  replace (vocabulary_id <$> pairs e) with (item_id <$> selected).
  - by apply fmap_submseteq.
  - symmetry. apply Forall2_fmap_eq.
    eapply Forall2_impl; [exact Hpairs|]. by intros x p (? & _).
Qed.

Lemma generate_matching_returns difficulty count w :
  exists l w', generate_matching vocabulary difficulty count w = Done l w'.
Proof.
  unfold generate_matching.
  destruct (shuffle_Done (_filter_by_difficulty vocabulary difficulty) w)
    as (rem & w1 & Hrem & _).
  destruct (matching_loop_returns difficulty
    (_filter_by_difficulty vocabulary difficulty) (Z.to_nat count) rem w1)
    as (l & w2 & Hl).
  exists l, w2. unfold bind. by rewrite Hrem.
Qed.

End GenerationFacts.

(** ** Exercise sets *)

Section SetFacts.
Context `{!TextLib}.
Variable vocabulary : list VocabularyItem.
Local Open Scope py_scope.
Local Open Scope nat_scope.

Lemma submseteq_NoDup {A} (l k : list A) : l ⊆+ k -> NoDup k -> NoDup l.
Proof.
  intros (k' & Hk)%submseteq_Permutation Hnd. rewrite Hk in Hnd.
  by apply NoDup_app in Hnd as (? & _).
Qed.

Lemma used_ids_fmap {B} (C : B -> AnyExercise) (selected : list VocabularyItem)
    (l : list B) :
  Forall2 (fun x e => vocabulary_ids (base (C e)) = [item_id x]) selected l ->
  used_ids (C <$> l) = item_id <$> selected.
Proof.
  unfold used_ids. induction 1 as [|x e sel l Hxe _ IH]; [done|].
  rewrite !fmap_cons, bind_cons, Hxe, IH. done.
Qed.

(** The exercises built, one each, from items selected in the pool. *)
Lemma built_from_selection {B} (C : B -> AnyExercise) kind
    (pool selected : list VocabularyItem) (l : list B) :
  (forall e, type_of (C e) = kind) ->
  selected ⊆+ pool ->
  Forall2 (fun x e => vocabulary_ids (base (C e)) = [item_id x]) selected l ->
  Forall (fun e => type_of e = kind /\
                   vocabulary_ids (base e) ⊆+ item_id <$> pool) (C <$> l) /\
  used_ids (C <$> l) ⊆+ item_id <$> pool.
Proof.
  intros Hkind Hsub Hall. split.
  - apply Forall_fmap.
    eapply Forall2_Forall_r; [exact Hall|].
    apply Forall_forall. intros x Hx e Hxe. simpl. split; [apply Hkind|].
    rewrite Hxe. apply singleton_submseteq_l, list_elem_of_fmap_2.
    by eapply elem_of_submseteq.
  - rewrite (used_ids_fmap C selected l Hall). by apply fmap_submseteq.
Qed.

Lemma generators_inv kind difficulty count w l w' :
  generators vocabulary kind difficulty count w = Done l w' ->
  let pool := _filter_by_difficulty vocabulary difficulty in
  Forall (fun e => type_of e = kind /\
                   vocabulary_ids (base e) ⊆+ item_id <$> pool) l /\
  (kind = MATCHING -> length l = Z.to_nat count) /\
  (kind ≠ MATCHING ->
   length l = Z.to_nat count `min` length pool /\
   used_ids l ⊆+ item_id <$> pool).
Proof.
  intros Hgen pool. destruct kind; simpl in Hgen;
    apply bind_Done in Hgen as (l0 & w1 & Hl0 & [<- _]%ret_Done).
  - apply generate_fill_in_blank_inv in Hl0 as (sel & Hsub & Hlen & Hall).
    destruct (built_from_selection FillInBlank FILL_IN_BLANK pool sel l0)
      as [Hf Hu]; [done | done | |].
    { eapply Forall2_impl; [exact Hall|]. by intros x e [? _]. }
    split_and!; [done | done |]. intros _.
    rewrite length_fmap, <- (Forall2_length _ _ _ Hall). done.
  - apply generate_matching_inv in Hl0 as [Hlen Hall].
    split_and!; [| by rewrite length_fmap | done].
    apply Forall_fmap. eapply Forall_impl; [exact Hall|].
    intros e He. split; [done|]. by eapply matching_ok_ids.
  - apply generate_spelling_inv in Hl0 as (sel & Hsub & Hlen & Hall).
    destruct (built_from_selection Spelling SPELLING pool sel l0)
      as [Hf Hu]; [done | done | |].
    { eapply Forall2_impl; [exact Hall|].
      intros x e (w0 & w2 & He). by apply spelling_exercise_inv in He as [? _]. }
    split_and!; [done | done |]. intros _.
    rewrite length_fmap, <- (Forall2_length _ _ _ Hall). done.
  - apply generate_hangman_inv in Hl0 as (sel & Hsub & Hlen & Hall).
    destruct (built_from_selection Hangman HANGMAN pool sel l0)
      as [Hf Hu]; [done | done | |].
    { eapply Forall2_impl; [exact Hall|]. by intros x e [? _]. }
    split_and!; [done | done |]. intros _.
    rewrite length_fmap, <- (Forall2_length _ _ _ Hall). done.
Qed.

Lemma generators_returns kind difficulty count w :
  (0 <= count)%Z ->
  exists l w', generators vocabulary kind difficulty count w = Done l w'.
Proof.
  intros Hc. destruct kind; simpl.
  - destruct (generate_fill_in_blank_returns vocabulary difficulty count w Hc)
      as (l & w' & Hl).
    eexists _, _. unfold bind. by rewrite Hl.
  - destruct (generate_matching_returns vocabulary difficulty count w)
      as (l & w' & Hl).
    eexists _, _. unfold bind. by rewrite Hl.
  - destruct (generate_spelling_returns vocabulary difficulty count w Hc)
      as (l & w' & Hl).
    eexists _, _. unfold bind. by rewrite Hl.
  - destruct (generate_hangman_returns vocabulary difficulty count w Hc)
      as (l & w' & Hl).
    eexists _, _. unfold bind. by rewrite Hl.
Qed.

Lemma generate_exercise_set_inv kind difficulty count name w s w' :
  generate_exercise_set vocabulary kind difficulty count name w = Done s w' ->
  exercise_type s = kind /\ set_difficulty s = difficulty /\
  exists w1, generators vocabulary kind difficulty count w
             = Done (exercises s) w1.
Proof.
  unfold generate_exercise_set.
  intros (l & w1 & Hl & (u & w2 & _ & (t & w3 & _ & [<- _]%ret_Done)
    %bind_Done)%bind_Done)%bind_Done.
  simpl. eauto.
Qed.

(** The timestamp of a set is read off the clock while the set is
    generated. *)
Lemma created_at_read_at_generation kind difficulty count name w s w' :
  generate_exercise_set vocabulary kind difficulty count name w = Done s w' ->
  exists w1, now_isoformat w1 = Done (created_at s) w'.
Proof.
  unfold generate_exercise_set.
  intros (l & w1 & Hl & (u & w2 & _ & (t & w3 & Ht & [<- <-]%ret_Done)
    %bind_Done)%bind_Done)%bind_Done.
  simpl. eauto.
Qed.

Lemma generate_exercise_set_returns kind difficulty count name w :
  (0 <= count)%Z ->
  exists s w',
    generate_exercise_set vocabulary kind difficulty count name w = Done s w'.
Proof.
  intros Hc.
  destruct (generators_returns kind difficulty count w Hc) as (l & w1 & Hl).
  unfold generate_exercise_set, bind. rewrite Hl. by eexists _, _.
Qed.

End SetFacts.

(** ** Scrambling the letters of a word *)

Section ScrambleFacts.
Context `{!TextLib}.
Local Open Scope py_scope.
Local Open Scope nat_scope.

Lemma join_chars (s : str) : join [] (chars s) = s.
Proof.
  destruct s as [|c s]; [done|]. unfold chars. simpl. f_equal.
  induction s as [|d s IH]; simpl; [done|]. by rewrite IH.
Qed.

Lemma chars_join (letters : list str) :
  Forall (fun c => length c = 1) letters -> chars (join [] letters) = letters.
Proof.
  intros Hall. destruct Hall as [|c letters Hc Hall]; [done|].
  destruct c as [|a [|??]]; try done. unfold chars. simpl. f_equal.
  induction Hall as [|d letters Hd _ IH]; [done|].
  destruct d as [|b [|??]]; try done. simpl. by rewrite IH.
Qed.

Lemma chars_singletons (s : str) : Forall (fun c => length c = 1) (chars s).
Proof. unfold chars. apply Forall_fmap, Forall_forall. done. Qed.

(** When the loop of [scramble] ends on the original ordering, every one
    of its [n] reshuffles has returned the letters unchanged. *)
Lemma reshuffle_same original n letters w r w' :
  Forall (fun c => length c = 1) letters ->
  reshuffle original n letters w = Done r w' ->
  join [] r = original ->
  join [] letters = original /\
  forall k, k < n -> attempt letters k w = Some letters.
Proof.
  revert letters w. induction n as [|n IH]; intros letters w Hone; simpl.
  - intros [<- _]%ret_Done Hr. split; [done | lia].
  - unfold str_eqb. case_bool_decide as Heq.
    + intros (l1 & w1 & Hl1 & Hrest)%bind_Done Hr.
      assert (Forall (fun c => length c = 1) l1) as Hone1.
      { by rewrite (shuffle_Permutation _ _ _ _ Hl1). }
      destruct (IH l1 w1 Hone1 Hrest Hr) as [Hj Hk].
      assert (l1 = letters) as ->.
      { rewrite <- (chars_join l1), <- (chars_join letters) by done.
        congruence. }
      split; [done|]. intros [|k] Hlt; unfold attempt; simpl; rewrite Hl1.
      * done.
      * apply Hk. lia.
    + intros [<- _]%ret_Done Hr. done.
Qed.

Lemma scramble_same english w r w' :
  scramble english w = Done r w' ->
  join [] r = str_lower english ->
  forall k, k <= 10 ->
    attempt (chars (str_lower english)) k w = Some (chars (str_lower english)).
Proof.
  unfold scramble. intros (l1 & w1 & Hl1 & Hrest)%bind_Done Hr.
  assert (Forall (fun c => length c = 1) l1) as Hone1.
  { rewrite (shuffle_Permutation _ _ _ _ Hl1). apply chars_singletons. }
  destruct (reshuffle_same _ _ _ _ _ _ Hone1 Hrest Hr) as [Hj Hk].
  assert (l1 = chars (str_lower english)) as ->.
  { rewrite <- (chars_join l1) by done. by rewrite Hj. }
  intros [|k] Hle; unfold attempt; simpl; rewrite Hl1.
  - done.
  - apply Hk. lia.
Qed.

Lemma scramble_Permutation english w r w' :
  scramble english w = Done r w' -> r ≡ₚ chars (str_lower english).
Proof.
  intros Hr. destruct (scramble_Done english w) as (r0 & w0 & Hr0 & Hp).
  congruence.
Qed.

(** When the shuffles of the letters all return them unchanged, the loop
    runs to its bound and the letters are kept. *)
Lemma reshuffle_kept original n letters w :
  join [] letters = original ->
  (forall k, k < n -> attempt letters k w = Some letters) ->
  exists w', reshuffle original n letters w = Done letters w'.
Proof.
  intros Hj. revert w. induction n as [|n IH]; intros w Hk; simpl.
  - by eexists.
  - unfold str_eqb. rewrite bool_decide_eq_true_2 by done.
    pose proof (Hk 0 ltac:(lia)) as H0. unfold attempt in H0. simpl in H0.
    destruct (shuffle letters w) as [l1 w1|] eqn:Hl1; [|done].
    injection H0 as ->.
    destruct (IH w1) as (w' & Hw').
    { intros k Hlt. specialize (Hk (S k) ltac:(lia)).
      unfold attempt in *. simpl in Hk. by rewrite Hl1 in Hk. }
    exists w'. unfold bind. by rewrite Hl1.
Qed.

Lemma scramble_kept english w :
  (forall k, k <= 10 ->
     attempt (chars (str_lower english)) k w = Some (chars (str_lower english))) ->
  exists w', scramble english w = Done (chars (str_lower english)) w'.
Proof.
  intros Hk. unfold scramble.
  pose proof (Hk 0 ltac:(lia)) as H0. unfold attempt in H0. simpl in H0.
  destruct (shuffle (chars (str_lower english)) w) as [l1 w1|] eqn:Hl1;
    [|done].
  injection H0 as ->.
  destruct (reshuffle_kept (str_lower english) 10 (chars (str_lower english)) w1)
    as (w' & Hw').
  { apply join_chars. }
  { intros k Hlt. specialize (Hk (S k) ltac:(lia)).
    unfold attempt in *. simpl in Hk. by rewrite Hl1 in Hk. }
  exists w'. unfold bind. by rewrite Hl1.
Qed.

(** The world in which the body of a loop runs for the item of index
    [i] is the one the loop over the items before it ends in. *)
Lemma for_each_lookup {A B} (f : A -> M B) l w ys w' i y :
  for_each f l w = Done ys w' -> ys !! i = Some y ->
  exists x before wi wi',
    l !! i = Some x /\
    for_each f (take i l) w = Done before wi /\
    f x wi = Done y wi'.
Proof.
  revert w ys w' i. induction l as [|x l IH]; intros w ys w' i; simpl.
  - by intros [<- _]%ret_Done.
  - intros (y0 & w1 & Hy0 & (ys' & w2 & Hys & [<- _]%ret_Done)%bind_Done)
      %bind_Done.
    destruct i as [|i]; simpl.
    + intros [= ->]. by eexists x, [], w, w1.
    + intros Hi. destruct (IH _ _ _ _ Hys Hi) as (x' & before & wi & wi' & Hx & Hb & Hf).
      exists x', (y0 :: before), wi, wi'. split_and!; [done| |done].
      unfold bind. by rewrite Hy0, Hb.
Qed.

End ScrambleFacts.

(** * The generator: properties of the specification *)

Section GeneratorClaims.
Context `{!TextLib}.
Local Open Scope py_scope.
Local Open Scope nat_scope.

(** C1 (the code departs from the claim).  The claim makes the Hard tier
    unbounded, as do the comment [# No limit] and the docstring
    [HARD: All words]; the code compares the length with 100.  An item
    whose non-empty source word has 101 characters is not eligible for
    Hard and no exercise is built from it. *)
Theorem hard_tier_rejects_long_word :
  _get_english long_item ≠ [] /\
  length (_get_english long_item) = 101 /\
  _filter_by_difficulty [long_item] HARD = [] /\
  generate_hangman [long_item] HARD 1 quiet = Done [] quiet.
Proof. split_and!; [done | done | by vm_compute | by vm_compute]. Qed.

(** C2, amended.  For a request of [count >= 0] exercises the set is
    always produced.  For fill-in-the-blank, spelling and hangman it holds
    [min count (size of the eligible pool)] exercises and the ids they use,
    counted with repetitions, form a sub-multiset of the ids of the pool:
    no item is used twice.  For matching it holds exactly [count]
    exercises, whatever the size of the pool. *)
Theorem exercise_count_capped vocabulary kind difficulty count name w :
  (0 <= count)%Z ->
  exists s w',
    generate_exercise_set vocabulary kind difficulty count name w = Done s w' /\
    let pool := _filter_by_difficulty vocabulary difficulty in
    (kind = MATCHING -> length (exercises s) = Z.to_nat count) /\
    (kind ≠ MATCHING ->
     length (exercises s) = Z.to_nat count `min` length pool /\
     used_ids (exercises s) ⊆+ item_id <$> pool).
Proof.
  intros Hc.
  destruct (generate_exercise_set_returns vocabulary kind difficulty count
    name w Hc) as (s & w' & Hs).
  exists s, w'. split; [done|].
  apply generate_exercise_set_inv in Hs as (_ & _ & w1 & Hgen).
  apply generators_inv in Hgen as (_ & Hm & Ho). done.
Qed.

(** The exercise of index [i] of a run of [generate_spelling] was built in
    the world [spelling_world ... i] of that run, and its letters are what
    [scramble] returns there. *)
Lemma spelling_run vocabulary difficulty count w l w' i e :
  generate_spelling vocabulary difficulty count w = Done l w' ->
  l !! i = Some e ->
  exists w0 w1,
    spelling_world vocabulary difficulty count i w = Some w0 /\
    scramble (english_word e) w0 = Done (scrambled_letters e) w1.
Proof.
  unfold generate_spelling.
  intros (selected & ws & Hsel & Hloop)%bind_Done Hi.
  destruct (for_each_lookup _ _ _ _ _ _ _ Hloop Hi)
    as (x & before & w0 & w0' & Hx & Hbefore & Hbody).
  apply spelling_exercise_inv in Hbody as (_ & Heng & w1 & Hscr).
  exists w0, w1. split; [|by rewrite Heng].
  unfold spelling_world. by rewrite Hsel, Hbefore.
Qed.

(** C5.  For every spelling exercise generated at any difficulty, the
    scrambled letters are a permutation of the letters of the lower-cased
    source word.  They are what [scramble] returns in the world of the
    run in which the exercise is built; and in that world their ordering
    is the original one exactly when the first shuffle and each of the
    10 reshuffles made for the word return the original ordering. *)
Theorem scrambled_letters_permutation vocabulary difficulty count w l w' :
  generate_spelling vocabulary difficulty count w = Done l w' ->
  forall i e, l !! i = Some e ->
    let original := str_lower (english_word e) in
    scrambled_letters e ≡ₚ chars original /\
    exists w0 w1,
      spelling_world vocabulary difficulty count i w = Some w0 /\
      scramble (english_word e) w0 = Done (scrambled_letters e) w1 /\
      (join [] (scrambled_letters e) = original <->
       forall k, k <= 10 ->
         attempt (chars original) k w0 = Some (chars original)).
Proof.
  intros Hgen i e Hi original.
  destruct (spelling_run _ _ _ _ _ _ _ _ Hgen Hi) as (w0 & w1 & Hw0 & Hscr).
  split; [by eapply scramble_Permutation|].
  exists w0, w1. split_and!; [done | done |]. split.
  - intros Hsame. by eapply scramble_same.
  - intros Hall. destruct (scramble_kept _ _ Hall) as (w2 & Hkept).
    rewrite Hkept in Hscr. injection Hscr as <- _. apply join_chars.
Qed.

(** C6, amended.  Every generated spelling exercise is built in a world
    of the run, in which [scramble] returns its letters.  When one of the
    11 shuffles made there for the word (the first one and the 10
    reshuffles of the unchanged letters) returns another ordering than
    the original one, the scrambled letters differ from the original
    ordering of the lower-cased source word; when all 11 return the
    original ordering, the scrambled letters are in the original
    ordering. *)
Theorem scrambled_differs_if_some_shuffle_does vocabulary difficulty count
    w l w' :
  generate_spelling vocabulary difficulty count w = Done l w' ->
  forall i e, l !! i = Some e ->
    let original := str_lower (english_word e) in
    exists w0 w1,
      spelling_world vocabulary difficulty count i w = Some w0 /\
      scramble (english_word e) w0 = Done (scrambled_letters e) w1 /\
      ((exists k, k <= 10 /\
          attempt (chars original) k w0 ≠ Some (chars original)) ->
       join [] (scrambled_letters e) ≠ original) /\
      ((forall k, k <= 10 ->
          attempt (chars original) k w0 = Some (chars original)) ->
       scrambled_letters e = chars original).
Proof.
  intros Hgen i e Hi original.
  destruct (spelling_run _ _ _ _ _ _ _ _ Hgen Hi) as (w0 & w1 & Hw0 & Hscr).
  exists w0, w1. split_and!; [done | done | |].
  - intros (k & Hk & Hdiff) Hsame. apply Hdiff. by eapply scramble_same.
  - intros Hall. destruct (scramble_kept _ _ Hall) as (w2 & Hkept).
    rewrite Hkept in Hscr. by injection Hscr as <- _.
Qed.

(** C7.  In every generated matching exercise the shuffled right column
    is a permutation of the right values of the pairs of that exercise. *)
Theorem shuffled_right_permutation vocabulary difficulty count w l w' :
  generate_matching vocabulary difficulty count w = Done l w' ->
  forall e, e ∈ l -> shuffled_right e ≡ₚ right <$> pairs e.
Proof.
  intros [_ Hall]%generate_matching_inv e He.
  rewrite Forall_forall in Hall. by destruct (Hall e He) as (_ & _ & ? & _).
Qed.

(** C8.  For every difficulty and every kind, the vocabulary ids of every
    exercise of a generated set are ids of items of the vocabulary the
    generator was built with. *)
Theorem vocabulary_ids_from_input vocabulary kind difficulty count name
    w s w' :
  generate_exercise_set vocabulary kind difficulty count name w = Done s w' ->
  forall e, e ∈ exercises s ->
  forall i, i ∈ vocabulary_ids (base e) -> i ∈ item_id <$> vocabulary.
Proof.
  intros (_ & _ & w1 & Hgen)%generate_exercise_set_inv e He i Hi.
  apply generators_inv in Hgen as (Hall & _).
  rewrite Forall_forall in Hall. destruct (Hall e He) as [_ Hsub].
  eapply elem_of_submseteq; [exact Hi|].
  etrans; [exact Hsub|]. apply fmap_submseteq, filter_by_difficulty_sub.
Qed.

(** C10.  The pairs of one generated matching exercise are built, one
    each, from items found at different positions of the input vocabulary
    (a sub-multiset of it); so, when no item, and in particular no id,
    occurs twice in the input vocabulary, no vocabulary id occurs twice in
    the exercise. *)
Theorem matching_pairs_distinct vocabulary difficulty count w l w' :
  generate_matching vocabulary difficulty count w = Done l w' ->
  forall e, e ∈ l ->
    exists selected,
      selected ⊆+ vocabulary /\
      Forall2 pair_of selected (pairs e) /\
      vocabulary_ids (match_base e) = vocabulary_id <$> pairs e /\
      (NoDup vocabulary -> NoDup selected) /\
      (NoDup (item_id <$> vocabulary) -> NoDup (vocabulary_id <$> pairs e)).
Proof.
  intros [_ Hall]%generate_matching_inv e He.
  rewrite Forall_forall in Hall.
  destruct (Hall e He) as ((selected & Hsub & Hpairs) & Hids & _).
  assert (selected ⊆+ vocabulary) as Hsel
    by (etrans; [exact Hsub | apply filter_by_difficulty_sub]).
  exists selected. split_and!; [done | done | done | |].
  - by apply submseteq_NoDup.
  - intros Hnd.
    replace (vocabulary_id <$> pairs e) with (item_id <$> selected).
    + eapply submseteq_NoDup; [|exact Hnd]. by apply fmap_submseteq.
    + symmetry. apply Forall2_fmap_eq.
      eapply Forall2_impl; [exact Hpairs|]. by intros x p (? & _).
Qed.

End GeneratorClaims.

(** ** The example scenario of the fill-in-the-blank generator *)

Section SleeveScenario.
Context `{!TextLib}.
Local Open Scope py_scope.

Lemma ci_prefix_basic_latin p s :
  basic_latin p -> basic_latin s ->
  ci_prefix p s = @ci_prefix BasicLatin p s.
Proof.
  intros Hp. revert s. induction Hp as [|a p Ha _ IH]; intros s Hs; [done|].
  destruct Hs as [|b s Hb Hs]; [done|]. simpl.
  by rewrite ci_match_ascii, IH.
Qed.

Lemma sub_literal_basic_latin p repl skip s :
  basic_latin p -> basic_latin s ->
  sub_literal p repl skip s = @sub_literal BasicLatin p repl skip s.
Proof.
  intros Hp Hs. revert skip.
  induction Hs as [|c s Hc Hs IH]; intros skip; [done|]. simpl.
  destruct skip as [|k]; [|apply IH].
  rewrite (ci_prefix_basic_latin p (c :: s)) by (done || by constructor).
  by rewrite !IH.
Qed.

Lemma re_sub_ignorecase_basic_latin word repl text :
  basic_latin word -> basic_latin text ->
  re_sub_ignorecase word repl text = @re_sub_ignorecase BasicLatin word repl text.
Proof.
  intros Hw Ht. unfold re_sub_ignorecase. destruct word; [done|].
  by apply sub_literal_basic_latin.
Qed.

Lemma fill_in_blank_exercise_basic_latin difficulty item :
  basic_latin (_get_english item) ->
  basic_latin (default [] (_get_example_sentence item)) ->
  fill_in_blank_exercise difficulty item
  = @fill_in_blank_exercise BasicLatin difficulty item.
Proof.
  intros He Hs. unfold fill_in_blank_exercise.
  by rewrite re_sub_ignorecase_basic_latin.
Qed.

(** C3, amended.  For the one-item vocabulary of the scenario,
    [generate_fill_in_blank(EASY, 1)] returns exactly one exercise, with
    correct answer "sleeve", hint "Ärmel" and sentence
    "She has short ___s.": the occurrence of "sleeve" inside "sleeves" is
    replaced and the rest of the word stays. *)
Theorem fill_in_blank_sleeve w :
  exists e w',
    generate_fill_in_blank [sleeve] EASY 1 w = Done [e] w' /\
    correct_answer e = py "sleeve" /\
    sentence e = py "She has short ___s." /\
    fib_hint e = Some (py "Ärmel").
Proof.
  assert (generate_fill_in_blank [sleeve] EASY 1 w
          = for_each (fill_in_blank_exercise EASY) [sleeve] w) as ->
    by reflexivity.
  cbn [for_each].
  rewrite fill_in_blank_exercise_basic_latin
    by (apply Forall_forall; intros c Hc%list_elem_of_In;
        vm_compute in Hc; intuition (subst; done)).
  eexists _, _. split; [reflexivity|]. by vm_compute.
Qed.

End SleeveScenario.

(** C3 as stated fails: the sentence of the exercise is not
    "She has short ___.". *)
Lemma fill_in_blank_sleeve_keeps_plural :
  ~ exists e w',
      @generate_fill_in_blank BasicLatin [sleeve] EASY 1 quiet = Done [e] w' /\
      correct_answer e = py "sleeve" /\
      sentence e = py "She has short ___." /\
      fib_hint e = Some (py "Ärmel").
Proof.
  intros (e & w' & He & _ & Hs & _).
  vm_compute in He. injection He as <- _.
  vm_compute in Hs. discriminate.
Qed.

(** * The exporter *)

(** ** Dictionaries *)

Section DictFacts.
Context {V : Type}.
Implicit Types (d kvs : list (str * V)) (k : str) (v : V).

Lemma dict_get_set_eq k v d : dict_get k (dict_set k v d) = Some v.
Proof.
  induction d as [|[k' v'] d IH]; simpl; unfold str_eqb.
  - by rewrite bool_decide_eq_true_2.
  - case_bool_decide as Hk; simpl; unfold str_eqb.
    + by rewrite bool_decide_eq_true_2.
    + by rewrite bool_decide_eq_false_2.
Qed.

Lemma dict_get_set_ne k k' v d :
  k ≠ k' -> dict_get k (dict_set k' v d) = dict_get k d.
Proof.
  intros Hne. induction d as [|[k0 v0] d IH]; simpl; unfold str_eqb.
  - by rewrite bool_decide_eq_false_2.
  - case_bool_decide as Hk; simpl; unfold str_eqb.
    + subst k0. by rewrite !bool_decide_eq_false_2.
    + by rewrite IH.
Qed.

Lemma dict_get_update k d kvs :
  dict_get k (dict_update d kvs) =
  match dict_get k (reverse kvs) with
  | Some v => Some v
  | None => dict_get k d
  end.
Proof.
  unfold dict_update. revert d.
  induction kvs as [|[k' v'] kvs IH]; intros d; simpl; [done|].
  rewrite IH, reverse_cons. clear IH.
  induction (reverse kvs) as [|[k0 v0] r IHr]; simpl; unfold str_eqb.
  - case_bool_decide as Hk.
    + subst k'. apply dict_get_set_eq.
    + by apply dict_get_set_ne.
  - by case_bool_decide.
Qed.

Lemma dict_get_elem_of k v kvs :
  NoDup kvs.*1 -> (k, v) ∈ kvs -> dict_get k kvs = Some v.
Proof.
  induction kvs as [|[k' v'] kvs IH]; simpl; unfold str_eqb.
  - by intros _ ?%elem_of_nil.
  - intros [Hnotin Hnd]%NoDup_cons [[= -> ->]|Hin]%elem_of_cons.
    + by rewrite bool_decide_eq_true_2.
    + rewrite bool_decide_eq_false_2; [by apply IH|].
      intros ->. apply Hnotin. by apply (list_elem_of_fmap_2 fst _ (k, v)).
Qed.

Lemma dict_of_elem_of k v kvs :
  NoDup kvs.*1 -> (k, v) ∈ kvs -> dict_get k (dict_of kvs) = Some v.
Proof.
  intros Hnd Hin. unfold dict_of. rewrite dict_get_update.
  rewrite (dict_get_elem_of k v).
  - done.
  - by rewrite fmap_reverse, reverse_Permutation.
  - by rewrite elem_of_reverse.
Qed.

End DictFacts.

(** ** The answer key *)

Section AnswerFacts.
Local Open Scope py_scope.

(** A loop whose body leaves the world alone. *)
Lemma for_each_pure {A B} (R : A -> B -> Prop) (f : A -> M B) l w :
  (forall x, x ∈ l -> exists y, f x w = Done y w /\ R x y) ->
  exists ys, for_each f l w = Done ys w /\ Forall2 R l ys.
Proof.
  induction l as [|x l IH]; intros Hf; simpl.
  - exists []. by split.
  - destruct (Hf x) as (y & Hy & HR); [by left|].
    destruct IH as (ys & Hys & Hall); [intros; apply Hf; by right|].
    exists (y :: ys). unfold bind. rewrite Hy, Hys. split; [done|].
    by constructor.
Qed.

Lemma pair_entries_Done (ps : list MatchingPair) w :
  for_each pair_entry (pair_to_dict <$> ps) w
  = Done ((fun p => (left p, JStr (right p))) <$> ps) w.
Proof.
  induction ps as [|p ps IH]; [done|].
  rewrite !fmap_cons. cbn [for_each]. unfold bind at 1.
  replace (pair_entry (pair_to_dict p) w)
    with (Done (left p, JStr (right p)) w) by reflexivity.
  unfold bind. by rewrite IH.
Qed.

Lemma dict_get_pairs (x : MatchingExercise) :
  dict_get (py "pairs") (to_dict (Matching x))
  = Some (JList (pair_to_dict <$> pairs x)).
Proof. reflexivity. Qed.

(** The entry of an exercise is always built, and it is the answer of
    the exercise when the set has the type of the exercise. *)
Lemma answer_entry_Done set_type e w :
  exists a, answer_entry set_type e w = Done a w /\
    (type_of e = set_type -> a = answer_payload e).
Proof.
  destruct e as [x|x|x|x], set_type;
    try (eexists; split; [reflexivity | by intros]).
  unfold answer_entry. rewrite dict_get_pairs. simpl.
  unfold bind. rewrite pair_entries_Done.
  eexists; split; [reflexivity | by intros].
Qed.

Lemma answers_of_set_Done (s : ExerciseSet) w :
  exists entries,
    for_each (fun exercise =>
                a <- answer_entry (exercise_type s) exercise ;;
                ret (id (base exercise), a)) (exercises s) w
    = Done entries w /\
    Forall2 (fun e kv => kv.1 = id (base e) /\
               (type_of e = exercise_type s -> kv.2 = answer_payload e))
            (exercises s) entries.
Proof.
  apply for_each_pure. intros e _.
  destruct (answer_entry_Done (exercise_type s) e w) as (a & Ha & Hty).
  exists (id (base e), a). unfold bind. rewrite Ha. by split.
Qed.

Lemma answers_of_Done (sets : list (str * ExerciseSet)) w :
  exists per_set,
    answers_of sets w = Done (dict_of per_set) w /\
    Forall2 (fun ks kv => kv.1 = ks.1 /\ answers_for ks.2 kv.2) sets per_set.
Proof.
  unfold answers_of.
  destruct (for_each_pure
    (fun ks kv => kv.1 = ks.1 /\ answers_for ks.2 kv.2)
    (fun '(key, exercise_set) =>
       entries <-
         for_each (fun exercise =>
                     a <- answer_entry (exercise_type exercise_set) exercise ;;
                     ret (id (base exercise), a))
                  (exercises exercise_set) ;;
       ret (key, JObj (dict_of entries))) sets w) as (per_set & Hper & Hall).
  { intros [key s] _.
    destruct (answers_of_set_Done s w) as (entries & Hentries & Hall).
    exists (key, JObj (dict_of entries)). cbn beta iota.
    split; [apply bind_Done; by eexists _, _|]. split; [done|]. exists (dict_of entries). split; [done|].
    intros Hnd e He Hty.
    apply list_elem_of_lookup in He as [i Hi].
    destruct (Forall2_lookup_l _ _ _ _ _ Hall Hi) as ([k a] & Hkv & Hk & Ha).
    simpl in Hk, Ha. subst k. rewrite <- (Ha Hty).
    apply dict_of_elem_of; [|by eapply list_elem_of_lookup_2].
    replace (entries.*1) with (id ∘ base <$> exercises s); [done|].
    symmetry. apply Forall2_fmap_eq.
    eapply Forall2_impl; [exact Hall|]. by intros ? ? [? _]. }
  exists per_set. split; [|done].
  apply bind_Done. eexists _, _. split; [exact Hper | reflexivity].
Qed.

End AnswerFacts.
(** ** The file system *)

Section FileSystemFacts.
Local Open Scope py_scope.
Local Open Scope nat_scope.

Lemma lookup_entry_Directory w p :
  lookup_entry w p = Directory <-> p = [] \/ p ∈ dirs w.
Proof.
  unfold lookup_entry. repeat case_bool_decide; try tauto.
  destruct (files w !! p); split; (done || by intros [|]).
Qed.

Lemma lookup_entry_ext w w' p :
  files w' = files w -> dirs w' = dirs w ->
  lookup_entry w' p = lookup_entry w p.
Proof. unfold lookup_entry. by intros -> ->. Qed.

Lemma lookup_entry_mono w w' p :
  dirs w ⊆ dirs w' ->
  lookup_entry w p = Directory -> lookup_entry w' p = Directory.
Proof.
  rewrite !lookup_entry_Directory. intros Hsub [->|Hp]; [by left|].
  right. by apply Hsub.
Qed.

Lemma walk_None w whole qs :
  walk w whole qs = None
  <-> Forall (fun q => lookup_entry w q = Directory) qs.
Proof.
  induction qs as [|q qs IH]; simpl; [by split|].
  rewrite Forall_cons. destruct (lookup_entry w q); [|split..]; try tauto;
    (done || by intros [? _]).
Qed.

Lemma walk_ext w w' whole qs :
  files w' = files w -> dirs w' = dirs w ->
  walk w' whole qs = walk w whole qs.
Proof.
  intros Hf Hd. induction qs as [|q qs IH]; simpl; [done|].
  by rewrite (lookup_entry_ext w w'), IH.
Qed.

Lemma is_dir_ext w w' p :
  files w' = files w -> dirs w' = dirs w -> is_dir w' p = is_dir w p.
Proof.
  intros Hf Hd. unfold is_dir, resolve_parent.
  by rewrite (walk_ext w w'), (lookup_entry_ext w w').
Qed.

Lemma is_dir_true w p :
  is_dir w p = true
  <-> resolve_parent w p = None /\ lookup_entry w p = Directory.
Proof.
  unfold is_dir. destruct (resolve_parent w p), (lookup_entry w p);
    split; (done || by intros [? ?]).
Qed.

Lemma resolve_parent_mono w w' p :
  dirs w ⊆ dirs w' ->
  resolve_parent w p = None -> resolve_parent w' p = None.
Proof.
  unfold resolve_parent. rewrite !walk_None. intros Hsub Hall.
  eapply Forall_impl; [exact Hall|]. intros q. by apply lookup_entry_mono.
Qed.

Lemma is_dir_mono w w' p :
  dirs w ⊆ dirs w' -> is_dir w p = true -> is_dir w' p = true.
Proof.
  rewrite !is_dir_true. intros Hsub [Hr He]. split.
  - by eapply resolve_parent_mono.
  - by eapply lookup_entry_mono.
Qed.

Lemma grows_dirs_refl w : grows_dirs w w.
Proof. by unfold grows_dirs. Qed.

Lemma grows_dirs_trans w1 w2 w3 :
  grows_dirs w1 w2 -> grows_dirs w2 w3 -> grows_dirs w1 w3.
Proof.
  intros (? & ? & ? & ? & ?) (? & ? & ? & ? & ?).
  unfold grows_dirs. split_and!; try congruence. by etrans.
Qed.

Lemma os_mkdir_Done p w u w' :
  os_mkdir p w = Done u w' -> grows_dirs w w' /\ is_dir w' p = true.
Proof.
  unfold os_mkdir. destruct (resolve_parent w p) eqn:Hr; [done|].
  destruct (lookup_entry w p) eqn:He; try done. intros [= <- <-].
  split.
  - unfold grows_dirs. simpl. split_and!; try done. apply union_subseteq_l.
  - apply is_dir_true. split.
    + eapply resolve_parent_mono; [|exact Hr]. simpl. apply union_subseteq_l.
    + apply lookup_entry_Directory. right. simpl.
      apply elem_of_union_r. by apply elem_of_singleton.
Qed.

Lemma mkdir_exist_ok_Done p w u w' :
  mkdir_exist_ok p w = Done u w' -> grows_dirs w w' /\ is_dir w' p = true.
Proof.
  unfold mkdir_exist_ok. destruct (os_mkdir p w) as [u0 w0|e] eqn:Hmk.
  - intros [= <- <-]. by eapply os_mkdir_Done.
  - destruct e; try done;
      (destruct (is_dir w p) eqn:Hd; [|done]; intros [= <- <-];
       split; [apply grows_dirs_refl | done]).
Qed.

Lemma mkdir_rec_Done n p w u w' :
  mkdir_rec n p w = Done u w' -> grows_dirs w w' /\ is_dir w' p = true.
Proof.
  revert p w u w'. induction n as [|n IH]; intros p w u w'; simpl;
    (destruct (os_mkdir p w) as [u0 w0|e] eqn:Hmk;
     [intros [= <- <-]; by eapply os_mkdir_Done|]);
    destruct e; try done;
    try (destruct (is_dir w p) eqn:Hd; [|done]; intros [= <- <-];
         split; [apply grows_dirs_refl | done]).
  intros (u1 & w1 & H1 & H2)%bind_Done.
  apply IH in H1 as [Hg1 _]. apply mkdir_exist_ok_Done in H2 as [Hg2 Hd].
  split; [by eapply grows_dirs_trans | done].
Qed.

Lemma mkdir_parents_Done p w u w' :
  mkdir_parents p w = Done u w' -> grows_dirs w w' /\ is_dir w' p = true.
Proof. apply mkdir_rec_Done. Qed.

(** Making a directory that is there changes nothing. *)
Lemma mkdir_parents_again p w :
  is_dir w p = true -> mkdir_parents p w = Done tt w.
Proof.
  intros Hd. pose proof Hd as [Hr He]%is_dir_true.
  unfold mkdir_parents. destruct (length p); simpl;
    unfold os_mkdir; by rewrite Hr, He, Hd.
Qed.

Lemma write_json_Done p data w u w' :
  write_json p data w = Done u w' ->
  w' = {| rand := rand w; uuids := uuids w; clock := clock w;
          files := <[p := data]> (files w); dirs := dirs w |} /\
  resolve_parent w p = None /\ lookup_entry w p ≠ Directory.
Proof.
  unfold write_json. destruct (resolve_parent w p); [done|].
  destruct (lookup_entry w p); [done|..]; by intros [= <- <-].
Qed.

Lemma write_json_returns p data w :
  resolve_parent w p = None -> lookup_entry w p ≠ Directory ->
  write_json p data w
  = Done tt {| rand := rand w; uuids := uuids w; clock := clock w;
               files := <[p := data]> (files w); dirs := dirs w |}.
Proof.
  unfold write_json. intros -> He. by destruct (lookup_entry w p).
Qed.

Lemma parent_app q (c : str) : parent (q ++ [c]) = q.
Proof.
  unfold parent. rewrite length_app. simpl.
  replace (length q + 1 - 1) with (length q) by lia.
  apply take_app_length.
Qed.

Lemma ancestors_parent q a :
  a ∈ ancestors q -> a = q \/ a ∈ ancestors (parent q).
Proof.
  unfold ancestors. intros (n & -> & Hn%elem_of_seq)%list_elem_of_fmap.
  destruct (decide (S n = length q)) as [Heq|Hne].
  - left. rewrite Heq. apply firstn_all.
  - right. apply list_elem_of_fmap. exists n. split.
    + unfold parent. rewrite take_take. f_equal. lia.
    + apply elem_of_seq. unfold parent. rewrite length_take. lia.
Qed.

Lemma elem_of_ancestors q : q ≠ [] -> q ∈ ancestors q.
Proof.
  intros Hq. unfold ancestors. apply list_elem_of_fmap.
  exists (length q - 1). split.
  - replace (S (length q - 1)) with (length q)
      by (destruct q; [done | simpl; lia]).
    by rewrite firstn_all.
  - apply elem_of_seq. destruct q; [done | simpl; lia].
Qed.

(** Below a directory the way is free. *)
Lemma resolve_parent_child w q c :
  is_dir w q = true -> resolve_parent w (q ++ [c]) = None.
Proof.
  intros [Hr He]%is_dir_true. unfold resolve_parent in *.
  rewrite parent_app. rewrite walk_None in *. apply Forall_forall.
  intros a [->|Ha]%ancestors_parent; [done|].
  rewrite Forall_forall in Hr. by apply Hr.
Qed.

Lemma is_dir_parent w q c :
  is_dir w (q ++ [c]) = true -> q ≠ [] -> q ∈ dirs w.
Proof.
  intros [Hr _]%is_dir_true Hq. unfold resolve_parent in Hr.
  rewrite parent_app, walk_None, Forall_forall in Hr.
  specialize (Hr q (elem_of_ancestors q Hq)).
  apply lookup_entry_Directory in Hr as [?|?]; done.
Qed.

Lemma is_dir_elem_of w q c : is_dir w (q ++ [c]) = true -> q ++ [c] ∈ dirs w.
Proof.
  intros [_ [He|He]%lookup_entry_Directory]%is_dir_true; [|done].
  by destruct q.
Qed.

End FileSystemFacts.

(** ** Properties of the exporter *)

Section ExporterClaims.
Variable output_dir : path.
Local Open Scope py_scope.

(** When [_ensure_directories] returns, it has made directories only
    and the directory of every difficulty is there. *)
Lemma ensure_directories_Done w u w' :
  _ensure_directories output_dir w = Done u w' ->
  grows_dirs w w' /\
  forall d, is_dir w' (output_dir ++ [difficulty_value d]) = true.
Proof.
  unfold _ensure_directories.
  intros (us & w0 & Hloop & [_ <-]%ret_Done)%bind_Done.
  cbn [all_difficulties for_each] in Hloop.
  apply bind_Done in Hloop as (u1 & w1 & H1 & Hloop).
  apply bind_Done in Hloop as (us1 & wa & Hloop & [_ <-]%ret_Done).
  apply bind_Done in Hloop as (u2 & w2 & H2 & Hloop).
  apply bind_Done in Hloop as (us2 & wb & Hloop & [_ <-]%ret_Done).
  apply bind_Done in Hloop as (u3 & w3 & H3 & Hloop).
  apply bind_Done in Hloop as (us3 & wc & [_ <-]%ret_Done & [_ <-]%ret_Done).
  apply mkdir_parents_Done in H1 as [Hg1 Hd1].
  apply mkdir_parents_Done in H2 as [Hg2 Hd2].
  apply mkdir_parents_Done in H3 as [Hg3 Hd3].
  split; [eauto using grows_dirs_trans|].
  destruct Hg2 as (_ & _ & _ & _ & Hs2), Hg3 as (_ & _ & _ & _ & Hs3).
  intros []; [| |done].
  - eapply is_dir_mono; [|exact Hd1]. by etrans.
  - by eapply is_dir_mono.
Qed.

Lemma ensure_directories_again w :
  (forall d, is_dir w (output_dir ++ [difficulty_value d]) = true) ->
  _ensure_directories output_dir w = Done tt w.
Proof.
  intros Hd. unfold _ensure_directories. cbn [all_difficulties for_each].
  unfold bind. by rewrite !mkdir_parents_again by apply Hd.
Qed.

Lemma set_path_app d t :
  set_path output_dir d t
  = (output_dir ++ [difficulty_value d]) ++ [exercise_type_value t ++ py ".json"].
Proof. unfold set_path. by rewrite <- app_assoc. Qed.

(** What a successful [export_set] has done. *)
Lemma export_set_Done (s : ExerciseSet) w p w' :
  export_set output_dir s w = Done p w' ->
  p = set_path output_dir (set_difficulty s) (exercise_type s) /\
  rand w' = rand w /\ uuids w' = uuids w /\ clock w' = clock w /\
  files w' = <[p := JObj (set_to_dict s)]> (files w) /\
  dirs w ⊆ dirs w' /\
  (forall d, is_dir w' (output_dir ++ [difficulty_value d]) = true) /\
  lookup_entry w' p = RegularFile.
Proof.
  unfold export_set.
  intros (u0 & w0 & Hens & Hrest)%bind_Done.
  apply bind_Done in Hrest as (u1 & w1 & Hwr & [<- <-]%ret_Done).
  apply ensure_directories_Done in Hens as [(Hr & Hu & Hc & Hf & Hd) Hdirs].
  apply write_json_Done in Hwr as (-> & Hres & Hent).
  rewrite <- set_path_app in *. cbn [rand uuids clock files dirs].
  split_and!; try done.
  - by rewrite Hf.
  - intros d. eapply is_dir_mono; [|apply Hdirs]. done.
  - unfold lookup_entry in *. cbn [files dirs].
    case_bool_decide; [done|]. case_bool_decide; [done|].
    by rewrite lookup_insert_eq.
Qed.

(** Where the directories are there and the path of the set is not a
    directory, [export_set] returns. *)
Lemma export_set_again (s : ExerciseSet) w :
  let p := set_path output_dir (set_difficulty s) (exercise_type s) in
  (forall d, is_dir w (output_dir ++ [difficulty_value d]) = true) ->
  lookup_entry w p ≠ Directory ->
  export_set output_dir s w
  = Done p {| rand := rand w; uuids := uuids w; clock := clock w;
              files := <[p := JObj (set_to_dict s)]> (files w);
              dirs := dirs w |}.
Proof.
  intros p Hd He. subst p. rewrite set_path_app in *.
  unfold export_set, bind at 1. rewrite ensure_directories_again by done.
  unfold bind. rewrite write_json_returns; [done | | done].
  apply resolve_parent_child, Hd.
Qed.

(** C4, amended.  When [export_answers] returns, it has written one
    document, [answers.json], and no other file.  The document maps the
    key of every set to a mapping from the ids of the exercises of that
    set to an object that holds the answer: under ["answer"] the correct
    word of a fill-in-the-blank, the English word of a spelling and the
    word to guess of a hangman, under ["pairs"] the mapping from the left
    to the right word of a matching.  (The keys of the sets are pairwise
    distinct, as in any dictionary; the answer of an exercise is stated
    for a set whose exercise ids are pairwise distinct and whose type is
    that of the exercise.) *)
Theorem export_answers_document (sets : list (str * ExerciseSet)) w p w' :
  NoDup sets.*1 ->
  export_answers output_dir sets w = Done p w' ->
  p = answers_path output_dir /\
  exists doc,
    files w' = <[answers_path output_dir := JObj doc]> (files w) /\
    forall key s, (key, s) ∈ sets ->
      exists set_doc, dict_get key doc = Some (JObj set_doc) /\
        (NoDup (id ∘ base <$> exercises s) ->
         forall e, e ∈ exercises s -> type_of e = exercise_type s ->
           dict_get (id (base e)) set_doc = Some (answer_payload e)).
Proof.
  intros Hnd. unfold export_answers.
  intros (u0 & w0 & Hens & Hrest)%bind_Done.
  apply bind_Done in Hrest as (answers & w1 & Hans & Hrest).
  apply bind_Done in Hrest as (u1 & w2 & Hwr & [<- <-]%ret_Done).
  apply ensure_directories_Done in Hens as [(_ & _ & _ & Hf & _) _].
  destruct (answers_of_Done sets w0) as (per_set & Hper & Hall).
  rewrite Hper in Hans. injection Hans as <- <-.
  apply write_json_Done in Hwr as (-> & _ & _).
  split; [done|]. exists (dict_of per_set). cbn [files]. split.
  - by rewrite Hf.
  - intros key s Hin.
    apply list_elem_of_lookup in Hin as [i Hi].
    destruct (Forall2_lookup_l _ _ _ _ _ Hall Hi) as ([k v] & Hkv & Hk & Hv).
    simpl in Hk, Hv. subst k. destruct Hv as (set_doc & -> & Hdoc).
    exists set_doc. split; [|done].
    apply dict_of_elem_of; [|by eapply list_elem_of_lookup_2].
    replace (per_set.*1) with (sets.*1); [done|].
    symmetry. apply Forall2_fmap_eq.
    eapply Forall2_impl; [exact Hall|]. by intros ? ? [? _].
Qed.

(** C9.  When [export_set] returns, it has written the document of the
    set at a path that is a function of the difficulty and the type of
    the set; it does not read the clock, and the only timestamp of the
    document is the [created_at] of the set.  Exporting the same set
    again, at any later time, returns the same path and leaves the files
    and directories as the first export left them. *)
Theorem export_set_idempotent (s : ExerciseSet) w p w1 :
  export_set output_dir s w = Done p w1 ->
  p = set_path output_dir (set_difficulty s) (exercise_type s) /\
  files w1 = <[p := JObj (set_to_dict s)]> (files w) /\
  clock w1 = clock w /\
  json_get (py "createdAt") (set_to_dict s) = JStr (created_at s) /\
  forall later,
    files later = files w1 -> dirs later = dirs w1 ->
    exists w2,
      export_set output_dir s later = Done p w2 /\
      files w2 = files w1 /\ dirs w2 = dirs w1.
Proof.
  intros (Hp & _ & _ & Hc & Hf & _ & Hd & He)%export_set_Done.
  split_and!; [done..|].
  intros later Hfl Hdl. eexists. split.
  - rewrite Hp. apply export_set_again.
    + intros d. by rewrite (is_dir_ext w1 later).
    + rewrite (lookup_entry_ext w1 later), <- Hp, He by done. done.
  - cbn [files dirs]. split; [|done].
    rewrite Hfl, Hf, <- Hp. apply insert_insert_eq.
Qed.

End ExporterClaims.

(** * The specification on concrete inputs *)

Section Instances.
Local Open Scope py_scope.
Local Open Scope nat_scope.

(** C2 as stated fails for matching.  Two exercises requested from a pool
    of four items use every item twice; and an empty pool still yields the
    two requested exercises, not fewer. *)
Lemma matching_set_recycles_pool :
  exists s w' s0 w0',
    @generate_exercise_set BasicLatin four_items MATCHING EASY 2 None quiet
      = Done s w' /\
    length (exercises s) = 2 /\
    used_ids (exercises s)
      = py <$> ["v2"; "v3"; "v4"; "v1"; "v2"; "v3"; "v4"; "v1"]%string /\
    ~ NoDup (used_ids (exercises s)) /\
    @generate_exercise_set BasicLatin [] MATCHING EASY 2 None quiet
      = Done s0 w0' /\
    _filter_by_difficulty [] EASY = [] /\
    length (exercises s0) = 2.
Proof.
  eexists _, _, _, _.
  split; [vm_compute; reflexivity|].
  split; [reflexivity|].
  split; [vm_compute; reflexivity|].
  split.
  { intros Hnd. vm_compute in Hnd.
    apply NoDup_cons in Hnd as [Hnotin _]. apply Hnotin.
    do 3 right. left. }
  split; [vm_compute; reflexivity|].
  split; reflexivity.
Qed.

Lemma exercise_count_capped_witness :
  (0 <= 2)%Z /\
  exists s w',
    @generate_exercise_set BasicLatin four_items HANGMAN EASY 2 None quiet
      = Done s w' /\
    let pool := _filter_by_difficulty four_items EASY in
    (HANGMAN = MATCHING -> length (exercises s) = Z.to_nat 2) /\
    (HANGMAN ≠ MATCHING ->
     length (exercises s) = Z.to_nat 2 `min` length pool /\
     used_ids (exercises s) ⊆+ item_id <$> pool).
Proof.
  split; [lia|].
  apply (@exercise_count_capped BasicLatin four_items HANGMAN EASY 2 None quiet).
  lia.
Defined.

(** C4 as stated fails: the ids of the exercises are not keys of the
    document; the document is keyed by set, and the word of the hangman
    is held by an object under the id of the exercise in the entry of
    its set. *)
Lemma answers_are_nested_by_set :
  exists doc w',
    export_answers [py "out"] [(py "easy_hangman", cat_set)] quiet
      = Done (answers_path [py "out"]) w' /\
    files w' !! answers_path [py "out"] = Some (JObj doc) /\
    id (base cat_hangman) = py "hang_1" /\
    dict_get (py "hang_1") doc = None /\
    doc = [ (py "easy_hangman",
             JObj [ (py "hang_1", JObj [ (py "answer", JStr (py "cat")) ]) ]) ].
Proof.
  eexists _, _.
  split; [vm_compute; reflexivity|].
  split; [vm_compute; reflexivity|].
  split; [reflexivity|].
  split; vm_compute; reflexivity.
Qed.

Lemma export_answers_document_witness :
  NoDup [py "easy_hangman"] /\
  exists p w',
    export_answers [py "out"] [(py "easy_hangman", cat_set)] quiet
      = Done p w' /\
    p = answers_path [py "out"] /\
    exists doc,
      files w' = <[answers_path [py "out"] := JObj doc]> (files quiet) /\
      forall key s, (key, s) ∈ [(py "easy_hangman", cat_set)] ->
        exists set_doc, dict_get key doc = Some (JObj set_doc) /\
          (NoDup (id ∘ base <$> exercises s) ->
           forall e, e ∈ exercises s -> type_of e = exercise_type s ->
             dict_get (id (base e)) set_doc = Some (answer_payload e)).
Proof.
  assert (NoDup [py "easy_hangman"]) as Hnd
    by (apply (bool_decide_unpack _); vm_compute; exact I).
  split; [exact Hnd|].
  eexists _, _. split; [vm_compute; reflexivity|].
  eapply (export_answers_document [py "out"]
            [(py "easy_hangman", cat_set)] quiet);
    [exact Hnd | vm_compute; reflexivity].
Defined.

Lemma export_set_idempotent_witness :
  exists p w1,
    export_set [py "out"] cat_set quiet = Done p w1 /\
    p = set_path [py "out"] (set_difficulty cat_set) (exercise_type cat_set) /\
    files w1 = <[p := JObj (set_to_dict cat_set)]> (files quiet) /\
    clock w1 = clock quiet /\
    json_get (py "createdAt") (set_to_dict cat_set)
    = JStr (created_at cat_set) /\
    forall later,
      files later = files w1 -> dirs later = dirs w1 ->
      exists w2,
        export_set [py "out"] cat_set later = Done p w2 /\
        files w2 = files w1 /\ dirs w2 = dirs w1.
Proof.
  eexists _, _. split; [vm_compute; reflexivity|].
  eapply (export_set_idempotent [py "out"] cat_set quiet).
  vm_compute; reflexivity.
Defined.

(** C6 as stated fails: "ab" has two arrangements, and with a random
    source that draws 1 eleven times the scrambled letters are in the
    original order. *)
Lemma scramble_can_keep_original_order :
  exists e w',
    @generate_spelling BasicLatin [ab] EASY 1 stubborn = Done [e] w' /\
    @str_lower BasicLatin (english_word e) = py "ab" /\
    [py "b"; py "a"] ≡ₚ chars (py "ab") /\
    [py "b"; py "a"] ≠ chars (py "ab") /\
    scrambled_letters e = chars (py "ab").
Proof.
  eexists _, _.
  split; [vm_compute; reflexivity|].
  split; [vm_compute; reflexivity|].
  split; [apply perm_swap|].
  split; [by vm_compute | vm_compute; reflexivity].
Qed.

Lemma scrambled_letters_permutation_witness :
  exists l w',
    @generate_spelling BasicLatin [ab] EASY 1 quiet = Done l w' /\
    forall i e, l !! i = Some e ->
      let original := @str_lower BasicLatin (english_word e) in
      scrambled_letters e ≡ₚ chars original /\
      exists w0 w1,
        @spelling_world BasicLatin [ab] EASY 1 i quiet = Some w0 /\
        @scramble BasicLatin (english_word e) w0
          = Done (scrambled_letters e) w1 /\
        (join [] (scrambled_letters e) = original <->
         forall k, k <= 10 ->
           attempt (chars original) k w0 = Some (chars original)).
Proof.
  eexists _, _. split; [vm_compute; reflexivity|].
  eapply (@scrambled_letters_permutation BasicLatin [ab] EASY 1 quiet).
  vm_compute; reflexivity.
Defined.

Lemma scrambled_differs_if_some_shuffle_does_witness :
  exists l w',
    @generate_spelling BasicLatin [ab] EASY 1 quiet = Done l w' /\
    forall i e, l !! i = Some e ->
      let original := @str_lower BasicLatin (english_word e) in
      exists w0 w1,
        @spelling_world BasicLatin [ab] EASY 1 i quiet = Some w0 /\
        @scramble BasicLatin (english_word e) w0
          = Done (scrambled_letters e) w1 /\
        ((exists k, k <= 10 /\
            attempt (chars original) k w0 ≠ Some (chars original)) ->
         join [] (scrambled_letters e) ≠ original) /\
        ((forall k, k <= 10 ->
            attempt (chars original) k w0 = Some (chars original)) ->
         scrambled_letters e = chars original).
Proof.
  eexists _, _. split; [vm_compute; reflexivity|].
  eapply (@scrambled_differs_if_some_shuffle_does BasicLatin [ab] EASY 1 quiet).
  vm_compute; reflexivity.
Defined.

Lemma shuffled_right_permutation_witness :
  exists l w',
    generate_matching four_items EASY 1 quiet = Done l w' /\
    forall e, e ∈ l -> shuffled_right e ≡ₚ right <$> pairs e.
Proof.
  eexists _, _. split; [vm_compute; reflexivity|].
  eapply (shuffled_right_permutation four_items EASY 1 quiet).
  vm_compute; reflexivity.
Defined.

Lemma vocabulary_ids_from_input_witness :
  exists s w',
    @generate_exercise_set BasicLatin four_items MATCHING EASY 1 None quiet
      = Done s w' /\
    forall e, e ∈ exercises s ->
    forall i, i ∈ vocabulary_ids (base e) -> i ∈ item_id <$> four_items.
Proof.
  eexists _, _. split; [vm_compute; reflexivity|].
  eapply (@vocabulary_ids_from_input BasicLatin four_items MATCHING EASY 1
           None quiet).
  vm_compute; reflexivity.
Defined.

Lemma matching_pairs_distinct_witness :
  NoDup (item_id <$> four_items) /\
  exists l w',
    generate_matching four_items EASY 1 quiet = Done l w' /\
    forall e, e ∈ l ->
      exists selected,
        selected ⊆+ four_items /\
        Forall2 pair_of selected (pairs e) /\
        vocabulary_ids (match_base e) = vocabulary_id <$> pairs e /\
        (NoDup four_items -> NoDup selected) /\
        (NoDup (item_id <$> four_items) -> NoDup (vocabulary_id <$> pairs e)).
Proof.
  split; [apply (bool_decide_unpack _); vm_compute; exact I|].
  eexists _, _. split; [vm_compute; reflexivity|].
  eapply (matching_pairs_distinct four_items EASY 1 quiet).
  vm_compute; reflexivity.
Defined.

End Instances.

(** * Further properties of the generator *)

Section GeneratorContents.
Context `{!TextLib}.
Variable vocabulary : list VocabularyItem.
Local Open Scope py_scope.
Local Open Scope nat_scope.

Lemma hangman_exercise_fields d item w e w' :
  hangman_exercise d item w = Done e w' ->
  word e = _get_english item /\
  hang_hint e = _get_german item /\
  category e = get_word_type item /\
  difficulty (hang_base e) = d /\
  max_attempts e = hangman_attempts (DIFFICULTY_CONFIG d) /\
  revealed_letters e =
    if reveal_first_letter (DIFFICULTY_CONFIG d)
       && (0 <? length (_get_english item))
    then [0%Z] else [].
Proof. by intros [= <- _]. Qed.

(** Every item that a generator works on passed the difficulty filter. *)
Lemma selected_eligible d (selected : list VocabularyItem) i x :
  selected ⊆+ _filter_by_difficulty vocabulary d ->
  selected !! i = Some x ->
  x ∈ vocabulary /\ _get_english x ≠ [] /\
  length (_get_english x) <= max_word_length (DIFFICULTY_CONFIG d).
Proof.
  intros Hsub Hx. apply elem_of_filter_by_difficulty.
  eapply elem_of_submseteq; [by eapply list_elem_of_lookup_2 | done].
Qed.

(** The hangman policy: the word is the non-empty source word of an item
    of the vocabulary, the hint is its translation at every difficulty,
    the attempts are 8, 6 and 5, and the first letter is revealed at
    Easy only. *)
Theorem hangman_exercise_policy d count w l w' :
  generate_hangman vocabulary d count w = Done l w' ->
  forall e, e ∈ l ->
    exists item, item ∈ vocabulary /\
      word e = _get_english item /\
      word e ≠ [] /\
      hang_hint e = _get_german item /\
      max_attempts e =
        match d with EASY => 8%Z | MEDIUM => 6%Z | HARD => 5%Z end /\
      revealed_letters e = match d with EASY => [0%Z] | _ => [] end.
Proof.
  intros (sel & Hsub & _ & Hall)%select_then_loop_inv e He.
  apply list_elem_of_lookup in He as [i Hi].
  destruct (Forall2_lookup_r _ _ _ _ _ Hall Hi) as (x & Hx & w0 & w1 & Hrun).
  apply hangman_exercise_fields in Hrun as (Hw & Hh & _ & _ & Hm & Hr).
  destruct (selected_eligible d sel i x Hsub Hx) as (Hvoc & Hne & _).
  exists x. split_and!; [done | done | by rewrite Hw | done | |].
  - rewrite Hm. by destruct d.
  - rewrite Hr. destruct (_get_english x); [done|]. by destruct d.
Qed.


Lemma fill_in_blank_exercise_fields d item w e w' :
  fill_in_blank_exercise d item w = Done e w' ->
  correct_answer e = _get_english item /\
  difficulty (fib_base e) = d /\
  word_type e = Some (get_word_type item) /\
  fib_hint e =
    (if show_hints (DIFFICULTY_CONFIG d) then Some (_get_german item)
     else None) /\
  (truthy_opt (_get_example_sentence item) = true ->
   sentence e =
     re_sub_ignorecase (_get_english item) blank
       (default [] (_get_example_sentence item)) /\
   blank_position e =
     default 0 (index_where (contains blank) (split (sentence e)))) /\
  (truthy_opt (_get_example_sentence item) = false ->
   sentence e =
     default (py "The word is ___.")
       (dict_get (get_word_type item) templates) /\
   blank_position e =
     default 0 (index_where (str_eqb blank) (split (sentence e)))).
Proof.
  unfold fill_in_blank_exercise.
  destruct (truthy_opt (_get_example_sentence item));
    intros [= <- _]; by split_and!.
Qed.

Lemma spelling_exercise_fields d item w e w' :
  spelling_exercise d item w = Done e w' ->
  english_word e = _get_english item /\
  german_word e = _get_german item /\
  difficulty (spell_base e) = d /\
  exists w1,
    spelling_hint (DIFFICULTY_CONFIG d) (_get_english item) w1
    = Done (spell_hint e) w1.
Proof.
  unfold spelling_exercise.
  intros (r & w1 & Hr & (h & w2 & Hh & (u & w3 & Hu & [<- _]%ret_Done)
    %bind_Done)%bind_Done)%bind_Done.
  simpl. split_and!; [done..|]. exists w1.
  unfold spelling_hint in *.
  destruct (show_hints _); [|by apply ret_Done in Hh as [<- _]].
  destruct (reveal_first_letter _); [|by apply ret_Done in Hh as [<- _]].
  destruct (_get_english item); [done|]. by apply ret_Done in Hh as [<- _].
Qed.

(** The two selections of [generate_fill_in_blank]: [s1] among the
    eligible items that have an example, then [extra] among those that
    have none. *)
Lemma generate_fill_in_blank_selection d count w l w' :
  generate_fill_in_blank vocabulary d count w = Done l w' ->
  let pool := _filter_by_difficulty vocabulary d in
  exists s1 extra,
    s1 ⊆+ with_examples pool /\ extra ⊆+ without_examples pool /\
    length s1 = Z.to_nat count `min` length (with_examples pool) /\
    length extra =
      (Z.to_nat count - length (with_examples pool))
        `min` length (without_examples pool) /\
    Forall2 (fun x e => exists w0 w1,
               fill_in_blank_exercise d x w0 = Done e w1) (s1 ++ extra) l.
Proof.
  intros Hgen pool. revert Hgen. unfold generate_fill_in_blank.
  fold pool. fold (with_examples pool). fold (without_examples pool).
  intros (s1 & w1 & Hs1 & (s2 & w2 & Hs2 & Hloop)%bind_Done)%bind_Done.
  apply select_random_inv in Hs1 as (Hc & Hsub1 & Hlen1).
  destruct (Z.ltb_spec (Z.of_nat (length s1)) count).
  - apply bind_Done in Hs2 as (extra & w3 & Hextra & [<- _]%ret_Done).
    apply select_random_inv in Hextra as (_ & Hsub2 & Hlen2).
    exists s1, extra. split_and!; [done | done | done | lia |].
    by eapply for_each_inv.
  - apply ret_Done in Hs2 as [<- _].
    exists s1, []. split_and!; [done | apply submseteq_nil_l | done | |].
    + simpl. lia.
    + rewrite app_nil_r. by eapply for_each_inv.
Qed.

(** Fill-in-the-blank exercises prefer items with an example sentence:
    the first [min count (number of eligible items with an example)]
    exercises blank the word in the example of their item; a template
    sentence is used only after every eligible item with an example has
    been used.  The hint is the translation at Easy and Medium and is
    absent at Hard. *)
Theorem fill_in_blank_prefers_examples d count w l w' :
  generate_fill_in_blank vocabulary d count w = Done l w' ->
  let pool := _filter_by_difficulty vocabulary d in
  forall i e, l !! i = Some e ->
    exists item, item ∈ pool /\
      correct_answer e = _get_english item /\
      fib_hint e =
        match d with HARD => None | _ => Some (_get_german item) end /\
      if decide (i < Z.to_nat count `min` length (with_examples pool)) then
        exists example,
          _get_example_sentence item = Some example /\ example ≠ [] /\
          sentence e = re_sub_ignorecase (_get_english item) blank example
      else
        length (with_examples pool) <= i /\
        truthy_opt (_get_example_sentence item) = false /\
        sentence e =
          default (py "The word is ___.")
            (dict_get (get_word_type item) templates).
Proof.
  intros (s1 & extra & Hsub1 & Hsub2 & Hlen1 & Hlen2 & Hall)
    %generate_fill_in_blank_selection pool i e Hi.
  subst pool. cbv zeta in *.
  destruct (Forall2_lookup_r _ _ _ _ _ Hall Hi) as (x & Hx & w0 & w1 & Hrun).
  apply fill_in_blank_exercise_fields in Hrun
    as (Hans & _ & _ & Hhint & Hex & Htpl).
  set (pool := _filter_by_difficulty vocabulary d) in *.
  exists x. apply lookup_app_Some in Hx as [Hx|[Hge Hx]].
  - assert (x ∈ with_examples pool) as Hin
      by (eapply elem_of_submseteq; [by eapply list_elem_of_lookup_2|done]).
    unfold with_examples in Hin.
    apply list_elem_of_filter in Hin as [Htr Hpool].
    apply lookup_lt_Some in Hx.
    split_and!; [done | done | by rewrite Hhint; destruct d |].
    rewrite decide_True by lia.
    destruct (Hex Htr) as [Hs _].
    destruct (_get_example_sentence x) as [example|]; [|done].
    exists example. split_and!; [done | by apply truthy_true | done].
  - assert (x ∈ without_examples pool) as Hin
      by (eapply elem_of_submseteq; [by eapply list_elem_of_lookup_2|done]).
    unfold without_examples in Hin.
    apply list_elem_of_filter in Hin as [Htr Hpool].
    apply not_true_is_false in Htr.
    apply lookup_lt_Some in Hx.
    split_and!; [done | done | by rewrite Hhint; destruct d |].
    rewrite decide_False by lia.
    destruct (Htpl Htr) as [Hs _]. split_and!; [lia | done | done].
Qed.

End GeneratorContents.

Section GeneratorShapes.
Context `{!TextLib}.
Variable vocabulary : list VocabularyItem.
Local Open Scope py_scope.
Local Open Scope nat_scope.

(** The hint of a spelling exercise: at Easy the upper-cased first letter
    and the number of letters of the source word, at Medium the number of
    letters only, at Hard nothing. *)
Theorem spelling_hint_policy d count w l w' :
  generate_spelling vocabulary d count w = Done l w' ->
  forall e, e ∈ l ->
    exists c rest, english_word e = c :: rest /\
      spell_hint e =
        match d with
        | EASY =>
          Some (py "Starts with '" ++ str_upper [c] ++ py "', " ++
                str_of_nat (length (english_word e)) ++ py " letters")
        | MEDIUM =>
          Some (str_of_nat (length (english_word e)) ++ py " letters")
        | HARD => None
        end.
Proof.
  intros (sel & Hsub & _ & Hall)%generate_spelling_inv e He.
  apply list_elem_of_lookup in He as [i Hi].
  destruct (Forall2_lookup_r _ _ _ _ _ Hall Hi) as (x & Hx & w0 & w1 & Hrun).
  apply spelling_exercise_fields in Hrun as (Hw & _ & _ & w2 & Hh).
  destruct (selected_eligible vocabulary d sel i x Hsub Hx) as (_ & Hne & _).
  rewrite Hw. destruct (_get_english x) as [|c rest]; [done|].
  exists c, rest. split; [done|].
  destruct d; unfold spelling_hint in Hh; simpl in Hh;
    by apply ret_Done in Hh as [<- _].
Qed.

Lemma matching_loop_count d pool n remaining w l w' :
  length remaining <= length pool ->
  matching_loop d pool n remaining w = Done l w' ->
  Forall (fun e =>
            difficulty (match_base e) = d /\
            length (pairs e)
            = matching_pairs (DIFFICULTY_CONFIG d) `min` length pool /\
            length (shuffled_right e) = length (pairs e)) l.
Proof.
  revert remaining w l w'.
  induction n as [|n IH]; intros remaining w l w' Hrem; simpl.
  - intros [<- _]%ret_Done. constructor.
  - intros (rem1 & w1 & Hrem1 & (ps & w2 & Hps & (sh & w3 & Hsh &
      (u & w4 & _ & (rest & w5 & Hrest & [<- _]%ret_Done)%bind_Done)
      %bind_Done)%bind_Done)%bind_Done)%bind_Done.
    set (k := matching_pairs (DIFFICULTY_CONFIG d)) in *.
    assert (length rem1 <= length pool /\ k `min` length pool <= length rem1)
      as [Hle Hge].
    { destruct (Nat.ltb_spec (length remaining) k).
      - apply shuffle_Permutation, Permutation_length in Hrem1. lia.
      - apply ret_Done in Hrem1 as [<- _]. lia. }
    apply IH in Hrest; [|rewrite length_drop; lia].
    constructor; [|done]. simpl. split_and!; [done | |].
    + apply for_each_inv, Forall2_length in Hps.
      rewrite <- Hps, length_take. lia.
    + apply shuffle_Permutation, Permutation_length in Hsh.
      by rewrite Hsh, length_fmap.
Qed.

(** Every matching exercise has as many pairs as the tier asks for (4, 6
    and 8), or as the eligible pool has items when it has fewer; the
    shuffled right column has one value per pair. *)
Theorem matching_exercise_size d count w l w' :
  generate_matching vocabulary d count w = Done l w' ->
  forall e, e ∈ l ->
    length (pairs e)
    = match d with EASY => 4 | MEDIUM => 6 | HARD => 8 end
      `min` length (_filter_by_difficulty vocabulary d) /\
    length (shuffled_right e) = length (pairs e).
Proof.
  intros (rem & w1 & Hrem & Hloop)%bind_Done e He.
  apply matching_loop_count in Hloop.
  - rewrite Forall_forall in Hloop.
    destruct (Hloop e He) as (_ & Hn & Hs). split; [|done].
    rewrite Hn. by destruct d.
  - apply shuffle_Permutation, Permutation_length in Hrem. lia.
Qed.

(** What every exercise delivered by [generators] looks like. *)
Lemma generators_shape kind d count w l w' :
  generators vocabulary kind d count w = Done l w' ->
  Forall (fun e =>
            type_of e = kind /\ difficulty (base e) = d /\
            forall a, a ∈ answer_words e ->
              exists item, item ∈ vocabulary /\ a = _get_english item /\
                a ≠ [] /\
                length a <= max_word_length (DIFFICULTY_CONFIG d)) l.
Proof.
  intros Hgen. destruct kind; simpl in Hgen;
    apply bind_Done in Hgen as (l0 & w1 & Hl0 & [<- _]%ret_Done);
    apply Forall_fmap, Forall_forall; intros e He; simpl.
  - apply generate_fill_in_blank_selection in Hl0
      as (s1 & extra & Hs1 & Hs2 & _ & _ & Hall).
    apply list_elem_of_lookup in He as [i Hi].
    destruct (Forall2_lookup_r _ _ _ _ _ Hall Hi) as (x & Hx & w0 & w2 & Hrun).
    apply fill_in_blank_exercise_fields in Hrun as (Hans & Hd & _).
    assert (x ∈ _filter_by_difficulty vocabulary d) as Hin.
    { apply list_elem_of_lookup_2, elem_of_app in Hx as [Hx|Hx].
      - apply (elem_of_submseteq _ _ _ Hx) in Hs1.
        by apply list_elem_of_filter in Hs1 as [_ ?].
      - apply (elem_of_submseteq _ _ _ Hx) in Hs2.
        by apply list_elem_of_filter in Hs2 as [_ ?]. }
    apply elem_of_filter_by_difficulty in Hin as (Hvoc & Hne & Hlen).
    split_and!; [done | done |].
    intros a ->%list_elem_of_singleton. exists x. by rewrite Hans.
  - apply bind_Done in Hl0 as (rem & w2 & Hrem & Hloop).
    pose proof Hloop as Hcount. apply matching_loop_count in Hcount;
      [|apply shuffle_Permutation, Permutation_length in Hrem; lia].
    apply matching_loop_inv in Hloop as [_ Hok];
      [|apply shuffle_Permutation in Hrem; by rewrite Hrem].
    rewrite Forall_forall in Hcount, Hok.
    destruct (Hcount e He) as (Hd & _).
    destruct (Hok e He) as ((sel & Hsub & Hpairs) & _).
    split_and!; [done | done |].
    intros a (p & -> & Hp)%list_elem_of_fmap.
    apply list_elem_of_lookup in Hp as [i Hi].
    destruct (Forall2_lookup_r _ _ _ _ _ Hpairs Hi) as (x & Hx & _ & Hleft & _).
    destruct (selected_eligible vocabulary d sel i x Hsub Hx)
      as (Hvoc & Hne & Hlen).
    exists x. by rewrite Hleft.
  - apply generate_spelling_inv in Hl0 as (sel & Hsub & _ & Hall).
    apply list_elem_of_lookup in He as [i Hi].
    destruct (Forall2_lookup_r _ _ _ _ _ Hall Hi) as (x & Hx & w0 & w2 & Hrun).
    apply spelling_exercise_fields in Hrun as (Hw & _ & Hd & _).
    destruct (selected_eligible vocabulary d sel i x Hsub Hx)
      as (Hvoc & Hne & Hlen).
    split_and!; [done | done |].
    intros a ->%list_elem_of_singleton. exists x. by rewrite Hw.
  - apply select_then_loop_inv in Hl0 as (sel & Hsub & _ & Hall).
    apply list_elem_of_lookup in He as [i Hi].
    destruct (Forall2_lookup_r _ _ _ _ _ Hall Hi) as (x & Hx & w0 & w2 & Hrun).
    apply hangman_exercise_fields in Hrun as (Hw & _ & _ & Hd & _).
    destruct (selected_eligible vocabulary d sel i x Hsub Hx)
      as (Hvoc & Hne & Hlen).
    split_and!; [done | done |].
    intros a ->%list_elem_of_singleton. exists x. by rewrite Hw.
Qed.

(** In every exercise of a generated set, at every difficulty and for
    every kind, each word to find is the source word of an item of the
    vocabulary, is not empty and has at most 6 (Easy), 10 (Medium) or 100
    (Hard) characters. *)
Theorem answer_words_within_tier kind d count name w s w' :
  generate_exercise_set vocabulary kind d count name w = Done s w' ->
  forall e, e ∈ exercises s ->
  forall a, a ∈ answer_words e ->
    (exists item, item ∈ vocabulary /\ a = _get_english item) /\
    a ≠ [] /\
    length a <= match d with EASY => 6 | MEDIUM => 10 | HARD => 100 end.
Proof.
  intros (_ & _ & w1 & Hgen)%generate_exercise_set_inv e He a Ha.
  apply generators_shape in Hgen. rewrite Forall_forall in Hgen.
  destruct (Hgen e He) as (_ & _ & Hwords).
  destruct (Hwords a Ha) as (x & Hx & Heq & Hne & Hlen).
  split_and!; [by exists x | done | by destruct d].
Qed.

(** A generated set has the requested type and difficulty, and so has
    every exercise in it; its name is the one given, or the title made of
    the type and the difficulty when none (or an empty one) is given. *)
Theorem exercise_set_is_uniform kind d count name w s w' :
  generate_exercise_set vocabulary kind d count name w = Done s w' ->
  exercise_type s = kind /\ set_difficulty s = d /\
  (forall e, e ∈ exercises s -> type_of e = kind /\ difficulty (base e) = d) /\
  Models.name s =
    match name with
    | Some (c :: n) => c :: n
    | _ => default_name kind d
    end.
Proof.
  intros Hs. pose proof Hs as (Hk & Hd & w1 & Hgen)%generate_exercise_set_inv.
  apply generators_shape in Hgen. rewrite Forall_forall in Hgen.
  split_and!; [done | done | |].
  - intros e He. by destruct (Hgen e He) as (? & ? & _).
  - unfold generate_exercise_set in Hs.
    apply bind_Done in Hs as (l & w2 & _ & (u & w3 & _ &
      (t & w4 & _ & [<- _]%ret_Done)%bind_Done)%bind_Done).
    simpl. by destruct name as [[|c n]|].
Qed.

End GeneratorShapes.

(** ** The sentence of a fill-in-the-blank exercise *)

Section SentenceFacts.
Context `{!TextLib}.
Local Open Scope py_scope.
Local Open Scope nat_scope.

Lemma starts_with_spec (needle hay : str) :
  starts_with needle hay = true <-> exists post, hay = needle ++ post.
Proof.
  revert hay. induction needle as [|a n IH]; intros hay; simpl.
  - split; [by exists hay | done].
  - destruct hay as [|b h].
    + split; [done | by intros [? ?]].
    + rewrite andb_true_iff, N.eqb_eq, IH. split.
      * intros [-> [post ->]]. by exists post.
      * intros [post [= -> ->]]. eauto.
Qed.

Lemma contains_spec (needle hay : str) :
  contains needle hay = true <-> exists pre post, hay = pre ++ needle ++ post.
Proof.
  induction hay as [|b h IH]; simpl.
  - rewrite orb_false_r, starts_with_spec. split.
    + intros [post Hp]. by exists [], post.
    + intros (pre & post & Hp). symmetry in Hp.
      apply app_eq_nil in Hp as [-> Hp]. eauto.
  - rewrite orb_true_iff, starts_with_spec, IH. split.
    + intros [[post Hp]|(pre & post & ->)].
      * by exists [], post.
      * by exists (b :: pre), post.
    + intros ([|c pre] & post & Hp).
      * left. by exists post.
      * injection Hp as -> ->. right. eauto.
Qed.

(** A token of [s.split()] is a piece of [s]. *)
Lemma split_ws_piece cur s tok :
  tok ∈ split_ws cur s -> exists pre post, cur ++ s = pre ++ tok ++ post.
Proof.
  revert cur. induction s as [|c s IH]; intros cur; simpl.
  - destruct cur; [by intros ?%elem_of_nil|].
    intros ->%list_elem_of_singleton. exists [], []. by rewrite !app_nil_r.
  - destruct (isspace c).
    + destruct cur as [|a cur].
      * intros (pre & post & Hp)%IH. exists (c :: pre), post.
        simpl in *. by rewrite Hp.
      * intros [->|(pre & post & Hp)%IH]%elem_of_cons.
        -- by exists [], (c :: s).
        -- exists ((a :: cur) ++ c :: pre), post.
           simpl in Hp. rewrite Hp. by rewrite <- !app_assoc.
    + intros (pre & post & Hp)%IH. exists pre, post.
      rewrite <- Hp. by rewrite <- app_assoc.
Qed.

Lemma split_token_contains needle s tok :
  tok ∈ split s -> contains needle tok = true -> contains needle s = true.
Proof.
  intros (pre & post & Hs)%split_ws_piece
    (pre' & post' & ->)%contains_spec.
  apply contains_spec. exists (pre ++ pre'), (post' ++ post).
  simpl in Hs. rewrite Hs. by rewrite <- !app_assoc.
Qed.

Lemma split_ws_no_space cur needle s :
  Forall (fun c => isspace c = false) needle ->
  split_ws cur (needle ++ s) = split_ws (cur ++ needle) s.
Proof.
  intros Hn. revert cur. induction Hn as [|c n Hc _ IH]; intros cur; simpl.
  - by rewrite app_nil_r.
  - rewrite Hc, IH. by rewrite <- app_assoc.
Qed.

Lemma split_ws_first cur s :
  cur ≠ [] -> exists more rest, split_ws cur s = (cur ++ more) :: rest.
Proof.
  revert cur. induction s as [|c s IH]; intros cur Hcur; simpl.
  - destruct cur; [done|]. exists [], []. by rewrite app_nil_r.
  - destruct (isspace c).
    + destruct cur; [done|]. exists [], (split_ws [] s). by rewrite app_nil_r.
    + destruct (IH (cur ++ [c])) as (more & rest & ->);
        [by destruct cur|].
      exists (c :: more), rest. by rewrite <- app_assoc.
Qed.

(** A piece without white space lies inside one token. *)
Lemma split_ws_covers cur pre needle post :
  needle ≠ [] -> Forall (fun c => isspace c = false) needle ->
  exists tok, tok ∈ split_ws cur (pre ++ needle ++ post) /\
    contains needle tok = true.
Proof.
  intros Hne Hn. revert cur. induction pre as [|c pre IH]; intros cur; simpl.
  - rewrite split_ws_no_space by done.
    destruct (split_ws_first (cur ++ needle) post) as (more & rest & ->).
    { destruct needle; [done|]. by destruct cur. }
    eexists. split; [by left|]. apply contains_spec.
    exists cur, more. by rewrite <- !app_assoc.
  - destruct (isspace c).
    + destruct (IH []) as (tok & Htok & Hc). exists tok.
      split; [|done]. destruct cur; [done | by right].
    + apply IH.
Qed.

Lemma index_where_Some test words i :
  index_where test words = Some i ->
  (exists w, words !! i = Some w /\ test w = true) /\
  forall j w, j < i -> words !! j = Some w -> test w = false.
Proof.
  revert i. induction words as [|w0 words IH]; intros i; simpl; [done|].
  destruct (test w0) eqn:Ht.
  - intros [= <-]. split; [by exists w0 | lia].
  - destruct (index_where test words) as [i'|]; [|done].
    intros [= <-]. destruct (IH i' eq_refl) as [(w & Hw & Htw) Hlt].
    split; [by exists w|].
    intros [|j] w' Hj Hw'; simpl in Hw'; [by simplify_eq|].
    eapply Hlt; [|done]. lia.
Qed.

Lemma index_where_None test words :
  index_where test words = None <-> Forall (fun w => test w = false) words.
Proof.
  induction words as [|w0 words IH]; simpl; [done|].
  destruct (test w0) eqn:Ht.
  - split; [done | by intros [? _]%Forall_cons; congruence].
  - destruct (index_where test words).
    + split; [done|]. intros [_ Hf%IH]%Forall_cons. done.
    + split; [|done]. intros _. constructor; [done | by apply IH].
Qed.

Lemma sub_literal_keeps_text p repl s :
  (forall i, ci_prefix p (drop i s) = false) -> sub_literal p repl 0 s = s.
Proof.
  induction s as [|c s IH]; intros Hno; cbn [sub_literal]; [done|].
  pose proof (Hno 0) as H0. rewrite drop_0 in H0. rewrite H0.
  f_equal. apply IH. intros i. apply (Hno (S i)).
Qed.

Lemma sub_literal_puts_repl p repl s :
  p ≠ [] -> (exists i, ci_prefix p (drop i s) = true) ->
  exists pre post, sub_literal p repl 0 s = pre ++ repl ++ post.
Proof.
  intros Hp. induction s as [|c s IH]; intros [i Hi]; cbn [sub_literal].
  - rewrite drop_nil in Hi. by destruct p.
  - destruct (ci_prefix p (c :: s)) eqn:H0.
    + by exists [], (sub_literal p repl (length p - 1) s).
    + destruct i as [|i]; [rewrite drop_0 in Hi; congruence|].
      rewrite skipn_cons in Hi.
      destruct IH as (pre & post & ->); [by exists i|].
      by exists (c :: pre), post.
Qed.

(** When the example sentence of an item does not contain its source
    word (compared without case), the sentence of the exercise is the
    example itself: no blank is put in, and the position of the blank is 0
    unless the example has a token with the marker of its own. *)
Theorem fill_in_blank_without_occurrence d item w e w' example :
  fill_in_blank_exercise d item w = Done e w' ->
  _get_example_sentence item = Some example -> example ≠ [] ->
  (forall i, ci_prefix (_get_english item) (drop i example) = false) ->
  sentence e = example /\
  (contains blank example = false -> blank_position e = 0).
Proof.
  intros (_ & _ & _ & _ & Hex & _)%fill_in_blank_exercise_fields Hsome Hne Hno.
  rewrite Hsome in Hex. destruct Hex as [Hs Hp]; [by apply truthy_true|].
  simpl in Hs.
  assert (sentence e = example) as Hse.
  { rewrite Hs. unfold re_sub_ignorecase.
    destruct (_get_english item) eqn:He; [by specialize (Hno 0)|].
    by apply sub_literal_keeps_text. }
  split; [done|]. intros Hnb. rewrite Hp, Hse.
  replace (index_where (contains blank) (split example)) with (@None nat);
    [done|].
  symmetry. apply index_where_None, Forall_forall. intros tok Htok.
  destruct (contains blank tok) eqn:Hc; [|done].
  by rewrite (split_token_contains blank example tok) in Hnb.
Qed.

(** When the example sentence contains the source word, the sentence of
    the exercise contains the marker and the position of the blank is the
    index of the first token of the sentence that contains it. *)
Theorem fill_in_blank_blank_position d item w e w' example :
  fill_in_blank_exercise d item w = Done e w' ->
  _get_example_sentence item = Some example -> example ≠ [] ->
  _get_english item ≠ [] ->
  (exists i, ci_prefix (_get_english item) (drop i example) = true) ->
  contains blank (sentence e) = true /\
  (exists tok, split (sentence e) !! blank_position e = Some tok /\
     contains blank tok = true) /\
  forall j tok, j < blank_position e ->
    split (sentence e) !! j = Some tok -> contains blank tok = false.
Proof.
  intros (_ & _ & _ & _ & Hex & _)%fill_in_blank_exercise_fields
    Hsome Hne Heng Hocc.
  rewrite Hsome in Hex. destruct Hex as [Hs Hp]; [by apply truthy_true|].
  simpl in Hs.
  assert (exists pre post, sentence e = pre ++ blank ++ post)
    as (pre & post & Hse).
  { rewrite Hs. unfold re_sub_ignorecase.
    destruct (_get_english item) eqn:He; [done|].
    by apply sub_literal_puts_repl. }
  destruct (split_ws_covers [] pre blank post) as (tok & Htok & Hc);
    [done | by repeat constructor |].
  rewrite <- Hse in Htok. fold (split (sentence e)) in Htok.
  destruct (index_where (contains blank) (split (sentence e))) as [i|] eqn:Hi.
  - apply index_where_Some in Hi as [Hfound Hfirst].
    rewrite Hp. simpl. split_and!; [|done|done].
    apply contains_spec. eauto.
  - apply index_where_None in Hi. rewrite Forall_forall in Hi.
    rewrite (Hi tok Htok) in Hc. done.
Qed.

(** For an item without example the sentence is a template chosen by the
    word type.  For a noun or a verb the position of the blank is 1, the
    token that is the marker.  For every other word type the marker ends
    the sentence, joined to the full stop in the token of index 3, and the
    position of the blank is 0, a token without the marker. *)
Theorem fill_in_blank_template_position d item w e w' :
  fill_in_blank_exercise d item w = Done e w' ->
  truthy_opt (_get_example_sentence item) = false ->
  let word_type := get_word_type item in
  (word_type = py "noun" \/ word_type = py "verb" ->
   blank_position e = 1 /\ split (sentence e) !! 1 = Some blank) /\
  (word_type ≠ py "noun" -> word_type ≠ py "verb" ->
   blank_position e = 0 /\
   exists first last,
     split (sentence e) !! 0 = Some first /\ contains blank first = false /\
     split (sentence e) !! 3 = Some last /\ contains blank last = true).
Proof.
  intros (_ & _ & _ & _ & _ & Htpl)%fill_in_blank_exercise_fields Hno wt.
  subst wt. destruct (Htpl Hno) as [Hs Hp]. rewrite Hp, Hs. clear.
  generalize (get_word_type item). intros wt.
  unfold templates, dict_get, str_eqb.
  split.
  - intros [->| ->]; vm_compute; by split.
  - intros Hn Hv.
    rewrite !(bool_decide_eq_false_2 (_ = wt)) by done.
    repeat case_bool_decide;
      (split; [by vm_compute|]; eexists _, _; by vm_compute).
Qed.

End SentenceFacts.

(** ** Translations, all sets, negative counts, the lookup indices *)

Section MoreGeneratorFacts.
Context `{!TextLib}.
Variable vocabulary : list VocabularyItem.
Local Open Scope py_scope.
Local Open Scope nat_scope.

Lemma contains_char (c : N) (s : list N) : contains [c] s = true <-> c ∈ s.
Proof.
  rewrite contains_spec. split.
  - intros (pre & post & ->). set_solver.
  - intros (pre & post & ->)%list_elem_of_split. by exists pre, post.
Qed.

Lemma before_app (sep : char) (a b : str) :
  sep ∉ a -> before sep (a ++ sep :: b) = a.
Proof.
  induction a as [|c a IH]; simpl; intros Ha.
  - by rewrite N.eqb_refl.
  - apply not_elem_of_cons in Ha as [Hc Ha].
    rewrite (proj2 (N.eqb_neq c sep)) by done. by rewrite IH.
Qed.

Lemma elem_of_lstrip (c : char) (s : str) : c ∈ lstrip s -> c ∈ s.
Proof.
  induction s as [|b s IH]; simpl; [done|].
  destruct (isspace b); [|done]. intros ?%IH. by right.
Qed.

Lemma elem_of_strip (c : char) (s : str) : c ∈ strip s -> c ∈ s.
Proof.
  unfold strip. rewrite elem_of_reverse.
  intros ?%elem_of_lstrip%elem_of_reverse%elem_of_lstrip. done.
Qed.

(** Only the first translation is used: a target text without [;] is
    taken as it is (white space included), a text with [;] gives the part
    before the first [;] with the white space at its ends removed, and
    the translation never contains a [;]. *)
Theorem get_german_first_translation item :
  let text := default [] (targetForm_text item) in
  (59%N ∉ text -> _get_german item = text) /\
  (forall a b, text = a ++ 59%N :: b -> 59%N ∉ a ->
     _get_german item = strip a) /\
  59%N ∉ _get_german item.
Proof.
  intros text. unfold _get_german. fold text.
  change (py ";") with [59%N].
  assert (forall a b, text = a ++ 59%N :: b -> 59%N ∉ a ->
            (if contains [59%N] text then strip (before 59%N text) else text)
            = strip a) as Hfirst.
  { intros a b Ht Ha.
    rewrite (proj2 (contains_char 59%N text)) by (rewrite Ht; set_solver).
    by rewrite Ht, before_app. }
  split_and!; [|done|].
  - intros Hno. destruct (contains [59%N] text) eqn:Hc; [|done].
    by apply contains_char in Hc.
  - destruct (decide (59%N ∈ text)) as [Hin|Hno].
    + apply list_elem_of_split_l in Hin as (a & b & Ht & Ha).
      rewrite (Hfirst a b Ht Ha). by intros ?%elem_of_strip.
    + destruct (contains [59%N] text) eqn:Hc; [|done].
      by apply contains_char in Hc.
Qed.

(** The keys of [generate_all_sets], in the order of the two loops. *)
Lemma dict_set_fresh {V} (k : str) (v : V) (d : list (str * V)) :
  k ∉ d.*1 -> dict_set k v d = d ++ [(k, v)].
Proof.
  induction d as [|[k' v'] d IH]; simpl; [done|].
  intros [Hne Hk]%not_elem_of_cons. unfold str_eqb.
  rewrite bool_decide_eq_false_2 by done. by rewrite IH.
Qed.

Lemma dict_update_fresh {V} (d kvs : list (str * V)) :
  NoDup (d.*1 ++ kvs.*1) -> dict_update d kvs = d ++ kvs.
Proof.
  unfold dict_update. revert d.
  induction kvs as [|[k v] kvs IH]; intros d Hnd; simpl.
  - by rewrite app_nil_r.
  - rewrite dict_set_fresh.
    + rewrite IH; [by rewrite <- app_assoc|].
      rewrite fmap_app. simpl. by rewrite <- app_assoc.
    + simpl in Hnd. apply NoDup_app in Hnd as (_ & Hd & _).
      intros Hk. apply (Hd k Hk). by left.
Qed.

Lemma dict_of_NoDup {V} (kvs : list (str * V)) :
  NoDup kvs.*1 -> dict_of kvs = kvs.
Proof. intros Hnd. unfold dict_of. by rewrite dict_update_fresh. Qed.


(** For a count that is not negative, [generate_all_sets] returns the 12
    sets of the 3 difficulties and 4 types, in the order of the two
    loops, each under its own key ["{difficulty}_{type}"] and holding
    exercises of its type only. *)
Theorem generate_all_sets_complete count w :
  (0 <= count)%Z ->
  exists sets w',
    generate_all_sets vocabulary count w = Done sets w' /\
    sets.*1 = all_set_keys /\ length sets = 12 /\
    forall key s, (key, s) ∈ sets ->
      key = set_key (set_difficulty s) (exercise_type s) /\
      forall e, e ∈ exercises s ->
        type_of e = exercise_type s /\ difficulty (base e) = set_difficulty s.
Proof.
  intros Hc. unfold generate_all_sets.
  set (body := fun '(d, t) =>
    s <- generate_exercise_set vocabulary t d count None ;;
    ret (difficulty_value d ++ py "_" ++ exercise_type_value t, s)).
  set (combos := all_difficulties ≫= _).
  destruct (for_each_returns body combos w) as (done & w1 & Hdone).
  { apply Forall_forall. intros [d t] _ w0.
    destruct (generate_exercise_set_returns vocabulary t d count None w0 Hc)
      as (s & w2 & Hs).
    eexists _, _. unfold body, bind. by rewrite Hs. }
  assert (Forall2 (fun dt kv =>
            kv.1 = set_key dt.1 dt.2 /\
            exercise_type kv.2 = dt.2 /\ set_difficulty kv.2 = dt.1 /\
            forall e, e ∈ exercises kv.2 ->
              type_of e = dt.2 /\ difficulty (base e) = dt.1) combos done)
    as Hall.
  { eapply for_each_Forall2; [|exact Hdone].
    intros [d t] w0 [k s] w2 (s' & w3 & Hs & [[= <- <-] _]%ret_Done)%bind_Done.
    pose proof Hs as (Hk & Hd & w4 & Hgen)%generate_exercise_set_inv.
    apply generators_shape in Hgen. rewrite Forall_forall in Hgen.
    simpl. split_and!; [done..|].
    intros e He. by destruct (Hgen e He) as (? & ? & _). }
  assert (done.*1 = all_set_keys) as Hkeys.
  { transitivity ((fun dt => set_key dt.1 dt.2) <$> combos); [|done].
    apply Forall2_fmap_eq. eapply Forall2_impl; [exact Hall|].
    by intros ? ? [? _]. }
  assert (NoDup done.*1) as Hnd
    by (rewrite Hkeys; apply (bool_decide_unpack _); by vm_compute).
  exists done, w1. split_and!.
  - unfold bind. rewrite Hdone. unfold ret. f_equal.
    by apply dict_of_NoDup.
  - done.
  - apply (f_equal length) in Hkeys. by rewrite length_fmap in Hkeys.
  - intros key s Hin. apply list_elem_of_lookup in Hin as [i Hi].
    destruct (Forall2_lookup_r _ _ _ _ _ Hall Hi)
      as ([d t] & _ & Hk & Ht & Hd & Hex).
    simpl in *. subst. done.
Qed.

Lemma for_each_raises_first {A B} (f : A -> M B) x l w e :
  f x w = Raised e -> for_each f (x :: l) w = Raised e.
Proof. intros Hx. simpl. unfold bind. by rewrite Hx. Qed.

Lemma select_random_negative {A} (items : list A) count w :
  (count < 0)%Z ->
  _select_random items count w
  = Raised (ValueError (py "Sample larger than population or is negative")).
Proof.
  intros Hc. unfold _select_random, sample.
  rewrite (proj2 (Z.leb_gt (Z.of_nat (length items)) count)) by lia.
  by rewrite (proj2 (Z.leb_gt 0 count)) by lia.
Qed.

(** A negative count: [generate_matching] returns no exercise, while the
    three generators that sample the pool, and with them
    [generate_all_sets], raise [ValueError]. *)
Theorem negative_count_behaviour d count w :
  (count < 0)%Z ->
  let error :=
    ValueError (py "Sample larger than population or is negative") in
  (exists w', generate_matching vocabulary d count w = Done [] w') /\
  generate_fill_in_blank vocabulary d count w = Raised error /\
  generate_spelling vocabulary d count w = Raised error /\
  generate_hangman vocabulary d count w = Raised error /\
  generate_all_sets vocabulary count w = Raised error.
Proof.
  intros Hc error. split_and!.
  - unfold generate_matching.
    destruct (shuffle_Done (_filter_by_difficulty vocabulary d) w)
      as (rem & w1 & Hrem & _).
    exists w1. unfold bind. rewrite Hrem.
    by replace (Z.to_nat count) with 0 by lia.
  - unfold generate_fill_in_blank, bind. by rewrite select_random_negative.
  - unfold generate_spelling, bind. by rewrite select_random_negative.
  - unfold generate_hangman, bind. by rewrite select_random_negative.
  - assert (generate_fill_in_blank vocabulary EASY count w = Raised error)
      as Hfib.
    { unfold generate_fill_in_blank, bind. by rewrite select_random_negative. }
    unfold generate_all_sets.
    set (combos := all_difficulties ≫= _).
    assert (combos = (EASY, FILL_IN_BLANK) :: tail combos) as ->
      by reflexivity.
    unfold bind at 1. rewrite (for_each_raises_first _ _ _ _ error); [done|].
    cbn beta iota. unfold bind at 1, generate_exercise_set, bind at 1.
    cbn [generators]. unfold bind at 1. by rewrite Hfib.
Qed.

(** The two lookup indices group the vocabulary: the entry of a word
    type, or of a length, is the list of the items with that word type
    (["unknown"] when absent), or whose source word has that length, in
    the order of the vocabulary; a key without item has no entry. *)
Lemma index_add_fold `{Countable K} (f : VocabularyItem -> K)
    (l : list VocabularyItem) (m : gmap K (list VocabularyItem)) (k : K) :
  foldl (fun m x => index_add (f x) x m) m l !! k =
  match filter (fun x => f x = k) l with
  | [] => m !! k
  | new => Some (default [] (m !! k) ++ new)
  end.
Proof.
  revert m. induction l as [|x l IH]; intros m; simpl; [done|].
  rewrite IH, filter_cons. unfold index_add.
  destruct (decide (f x = k)) as [->|Hne].
  - rewrite lookup_insert_eq. simpl.
    destruct (filter _ l); by rewrite <- ?app_assoc.
  - by rewrite lookup_insert_ne.
Qed.

Lemma build_indices_split (l : list VocabularyItem) bw bl :
  foldl (fun '(by_word_type, by_length) item =>
           (index_add (get_word_type item) item by_word_type,
            index_add (length (_get_english item)) item by_length))
        (bw, bl) l
  = (foldl (fun m x => index_add (get_word_type x) x m) bw l,
     foldl (fun m x => index_add (length (_get_english x)) x m) bl l).
Proof. revert bw bl. induction l as [|x l IH]; intros bw bl; simpl; auto. Qed.

(** The two indices built at construction group the whole vocabulary:
    under a word type (["unknown"] for an item without one) the index
    holds exactly the items of that type, and under a length exactly the
    items whose source word has that length, each group in the order of
    the vocabulary; a type or length of no item has no entry. *)
Theorem build_indices_group :
  (forall t,
     (_build_indices vocabulary).1 !! t =
     match filter (fun x => get_word_type x = t) vocabulary with
     | [] => None
     | items => Some items
     end) /\
  (forall n,
     (_build_indices vocabulary).2 !! n =
     match filter (fun x => length (_get_english x) = n) vocabulary with
     | [] => None
     | items => Some items
     end).
Proof.
  unfold _build_indices. rewrite build_indices_split. simpl.
  split; intros k; rewrite index_add_fold, lookup_empty; done.
Qed.

End MoreGeneratorFacts.

(** * Further properties of the exporter *)

Section ExporterFacts.
Variable output_dir : path.
Local Open Scope py_scope.
Local Open Scope nat_scope.

Lemma difficulty_value_inj d d' :
  difficulty_value d = difficulty_value d' -> d = d'.
Proof. destruct d, d'; by vm_compute. Qed.

Lemma exercise_type_value_inj t t' :
  exercise_type_value t = exercise_type_value t' -> t = t'.
Proof. destruct t, t'; by vm_compute. Qed.

(** Sets of different difficulty or type are written to different files,
    and no set file is the manifest or the answer key. *)
Theorem set_paths_are_distinct d t d' t' :
  (set_path output_dir d t = set_path output_dir d' t' <-> d = d' /\ t = t') /\
  set_path output_dir d t ≠ manifest_path output_dir /\
  set_path output_dir d t ≠ answers_path output_dir.
Proof.
  unfold set_path, manifest_path, answers_path. split_and!.
  - split; [|by intros [-> ->]].
    intros [= Hd Ht%app_inv_tail]%app_inv_head.
    by apply difficulty_value_inj in Hd; apply exercise_type_value_inj in Ht.
  - by intros ?%app_inv_head.
  - by intros ?%app_inv_head.
Qed.

Lemma set_paths_are_distinct_aux d t :
  set_path output_dir d t = manifest_path output_dir -> False.
Proof. unfold set_path, manifest_path. by intros ?%app_inv_head. Qed.

Lemma relative_to_set_path d t :
  relative_to output_dir (set_path output_dir d t) = relative_set_path d t.
Proof.
  unfold relative_to, set_path. rewrite drop_app_length.
  unfold join, relative_set_path. simpl. by rewrite app_nil_r.
Qed.

(** The loop of [export_all], when it returns. *)
Lemma export_loop_Done (sets : list (str * ExerciseSet)) w done w' :
  for_each (fun '(key, exercise_set) =>
              p <- export_set output_dir exercise_set ;;
              ret ((key, p), manifest_entry output_dir key p exercise_set))
           sets w
  = Done done w' ->
  done = (fun ks =>
            let p := set_path output_dir (set_difficulty ks.2)
                       (exercise_type ks.2) in
            ((ks.1, p), manifest_entry output_dir ks.1 p ks.2)) <$> sets /\
  clock w' = clock w /\
  files w' = write_sets output_dir sets (files w).
Proof.
  revert w done. induction sets as [|[key s] sets IH]; intros w done.
  - by intros [<- <-]%ret_Done.
  - cbn [for_each].
    intros (y & w1 & Hy & (ys & w2 & Hys & [<- <-]%ret_Done)%bind_Done)
      %bind_Done.
    apply bind_Done in Hy as (p & w0 & Hp & [<- <-]%ret_Done).
    apply export_set_Done in Hp as (-> & _ & _ & Hc & Hf & _).
    apply IH in Hys as (-> & Hc2 & Hf2).
    split_and!; [done | congruence |].
    rewrite Hf2, Hf. done.
Qed.

Lemma export_all_Done (sets : list (str * ExerciseSet)) w exported w' :
  export_all output_dir sets w = Done exported w' ->
  exported
  = dict_of ((fun ks =>
                (ks.1, set_path output_dir (set_difficulty ks.2)
                         (exercise_type ks.2))) <$> sets) /\
  clock w' = tail (clock w) /\
  files w'
  = <[manifest_path output_dir :=
        JObj [ (py "version", JStr (py "1.0"));
               (py "generatedAt", JStr (hd [] (clock w)));
               (py "totalSets", json_len sets);
               (py "sets",
                JList ((fun ks =>
                          manifest_entry output_dir ks.1
                            (set_path output_dir (set_difficulty ks.2)
                               (exercise_type ks.2)) ks.2) <$> sets)) ]]>
      (write_sets output_dir sets (files w)).
Proof.
  unfold export_all.
  intros (u0 & w0 & Hens & Hrest)%bind_Done.
  apply bind_Done in Hrest as (done & w1 & Hloop & Hrest).
  apply bind_Done in Hrest as (t & w2 & Hnow & Hrest).
  apply bind_Done in Hrest as (u1 & w3 & Hwr & [<- <-]%ret_Done).
  apply ensure_directories_Done in Hens as [(_ & _ & Hc0 & Hf0 & _) _].
  apply export_loop_Done in Hloop as (-> & Hc1 & Hf1).
  unfold now_isoformat in Hnow. injection Hnow as <- <-.
  apply write_json_Done in Hwr as (-> & _ & _).
  cbn [clock files]. rewrite Hc1, Hc0, Hf1, Hf0.
  rewrite <- !list_fmap_compose. done.
Qed.

(** When [export_all] returns, it returns the path of the file of every
    key, and it has written a manifest that lists the sets in the order
    of the mapping: per set its key, the path
    ["{difficulty}/{type}.json"] relative to the output directory, its
    type, difficulty, number of exercises and name; with the version,
    the count of the sets and the time of the export, read off the clock
    once. *)
Theorem export_all_manifest (sets : list (str * ExerciseSet)) w exported w' :
  export_all output_dir sets w = Done exported w' ->
    (NoDup sets.*1 ->
     forall key s, (key, s) ∈ sets ->
       dict_get key exported
       = Some (set_path output_dir (set_difficulty s) (exercise_type s))) /\
    clock w' = tail (clock w) /\
    files w' !! manifest_path output_dir =
      Some (JObj
        [ (py "version", JStr (py "1.0"));
          (py "generatedAt", JStr (hd [] (clock w)));
          (py "totalSets", JInt (Z.of_nat (length sets)));
          (py "sets",
           JList ((fun ks =>
                     JObj
                       [ (py "key", JStr ks.1);
                         (py "path",
                          JStr (relative_set_path (set_difficulty ks.2)
                                  (exercise_type ks.2)));
                         (py "type",
                          JStr (exercise_type_value (exercise_type ks.2)));
                         (py "difficulty",
                          JStr (difficulty_value (set_difficulty ks.2)));
                         (py "exerciseCount",
                          JInt (Z.of_nat (length (exercises ks.2))));
                         (py "name", JStr (name ks.2)) ]) <$> sets)) ]).
Proof.
  intros (-> & Hc & Hf)%export_all_Done. split_and!.
  - intros Hnd key s Hin. apply dict_of_elem_of.
    + by rewrite <- list_fmap_compose.
    + by apply (list_elem_of_fmap_2
        (fun ks => (ks.1, set_path output_dir (set_difficulty ks.2)
                            (exercise_type ks.2))) _ (key, s)).
  - done.
  - rewrite Hf, lookup_insert_eq. do 8 f_equal.
    apply list_fmap_ext. intros i [key s] _. unfold manifest_entry. simpl.
    by rewrite relative_to_set_path.
Qed.

Lemma write_sets_app (l1 l2 : list (str * ExerciseSet)) fs :
  write_sets output_dir (l1 ++ l2) fs
  = write_sets output_dir l2 (write_sets output_dir l1 fs).
Proof. apply foldl_app. Qed.

Lemma write_sets_cons ks (l : list (str * ExerciseSet)) fs :
  write_sets output_dir (ks :: l) fs
  = write_sets output_dir l
      (<[set_path output_dir (set_difficulty ks.2) (exercise_type ks.2)
           := JObj (set_to_dict ks.2)]> fs).
Proof. done. Qed.

Lemma write_sets_other (sets : list (str * ExerciseSet)) fs q :
  (forall ks, ks ∈ sets ->
     q ≠ set_path output_dir (set_difficulty ks.2) (exercise_type ks.2)) ->
  write_sets output_dir sets fs !! q = fs !! q.
Proof.
  unfold write_sets. revert fs.
  induction sets as [|ks sets IH]; intros fs Hq; simpl; [done|].
  rewrite IH by (intros; apply Hq; by right).
  apply lookup_insert_ne. intros Heq. by apply (Hq ks); [left|].
Qed.

(** When [export_all] returns, the file of a set holds the document of
    that set unless a later set of the mapping has the same difficulty
    and type (the later one then replaces it); every file that is
    neither the manifest nor the file of one of the sets is left as it
    was. *)
Theorem export_all_files (sets : list (str * ExerciseSet)) w exported w' :
  export_all output_dir sets w = Done exported w' ->
    (forall i key s, sets !! i = Some (key, s) ->
       (forall j ks, i < j -> sets !! j = Some ks ->
          (set_difficulty ks.2, exercise_type ks.2)
          ≠ (set_difficulty s, exercise_type s)) ->
       files w' !! set_path output_dir (set_difficulty s) (exercise_type s)
       = Some (JObj (set_to_dict s))) /\
    (forall q, q ≠ manifest_path output_dir ->
       (forall ks, ks ∈ sets ->
          q ≠ set_path output_dir (set_difficulty ks.2) (exercise_type ks.2)) ->
       files w' !! q = files w !! q).
Proof.
  intros (_ & _ & Hf)%export_all_Done. rewrite Hf. split.
  - intros i key s Hi Hlast.
    rewrite lookup_insert_ne
      by (intros Heq; symmetry in Heq;
          by apply set_paths_are_distinct_aux in Heq).
    rewrite <- (take_drop_middle sets i (key, s) Hi).
    rewrite write_sets_app, write_sets_cons.
    rewrite write_sets_other; [by rewrite lookup_insert_eq|].
    intros ks Hks Heq.
    apply list_elem_of_lookup in Hks as [j Hj]. rewrite lookup_drop in Hj.
    apply (Hlast (S i + j) ks); [lia | done |].
    unfold set_path in Heq.
    apply app_inv_head in Heq as [= Hd Ht%app_inv_tail].
    apply difficulty_value_inj in Hd. apply exercise_type_value_inj in Ht.
    by rewrite Hd, Ht.
  - intros q Hm Hq. rewrite lookup_insert_ne by done.
    by apply write_sets_other.
Qed.

(** [export_set] writes the file of the set and no other, keeps every
    directory that exists, and leaves behind the directories of the three
    difficulties (and the output directory itself). *)
Theorem export_set_frame (s : ExerciseSet) w p w' :
  export_set output_dir s w = Done p w' ->
  (forall q, q ≠ p -> files w' !! q = files w !! q) /\
  dirs w ⊆ dirs w' /\
  (forall d, output_dir ++ [difficulty_value d] ∈ dirs w') /\
  (output_dir ≠ [] -> output_dir ∈ dirs w').
Proof.
  intros (_ & _ & _ & _ & Hf & Hsub & Hd & _)%export_set_Done.
  split_and!.
  - intros q Hq. rewrite Hf. by apply lookup_insert_ne.
  - done.
  - intros d. apply is_dir_elem_of, Hd.
  - intros Hne. by apply (is_dir_parent w' output_dir (difficulty_value EASY)).
Qed.

(** The document of a set, which [export_set] writes for the client,
    holds the answer of every exercise: the field read by
    [export_answers] is the correct word, the English word, the word to
    guess, or the list of the pairs with their left and right words. *)
Theorem set_document_holds_answers (s : ExerciseSet) w p w' :
  export_set output_dir s w = Done p w' ->
  files w' !! p = Some (JObj (set_to_dict s)) /\
  json_get (py "exercises") (set_to_dict s)
  = JList ((fun e => JObj (to_dict e)) <$> exercises s) /\
  forall e, e ∈ exercises s ->
    answer_in_document e =
    match e with
    | FillInBlank x => JStr (correct_answer x)
    | Matching x => JList (pair_to_dict <$> pairs x)
    | Spelling x => JStr (english_word x)
    | Hangman x => JStr (word x)
    end.
Proof.
  intros (_ & _ & _ & _ & Hf & _)%export_set_Done.
  split_and!; [by rewrite Hf, lookup_insert_eq | done |].
  by intros [x|x|x|x] _.
Qed.

End ExporterFacts.

(** ** Failures of the exporter *)

Section ExporterFailures.
Variable output_dir : path.
Local Open Scope py_scope.
Local Open Scope nat_scope.






Lemma tree_ok_ext w w' :
  files w' = files w -> dirs w' = dirs w -> tree_ok w -> tree_ok w'.
Proof.
  intros Hf Hd (Hc & Hdr & Hfr). unfold tree_ok, resolve_parent.
  rewrite Hf, Hd. split_and!; intros q.
  - rewrite (lookup_entry_ext w w') by done. apply Hc.
  - rewrite (walk_ext w w') by done. apply Hdr.
  - rewrite (walk_ext w w') by done. apply Hfr.
Qed.

Lemma os_mkdir_tree_ok p w u w' :
  tree_ok w -> os_mkdir p w = Done u w' -> tree_ok w'.
Proof.
  intros (Hc & Hdr & Hfr). unfold os_mkdir.
  destruct (resolve_parent w p) eqn:Hr; [done|].
  destruct (lookup_entry w p) eqn:He; try done. intros [= <- <-].
  assert (dirs w ⊆ dirs w ∪ {[p]}) as Hsub by apply union_subseteq_l.
  split_and!.
  - intros q [->|Hq]%lookup_entry_Directory.
    + by apply Hc, lookup_entry_Directory; left.
    + simpl in *. apply elem_of_union in Hq as [Hq|Hq%elem_of_singleton].
      * by apply Hc, lookup_entry_Directory; right.
      * subst q. unfold lookup_entry in He. repeat case_bool_decide; try done.
        by destruct (files w !! p).
  - intros q Hq. simpl in Hq.
    apply elem_of_union in Hq as [Hq|Hq%elem_of_singleton];
      (eapply resolve_parent_mono; [exact Hsub|]);
      [by apply Hdr | by subst q].
  - intros q Hq. simpl in Hq.
    eapply resolve_parent_mono; [exact Hsub|]. by apply Hfr.
Qed.

Lemma mkdir_exist_ok_tree_ok p w u w' :
  tree_ok w -> mkdir_exist_ok p w = Done u w' -> tree_ok w'.
Proof.
  intros Hok. unfold mkdir_exist_ok.
  destruct (os_mkdir p w) as [u0 w0|e] eqn:Hmk.
  - intros [= <- <-]. by eapply os_mkdir_tree_ok.
  - destruct e; try done;
      (destruct (is_dir w p); [|done]; by intros [= <- <-]).
Qed.

Lemma mkdir_rec_tree_ok n p w u w' :
  tree_ok w -> mkdir_rec n p w = Done u w' -> tree_ok w'.
Proof.
  revert p w u w'. induction n as [|n IH]; intros p w u w' Hok; simpl;
    (destruct (os_mkdir p w) as [u0 w0|e] eqn:Hmk;
     [intros [= <- <-]; by eapply os_mkdir_tree_ok|]);
    destruct e; try done;
    try (destruct (is_dir w p); [|done]; by intros [= <- <-]).
  intros (u1 & w1 & H1 & H2)%bind_Done.
  eapply mkdir_exist_ok_tree_ok; [|exact H2]. by eapply IH.
Qed.

Lemma write_json_tree_ok p data w u w' :
  tree_ok w -> write_json p data w = Done u w' -> tree_ok w'.
Proof.
  intros (Hc & Hdr & Hfr) (-> & Hr & He)%write_json_Done.
  assert (forall q, resolve_parent w q = None ->
            resolve_parent
              {| rand := rand w; uuids := uuids w; clock := clock w;
                 files := <[p:=data]> (files w); dirs := dirs w |} q = None)
    as Hmono by (intros q; by apply resolve_parent_mono).
  split_and!.
  - intros q Hq. simpl.
    assert (lookup_entry w q = Directory) as Hq'
      by (apply lookup_entry_Directory; by apply lookup_entry_Directory in Hq).
    rewrite lookup_insert_ne by congruence. by apply Hc.
  - intros q Hq. apply Hmono. by apply Hdr.
  - intros q Hq. apply Hmono. simpl in Hq.
    destruct (decide (p = q)) as [<-|Hne]; [done|].
    rewrite lookup_insert_ne in Hq by done. by apply Hfr.
Qed.

Lemma ensure_directories_tree_ok w u w' :
  tree_ok w -> _ensure_directories output_dir w = Done u w' -> tree_ok w'.
Proof.
  intros Hok. unfold _ensure_directories.
  intros (us & w0 & Hloop & [_ <-]%ret_Done)%bind_Done.
  revert w Hok us Hloop.
  induction all_difficulties as [|d ds IH]; intros w Hok us.
  - by intros [_ <-]%ret_Done.
  - cbn [for_each].
    intros (u1 & w1 & H1 & (us1 & w2 & Hloop & [_ <-]%ret_Done)%bind_Done)
      %bind_Done.
    eapply IH; [|exact Hloop]. by eapply mkdir_rec_tree_ok.
Qed.

Lemma export_set_tree_ok (s : ExerciseSet) w p w' :
  tree_ok w -> export_set output_dir s w = Done p w' -> tree_ok w'.
Proof.
  intros Hok. unfold export_set.
  intros (u0 & w0 & Hens & Hrest)%bind_Done.
  apply bind_Done in Hrest as (u1 & w1 & Hwr & [_ <-]%ret_Done).
  eapply write_json_tree_ok; [|exact Hwr].
  by eapply ensure_directories_tree_ok.
Qed.

(** The exports keep the tree of files and directories in order: when
    in the world an export starts in no name is both a directory and a
    regular file and every file and directory lies in a directory that
    is there, the same holds of the world it returns in. *)
Theorem export_keeps_tree_in_order (sets : list (str * ExerciseSet))
    (s : ExerciseSet) w :
  tree_ok w ->
  (forall p w', export_set output_dir s w = Done p w' -> tree_ok w') /\
  (forall exported w',
     export_all output_dir sets w = Done exported w' -> tree_ok w') /\
  (forall p w', export_answers output_dir sets w = Done p w' -> tree_ok w').
Proof.
  intros Hok. split_and!.
  - intros p w'. by apply export_set_tree_ok.
  - intros exported w'. unfold export_all.
    intros (u0 & w0 & Hens & Hrest)%bind_Done.
    apply bind_Done in Hrest as (done & w1 & Hloop & Hrest).
    apply bind_Done in Hrest as (t & w2 & Hnow & Hrest).
    apply bind_Done in Hrest as (u1 & w3 & Hwr & [_ <-]%ret_Done).
    eapply write_json_tree_ok; [|exact Hwr].
    unfold now_isoformat in Hnow. injection Hnow as _ <-.
    apply (tree_ok_ext w1); [done | done |].
    apply ensure_directories_tree_ok in Hens; [|done].
    clear -Hens Hloop. revert w0 done Hens Hloop.
    induction sets as [|[key s0] l IH]; intros w0 done Hok.
    + by intros [_ <-]%ret_Done.
    + cbn [for_each].
      intros (y & wa & Hy & (ys & wb & Hys & [_ <-]%ret_Done)%bind_Done)
        %bind_Done.
      apply bind_Done in Hy as (p & wc & Hp & [_ <-]%ret_Done).
      eapply IH; [|exact Hys]. by eapply export_set_tree_ok.
  - intros p w'. unfold export_answers.
    intros (u0 & w0 & Hens & Hrest)%bind_Done.
    apply bind_Done in Hrest as (answers & w1 & Hans & Hrest).
    apply bind_Done in Hrest as (u1 & w2 & Hwr & [_ <-]%ret_Done).
    destruct (answers_of_Done sets w0) as (per_set & Hper & _).
    rewrite Hper in Hans. injection Hans as _ <-.
    eapply write_json_tree_ok; [|exact Hwr].
    by eapply ensure_directories_tree_ok.
Qed.

End ExporterFailures.

(** * The ids of the exercises *)

Section IdFacts.
Context `{!TextLib}.
Variable vocabulary : list VocabularyItem.
Local Open Scope py_scope.
Local Open Scope nat_scope.

Lemma keeps_uuids_ret {A} (a : A) : keeps_uuids (ret a).
Proof. by intros w b w' [_ <-]%ret_Done. Qed.

Lemma keeps_uuids_bind {A B} (m : M A) (f : A -> M B) :
  keeps_uuids m -> (forall a, keeps_uuids (f a)) -> keeps_uuids (bind m f).
Proof.
  intros Hm Hf w b w' (a & w1 & Ha & Hb)%bind_Done.
  rewrite (Hf a _ _ _ Hb). by apply (Hm _ _ _ Ha).
Qed.

Lemma keeps_uuids_randbelow n : keeps_uuids (randbelow n).
Proof. by intros w j w' [= _ <-]. Qed.

Lemma keeps_uuids_shuffle {A} (x : list A) : keeps_uuids (shuffle x).
Proof.
  unfold shuffle. generalize (length x - 1). intros i. revert x.
  induction i as [|i IH]; intros x; simpl.
  - apply keeps_uuids_ret.
  - apply keeps_uuids_bind; [apply keeps_uuids_randbelow | intros j; apply IH].
Qed.

Lemma keeps_uuids_sample_pool {A} k (pool : list A) n :
  keeps_uuids (sample_pool k pool n).
Proof.
  revert pool n. induction k as [|k IH]; intros pool n; simpl.
  - apply keeps_uuids_ret.
  - apply keeps_uuids_bind; [apply keeps_uuids_randbelow|]. intros j.
    destruct (pool !! j); [|by intros ???].
    destruct (pool !! (n - 1)); [|by intros ???].
    apply keeps_uuids_bind; [apply IH | intros; apply keeps_uuids_ret].
Qed.

Lemma keeps_uuids_select_random {A} (items : list A) count :
  keeps_uuids (_select_random items count).
Proof.
  unfold _select_random, sample.
  destruct (_ <=? _)%Z; [apply keeps_uuids_ret|].
  destruct (_ && _); [apply keeps_uuids_sample_pool | by intros ???].
Qed.

Lemma keeps_uuids_scramble english : keeps_uuids (scramble english).
Proof.
  unfold scramble. apply keeps_uuids_bind; [apply keeps_uuids_shuffle|].
  generalize 10. intros n letters. revert letters.
  induction n as [|n IH]; intros letters; simpl; [apply keeps_uuids_ret|].
  destruct (str_eqb _ _); [|apply keeps_uuids_ret].
  apply keeps_uuids_bind; [apply keeps_uuids_shuffle | apply IH].
Qed.

Lemma keeps_uuids_spelling_hint config english :
  keeps_uuids (spelling_hint config english).
Proof.
  unfold spelling_hint.
  destruct (show_hints _); [|apply keeps_uuids_ret].
  destruct (reveal_first_letter _); [|apply keeps_uuids_ret].
  destruct english; [by intros ???|apply keeps_uuids_ret].
Qed.

(** The bodies of the three simple loops draw one uuid each. *)
Lemma fill_in_blank_exercise_id d item w e w' :
  fill_in_blank_exercise d item w = Done e w' ->
  id (fib_base e) = py "fib_" ++ hd (py "00000000") (uuids w) /\
  uuids w' = tail (uuids w).
Proof.
  unfold fill_in_blank_exercise.
  destruct (truthy_opt _); by intros [= <- <-].
Qed.

Lemma hangman_exercise_id d item w e w' :
  hangman_exercise d item w = Done e w' ->
  id (hang_base e) = py "hang_" ++ hd (py "00000000") (uuids w) /\
  uuids w' = tail (uuids w).
Proof. by intros [= <- <-]. Qed.

Lemma spelling_exercise_id d item w e w' :
  spelling_exercise d item w = Done e w' ->
  id (spell_base e) = py "spell_" ++ hd (py "00000000") (uuids w) /\
  uuids w' = tail (uuids w).
Proof.
  unfold spelling_exercise.
  intros (r & w1 & Hr%keeps_uuids_scramble &
    (h & w2 & Hh%keeps_uuids_spelling_hint &
    (u & w3 & [= <- <-] & [<- <-]%ret_Done)%bind_Done)%bind_Done)%bind_Done.
  simpl. by rewrite Hh, Hr.
Qed.

Lemma for_each_one_draw {B} (body : VocabularyItem -> M B) (idf : B -> str)
    (prefix : str) l w ys w' :
  (forall x w0 e w1, body x w0 = Done e w1 ->
     idf e = prefix ++ hd (py "00000000") (uuids w0) /\
     uuids w1 = tail (uuids w0)) ->
  for_each body l w = Done ys w' ->
  length l <= length (uuids w) ->
  idf <$> ys = (prefix ++.) <$> take (length l) (uuids w).
Proof.
  intros Hbody. revert w ys w'.
  induction l as [|x l IH]; intros w ys w'; simpl.
  - by intros [<- _]%ret_Done.
  - intros (e & w1 & He & (ys' & w2 & Hys & [<- _]%ret_Done)%bind_Done)
      %bind_Done Hlen.
    apply Hbody in He as [Hid Hu].
    destruct (uuids w) as [|u us] eqn:Hw; [simpl in Hlen; lia|].
    rewrite fmap_cons, Hid. cbn [length take hd tail] in *.
    rewrite fmap_cons. f_equal.
    rewrite <- Hu. eapply IH; [done|]. rewrite Hu. lia.
Qed.


Lemma select_then_loop_ids {B} (body : VocabularyItem -> M B) (idf : B -> str)
    (prefix : str) items count w l w' :
  (forall x w0 e w1, body x w0 = Done e w1 ->
     idf e = prefix ++ hd (py "00000000") (uuids w0) /\
     uuids w1 = tail (uuids w0)) ->
  (selected <- _select_random items count ;; for_each body selected) w
    = Done l w' ->
  length l <= length (uuids w) ->
  idf <$> l = (prefix ++.) <$> take (length l) (uuids w).
Proof.
  intros Hbody (sel & w1 & Hsel & Hloop)%bind_Done Hlen.
  pose proof (Forall2_length _ _ _ (for_each_inv _ _ _ _ _ Hloop)) as Hl.
  apply keeps_uuids_select_random in Hsel. rewrite <- Hsel, <- Hl.
  eapply for_each_one_draw; [exact Hbody | exact Hloop |].
  rewrite Hsel, Hl. done.
Qed.

Lemma generate_fill_in_blank_ids d count w l w' :
  generate_fill_in_blank vocabulary d count w = Done l w' ->
  length l <= length (uuids w) ->
  id ∘ fib_base <$> l = (py "fib_" ++.) <$> take (length l) (uuids w).
Proof.
  unfold generate_fill_in_blank.
  intros (s1 & w1 & Hs1%keeps_uuids_select_random &
    (s2 & w2 & Hs2 & Hloop)%bind_Done)%bind_Done Hlen.
  assert (uuids w2 = uuids w1) as Hw2.
  { destruct (_ <? _)%Z.
    - apply bind_Done in Hs2
        as (extra & w3 & Hex%keeps_uuids_select_random & [_ <-]%ret_Done).
      done.
    - by apply ret_Done in Hs2 as [_ <-]. }
  pose proof (Forall2_length _ _ _ (for_each_inv _ _ _ _ _ Hloop)) as Hl.
  rewrite <- Hs1, <- Hw2, <- Hl.
  eapply (for_each_one_draw _ (id ∘ fib_base)); [|exact Hloop|].
  - intros x w0 e w4. apply fill_in_blank_exercise_id.
  - rewrite Hw2, Hs1, Hl. done.
Qed.

Lemma matching_pairs_uuids (l : list VocabularyItem) w ps w' :
  for_each matching_pair l w = Done ps w' ->
  uuids w' = drop (length l) (uuids w).
Proof.
  revert w ps w'. induction l as [|x l IH]; intros w ps w'; simpl.
  - by intros [_ <-]%ret_Done.
  - intros (p & w1 & Hp & (ps' & w2 & Hps & Hret)%bind_Done)%bind_Done.
    apply ret_Done in Hret as [_ <-]. apply IH in Hps.
    injection Hp as _ <-. rewrite Hps. cbn [uuids length].
    destruct (uuids w); simpl; by rewrite ?drop_nil.
Qed.

Lemma matching_loop_ids d pool n remaining w l w' :
  matching_loop d pool n remaining w = Done l w' ->
  n * S (matching_pairs (DIFFICULTY_CONFIG d)) <= length (uuids w) ->
  exists us, us `sublist_of` uuids w /\
    id ∘ match_base <$> l = (py "match_" ++.) <$> us.
Proof.
  revert remaining w l w'.
  induction n as [|n IH]; intros remaining w l w'; simpl.
  - intros [<- _]%ret_Done _. exists []. split; [apply sublist_nil_l | done].
  - intros (rem1 & w1 & Hrem1 & (ps & w2 & Hps & (sh & w3 & Hsh &
      (u & w4 & Hu & (rest & w5 & Hrest & [<- _]%ret_Done)%bind_Done)
      %bind_Done)%bind_Done)%bind_Done)%bind_Done Hlen.
    set (k := matching_pairs (DIFFICULTY_CONFIG d)) in *.
    assert (uuids w1 = uuids w) as Hw1.
    { destruct (_ <? _); [by apply keeps_uuids_shuffle in Hrem1|].
      by apply ret_Done in Hrem1 as [_ <-]. }
    apply matching_pairs_uuids in Hps. rewrite Hw1 in Hps.
    apply keeps_uuids_shuffle in Hsh. rewrite Hps in Hsh.
    set (m := length (take k rem1)) in *.
    assert (m <= k) as Hm by (unfold m; rewrite length_take; lia).
    injection Hu as <- <-. rewrite Hsh in *.
    destruct (drop m (uuids w)) as [|u0 us0] eqn:Hdrop.
    { apply (f_equal length) in Hdrop. rewrite length_drop in Hdrop.
      simpl in Hdrop. lia. }
    destruct (IH _ _ _ _ Hrest) as (us & Hsub & Hids).
    { cbn [uuids tail]. apply (f_equal length) in Hdrop.
      rewrite length_drop in Hdrop. simpl in Hdrop. lia. }
    cbn [uuids tail] in Hsub.
    exists (u0 :: us). split.
    + rewrite <- (take_drop m (uuids w)), Hdrop.
      apply sublist_inserts_l. by constructor.
    + rewrite !fmap_cons, Hids. done.
Qed.

Lemma generated_ids kind d count name w s w' :
  generate_exercise_set vocabulary kind d count name w = Done s w' ->
  9 * Z.to_nat count <= length (uuids w) ->
  exists us, us `sublist_of` uuids w /\
    id ∘ base <$> exercises s = (id_prefix kind ++.) <$> us.
Proof.
  intros (_ & _ & w1 & Hgen)%generate_exercise_set_inv Hlen.
  pose proof (generators_inv vocabulary _ _ _ _ _ _ Hgen) as (_ & Hm & Ho).
  destruct kind; simpl in Hgen;
    apply bind_Done in Hgen as (l0 & w2 & Hl0 & [Hl _]%ret_Done);
    rewrite <- Hl, <- list_fmap_compose in *.
  - destruct Ho as [Ho _]; [done|]. rewrite length_fmap in Ho.
    exists (take (length l0) (uuids w)). split; [apply sublist_take|].
    apply (generate_fill_in_blank_ids d count w l0 w2); [done | lia].
  - apply bind_Done in Hl0 as (rem & w3 & Hrem%keeps_uuids_shuffle & Hloop).
    specialize (Hm eq_refl). rewrite length_fmap in Hm.
    rewrite <- Hrem. eapply matching_loop_ids; [exact Hloop|].
    rewrite Hrem.
    assert (matching_pairs (DIFFICULTY_CONFIG d) <= 8)
      by (by destruct d; simpl; lia).
    nia.
  - destruct Ho as [Ho _]; [done|]. rewrite length_fmap in Ho.
    exists (take (length l0) (uuids w)). split; [apply sublist_take|].
    eapply (select_then_loop_ids _ (id ∘ spell_base)); [|exact Hl0|lia].
    intros x w0 e w4. apply spelling_exercise_id.
  - destruct Ho as [Ho _]; [done|]. rewrite length_fmap in Ho.
    exists (take (length l0) (uuids w)). split; [apply sublist_take|].
    eapply (select_then_loop_ids _ (id ∘ hang_base)); [|exact Hl0|lia].
    intros x w0 e w4. apply hangman_exercise_id.
Qed.

Lemma generated_ids_NoDup kind d count name w s w' :
  generate_exercise_set vocabulary kind d count name w = Done s w' ->
  9 * Z.to_nat count <= length (uuids w) ->
  NoDup (uuids w) -> NoDup (id ∘ base <$> exercises s).
Proof.
  intros Hs Hlen Hnd.
  destruct (generated_ids _ _ _ _ _ _ _ Hs Hlen) as (us & Hsub & ->).
  apply NoDup_fmap_2.
  - intros x y. apply app_inv_head.
  - by eapply sublist_NoDup.
Qed.

(** The id of every exercise of a generated set is the prefix of its
    type followed by a value drawn from [uuid4], the values being taken
    in the order of the draws; nothing else makes the ids differ: they
    are pairwise distinct when the values drawn are.  (The uuid source
    holds enough values: at most 9 draws are made per requested
    exercise.) *)
Theorem exercise_ids_from_uuids kind d count name w s w' :
  generate_exercise_set vocabulary kind d count name w = Done s w' ->
  9 * Z.to_nat count <= length (uuids w) ->
  exists us, us `sublist_of` uuids w /\
    id ∘ base <$> exercises s = (id_prefix kind ++.) <$> us /\
    (NoDup (uuids w) -> NoDup (id ∘ base <$> exercises s)).
Proof.
  intros Hs Hlen.
  destruct (generated_ids _ _ _ _ _ _ _ Hs Hlen) as (us & Hsub & Hids).
  exists us. split_and!; [done..|]. by eapply generated_ids_NoDup.
Qed.

(** The answer key of a generated set: when the uuid values drawn for
    the set are pairwise distinct and [export_answers] returns, the
    document it has written stores under the key of the set, for every
    exercise of the set, the answer of that exercise under the id of the
    exercise. *)
Theorem generated_set_answer_key output_dir kind d count name w s w1 key
    w2 p w3 :
  generate_exercise_set vocabulary kind d count name w = Done s w1 ->
  9 * Z.to_nat count <= length (uuids w) ->
  NoDup (uuids w) ->
  export_answers output_dir [(key, s)] w2 = Done p w3 ->
  p = answers_path output_dir /\
  exists doc set_doc,
    files w3 !! answers_path output_dir = Some (JObj doc) /\
    dict_get key doc = Some (JObj set_doc) /\
    forall e, e ∈ exercises s ->
      dict_get (id (base e)) set_doc = Some (answer_payload e).
Proof.
  intros Hs Hlen Hnd.
  pose proof (generated_ids_NoDup _ _ _ _ _ _ _ Hs Hlen Hnd) as Hids.
  pose proof Hs as (Hk & _ & w0 & Hgen)%generate_exercise_set_inv.
  apply generators_shape in Hgen. rewrite Forall_forall in Hgen.
  unfold export_answers.
  intros (u0 & wa & Hens & Hrest)%bind_Done.
  apply bind_Done in Hrest as (answers & wb & Hans & Hrest).
  apply bind_Done in Hrest as (u1 & wc & Hwr & [<- <-]%ret_Done).
  destruct (answers_of_Done [(key, s)] wa) as (per_set & Hper & Hall).
  rewrite Hper in Hans. injection Hans as <- <-.
  apply write_json_Done in Hwr as (-> & _ & _).
  apply Forall2_cons_inv_l in Hall
    as ([k v] & rest & [Hkey (set_doc & Hv & Hdoc)] & ->%Forall2_nil_inv_l & ->).
  cbn [fst snd] in Hkey, Hv, Hdoc. subst k v.
  split; [done|].
  exists (dict_of [(key, JObj set_doc)]), set_doc. split_and!.
  - cbn [files]. unfold answers_path. by rewrite lookup_insert_eq.
  - apply dict_of_elem_of; [by apply NoDup_singleton | by left].
  - intros e He. apply Hdoc; [done | done |].
    rewrite Hk. by destruct (Hgen e He) as (? & _).
Qed.

End IdFacts.

(** * The command line *)

Section CliFacts.
Context `{!TextLib}.
Local Open Scope py_scope.
Local Open Scope nat_scope.

Lemma split_on_piece sep cur v rest :
  sep ∉ v -> split_on sep cur (v ++ rest) = split_on sep (cur ++ v) rest.
Proof.
  revert cur. induction v as [|c v IH]; intros cur Hv; simpl.
  - by rewrite app_nil_r.
  - apply not_elem_of_cons in Hv as [Hc Hv].
    rewrite (proj2 (N.eqb_neq c sep)) by done.
    rewrite IH by done. by rewrite <- app_assoc.
Qed.

Lemma split_on_pieces sep cur (vs : list str) :
  Forall (fun v => sep ∉ v) vs ->
  split_on sep cur (flat_map (fun q => [sep] ++ q) vs) = cur :: vs.
Proof.
  intros Hvs. revert cur. induction Hvs as [|v vs Hv _ IH]; intros cur; simpl.
  - done.
  - rewrite N.eqb_refl. f_equal. rewrite split_on_piece by done. apply IH.
Qed.

(** Splitting undoes joining, for pieces without the separator. *)
Lemma split_on_join sep v (vs : list str) :
  Forall (fun v => sep ∉ v) (v :: vs) ->
  split_on sep [] (join [sep] (v :: vs)) = v :: vs.
Proof.
  intros [Hv Hvs]%Forall_cons. unfold join.
  rewrite split_on_piece by done. by apply split_on_pieces.
Qed.

Lemma parse_tokens_found {E} (member : str -> option E) warning tokens :
  (parse_tokens member warning tokens).1
  = omap (fun t => member (str_lower (strip t))) tokens /\
  length (parse_tokens member warning tokens).1
  + length (parse_tokens member warning tokens).2 = length tokens.
Proof.
  unfold parse_tokens.
  induction tokens as [|t tokens IH] using rev_ind; [done|].
  rewrite foldl_snoc, omap_app, length_app. simpl.
  destruct (foldl _ _ tokens) as [found printed]. simpl in IH.
  destruct IH as [-> Hlen].
  destruct (member (str_lower (strip t))); simpl;
    rewrite ?length_app, ?app_nil_r; simpl; split; (done || lia).
Qed.


Lemma name_char_values :
  (forall m, Forall name_char (exercise_type_value m)) /\
  (forall m, Forall name_char (difficulty_value m)).
Proof.
  split; intros []; apply Forall_forall; intros c Hc%list_elem_of_In;
    vm_compute in Hc; unfold name_char;
    intuition (subst; by vm_compute).
Qed.

Lemma lstrip_name v : Forall name_char v -> lstrip v = v.
Proof. destruct 1 as [|c v (_ & _ & Hc & _) _]; simpl; [done|]. by rewrite Hc. Qed.

Lemma strip_name v : Forall name_char v -> strip v = v.
Proof.
  intros Hv. unfold strip. rewrite (lstrip_name v Hv).
  rewrite lstrip_name; [apply reverse_involutive|].
  by apply Forall_reverse.
Qed.

Lemma lower_name v :
  lower_is_ascii -> Forall (fun c => (c < 128)%N /\ ascii_lower c = c) v ->
  str_lower v = v.
Proof.
  intros Hlower Hv. rewrite Hlower.
  - induction Hv as [|c v [_ Hc] _ IH]; [done|].
    by rewrite fmap_cons, Hc, IH.
  - eapply Forall_impl; [exact Hv|]. by intros c [? _].
Qed.

Lemma parse_tokens_names {E} (value : E -> str) (member : str -> option E)
    warning (ms : list E) :
  (forall m, member (str_lower (strip (value m))) = Some m) ->
  parse_tokens member warning (value <$> ms) = (ms, []).
Proof.
  intros Hm.
  destruct (parse_tokens_found member warning (value <$> ms)) as [Hf Hl].
  destruct (parse_tokens member warning (value <$> ms)) as [found printed].
  cbn [fst snd] in *.
  assert (found = ms) as ->.
  { rewrite Hf. clear -Hm. induction ms as [|m ms IH]; [done|].
    rewrite fmap_cons.
    change (omap ?f (?x :: ?l))
      with (match f x with Some y => y :: omap f l | None => omap f l end).
    cbv beta. by rewrite Hm, IH. }
  rewrite length_fmap in Hl. by destruct printed; [|simpl in Hl; lia].
Qed.

Lemma join_names {E} (value : E -> str) (m : E) (ms : list E) :
  (forall m, Forall name_char (value m)) ->
  Forall (fun c => (c < 128)%N /\ ascii_lower c = c)
    (join [44%N] (value <$> m :: ms)) /\
  (exists rest, join [44%N] (value <$> m :: ms) = value m ++ rest) /\
  split_on 44%N [] (join [44%N] (value <$> m :: ms)) = value <$> m :: ms.
Proof.
  intros Hv. split_and!.
  - rewrite fmap_cons. unfold join. apply Forall_app. split.
    + eapply Forall_impl; [apply Hv|]. by intros c (? & ? & _).
    + induction ms as [|m' ms IH]; [done|]. rewrite fmap_cons. simpl.
      constructor; [by vm_compute|]. apply Forall_app. split; [|done].
      eapply Forall_impl; [apply Hv|]. by intros c (? & ? & _).
  - rewrite fmap_cons. unfold join. by eexists.
  - rewrite fmap_cons. apply split_on_join.
    rewrite <- fmap_cons. apply Forall_fmap, Forall_forall. intros m' _.
    intros Hin. pose proof (Hv m') as Hm'. rewrite Forall_forall in Hm'.
    by destruct (Hm' _ Hin) as (_ & _ & _ & ?).
Qed.

(** The names of members, joined with commas, are parsed back into the
    same members, in the same order, without any warning; this holds for
    types and for difficulties.  ([str.lower] is assumed to leave
    lower-case Basic Latin text as it is.) *)
Theorem parse_names_round_trip :
  lower_is_ascii ->
  (forall t ts,
     parse_types (join (py ",") (exercise_type_value <$> t :: ts))
     = (t :: ts, [])) /\
  (forall d ds,
     parse_difficulties (join (py ",") (difficulty_value <$> d :: ds))
     = (d :: ds, [])).
Proof.
  intros Hlower. destruct name_char_values as [Htypes Hdiffs].
  split.
  - intros t ts. unfold parse_types. change (py ",") with [44%N].
    destruct (join_names exercise_type_value t ts Htypes) as (Hl & [rest Hh] & Hs).
    rewrite (lower_name _ Hlower Hl), Hs.
    unfold str_eqb. rewrite bool_decide_eq_false_2.
    + apply parse_tokens_names. intros m.
      rewrite strip_name by apply Htypes.
      rewrite lower_name; [by destruct m | done |].
      eapply Forall_impl; [apply Htypes|]. by intros c (? & ? & _).
    + intros Hall. rewrite Hall in Hh. by destruct t.
  - intros d ds. unfold parse_difficulties. change (py ",") with [44%N].
    destruct (join_names difficulty_value d ds Hdiffs) as (Hl & [rest Hh] & Hs).
    rewrite (lower_name _ Hlower Hl), Hs.
    unfold str_eqb. rewrite bool_decide_eq_false_2.
    + apply parse_tokens_names. intros m.
      rewrite strip_name by apply Hdiffs.
      rewrite lower_name; [by destruct m | done |].
      eapply Forall_impl; [apply Hdiffs|]. by intros c (? & ? & _).
    + intros Hall. rewrite Hall in Hh. by destruct d.
Qed.

(** Unless the whole argument is ["all"] in any letter case, every piece
    between commas gives either a type or one printed warning: the types
    found are those named by the pieces once stripped and lower-cased, in
    the order of the pieces, repeated if a name is repeated; a piece that
    names no type is dropped.  With ["all"], the four types are returned
    in the order of the enumeration. *)
Theorem parse_types_pieces type_str :
  let pieces := split_on 44%N [] type_str in
  (str_lower type_str = py "all" ->
   parse_types type_str = (all_exercise_types, [])) /\
  (str_lower type_str ≠ py "all" ->
   (parse_types type_str).1
   = omap (fun t => exercise_type_of_value (str_lower (strip t))) pieces /\
   length (parse_types type_str).1 + length (parse_types type_str).2
   = length pieces /\
   pieces ≠ []).
Proof.
  intros pieces. unfold parse_types, str_eqb. split; intros Hall.
  - by rewrite bool_decide_eq_true_2.
  - rewrite bool_decide_eq_false_2 by done.
    destruct (parse_tokens_found exercise_type_of_value
      (fun t => py "Warning: Unknown exercise type '" ++ t ++ py "', skipping.")
      pieces) as [Hf Hl].
    split_and!; [done | done |].
    unfold pieces. clear. generalize (@nil char).
    induction type_str as [|c s IH]; intros cur; simpl; [done|].
    destruct (c =? 44)%N; [done | apply IH].
Qed.

(** Unless the whole argument is ["all"] in any letter case, every piece
    between commas gives either a difficulty or one printed warning: the
    difficulties found are those named by the pieces once stripped and
    lower-cased, in the order of the pieces, repeated if a name is
    repeated.  With ["all"], the three difficulties are returned in the
    order of the enumeration. *)
Theorem parse_difficulties_pieces diff_str :
  let pieces := split_on 44%N [] diff_str in
  (str_lower diff_str = py "all" ->
   parse_difficulties diff_str = (all_difficulties, [])) /\
  (str_lower diff_str ≠ py "all" ->
   (parse_difficulties diff_str).1
   = omap (fun t => difficulty_of_value (str_lower (strip t))) pieces /\
   length (parse_difficulties diff_str).1
   + length (parse_difficulties diff_str).2
   = length pieces).
Proof.
  intros pieces. unfold parse_difficulties, str_eqb. split; intros Hall.
  - by rewrite bool_decide_eq_true_2.
  - rewrite bool_decide_eq_false_2 by done.
    apply parse_tokens_found.
Qed.

End CliFacts.

(** * The further properties on concrete inputs *)

Section MoreInstances.
Local Open Scope py_scope.
Local Open Scope nat_scope.

Lemma hangman_exercise_policy_witness :
  exists l w',
    generate_hangman four_items EASY 2 quiet = Done l w' /\
    forall e, e ∈ l ->
      exists item, item ∈ four_items /\
        word e = _get_english item /\
        word e ≠ [] /\
        hang_hint e = _get_german item /\
        max_attempts e = 8%Z /\
        revealed_letters e = [0%Z].
Proof.
  eexists _, _. split; [vm_compute; reflexivity|].
  eapply (hangman_exercise_policy four_items EASY 2 quiet).
  vm_compute; reflexivity.
Defined.

Lemma fill_in_blank_prefers_examples_witness :
  exists l w',
    @generate_fill_in_blank BasicLatin [cat; sleeve] EASY 2 quiet = Done l w' /\
    let pool := _filter_by_difficulty [cat; sleeve] EASY in
    forall i e, l !! i = Some e ->
      exists item, item ∈ pool /\
        correct_answer e = _get_english item /\
        fib_hint e = Some (_get_german item) /\
        if decide (i < Z.to_nat 2 `min` length (with_examples pool)) then
          exists example,
            _get_example_sentence item = Some example /\ example ≠ [] /\
            sentence e
            = @re_sub_ignorecase BasicLatin (_get_english item) blank example
        else
          length (with_examples pool) <= i /\
          truthy_opt (_get_example_sentence item) = false /\
          sentence e =
            default (py "The word is ___.")
              (dict_get (get_word_type item) templates).
Proof.
  eexists _, _. split; [vm_compute; reflexivity|].
  eapply (@fill_in_blank_prefers_examples BasicLatin [cat; sleeve] EASY 2 quiet).
  vm_compute; reflexivity.
Defined.

Lemma spelling_hint_policy_witness :
  exists l w',
    @generate_spelling BasicLatin [ab] EASY 1 quiet = Done l w' /\
    forall e, e ∈ l ->
      exists c rest, english_word e = c :: rest /\
        spell_hint e =
          Some (py "Starts with '" ++ @str_upper BasicLatin [c] ++ py "', " ++
                str_of_nat (length (english_word e)) ++ py " letters").
Proof.
  eexists _, _. split; [vm_compute; reflexivity|].
  eapply (@spelling_hint_policy BasicLatin [ab] EASY 1 quiet).
  vm_compute; reflexivity.
Defined.

Lemma matching_exercise_size_witness :
  exists l w',
    generate_matching four_items EASY 1 quiet = Done l w' /\
    forall e, e ∈ l ->
      length (pairs e) = 4 `min` length (_filter_by_difficulty four_items EASY) /\
      length (shuffled_right e) = length (pairs e).
Proof.
  eexists _, _. split; [vm_compute; reflexivity|].
  eapply (matching_exercise_size four_items EASY 1 quiet).
  vm_compute; reflexivity.
Defined.

Lemma answer_words_within_tier_witness :
  exists s w',
    @generate_exercise_set BasicLatin four_items MATCHING EASY 1 None quiet
      = Done s w' /\
    forall e, e ∈ exercises s ->
    forall a, a ∈ answer_words e ->
      (exists item, item ∈ four_items /\ a = _get_english item) /\
      a ≠ [] /\
      length a <= 6.
Proof.
  eexists _, _. split; [vm_compute; reflexivity|].
  eapply (@answer_words_within_tier BasicLatin four_items MATCHING EASY 1 None
            quiet).
  vm_compute; reflexivity.
Defined.

Lemma exercise_set_is_uniform_witness :
  exists s w',
    @generate_exercise_set BasicLatin four_items SPELLING MEDIUM 2 (Some [])
      quiet = Done s w' /\
    exercise_type s = SPELLING /\ set_difficulty s = MEDIUM /\
    (forall e, e ∈ exercises s ->
       type_of e = SPELLING /\ difficulty (base e) = MEDIUM) /\
    Models.name s = default_name SPELLING MEDIUM.
Proof.
  eexists _, _. split; [vm_compute; reflexivity|].
  eapply (@exercise_set_is_uniform BasicLatin four_items SPELLING MEDIUM 2
            (Some []) quiet).
  vm_compute; reflexivity.
Defined.

Lemma fill_in_blank_without_occurrence_witness :
  exists e w',
    @fill_in_blank_exercise BasicLatin EASY run quiet = Done e w' /\
    _get_example_sentence run = Some (py "He ran.") /\
    py "He ran." ≠ [] /\
    (forall i,
       @ci_prefix BasicLatin (_get_english run) (drop i (py "He ran."))
       = false) /\
    sentence e = py "He ran." /\
    (contains blank (py "He ran.") = false -> blank_position e = 0).
Proof.
  assert (forall i,
    @ci_prefix BasicLatin (_get_english run) (drop i (py "He ran.")) = false)
    as Hnone.
  { intros i. do 7 (destruct i as [|i]; [by vm_compute|]). by destruct i. }
  eexists _, _. split; [vm_compute; reflexivity|].
  split; [reflexivity|]. split; [done|]. split; [exact Hnone|].
  eapply (@fill_in_blank_without_occurrence BasicLatin EASY run quiet);
    [vm_compute; reflexivity | reflexivity | done | exact Hnone].
Defined.

Lemma fill_in_blank_blank_position_witness :
  exists e w',
    @fill_in_blank_exercise BasicLatin EASY sleeve quiet = Done e w' /\
    _get_example_sentence sleeve = Some (py "She has short sleeves.") /\
    py "She has short sleeves." ≠ [] /\
    _get_english sleeve ≠ [] /\
    (exists i,
       @ci_prefix BasicLatin (_get_english sleeve)
         (drop i (py "She has short sleeves.")) = true) /\
    contains blank (sentence e) = true /\
    (exists tok, split (sentence e) !! blank_position e = Some tok /\
       contains blank tok = true) /\
    forall j tok, j < blank_position e ->
      split (sentence e) !! j = Some tok -> contains blank tok = false.
Proof.
  eexists _, _. split; [vm_compute; reflexivity|].
  split; [reflexivity|]. split; [done|]. split; [done|].
  split; [by exists 14|].
  eapply (@fill_in_blank_blank_position BasicLatin EASY sleeve quiet);
    [vm_compute; reflexivity | reflexivity | done | done | by exists 14].
Defined.

Lemma fill_in_blank_template_position_witness :
  exists e w',
    @fill_in_blank_exercise BasicLatin EASY cat quiet = Done e w' /\
    truthy_opt (_get_example_sentence cat) = false /\
    let word_type := get_word_type cat in
    (word_type = py "noun" \/ word_type = py "verb" ->
     blank_position e = 1 /\ split (sentence e) !! 1 = Some blank) /\
    (word_type ≠ py "noun" -> word_type ≠ py "verb" ->
     blank_position e = 0 /\
     exists first last,
       split (sentence e) !! 0 = Some first /\ contains blank first = false /\
       split (sentence e) !! 3 = Some last /\ contains blank last = true).
Proof.
  eexists _, _. split; [vm_compute; reflexivity|].
  split; [reflexivity|].
  eapply (@fill_in_blank_template_position BasicLatin EASY cat quiet);
    [vm_compute; reflexivity | reflexivity].
Defined.

Lemma generate_all_sets_complete_witness :
  (0 <= 1)%Z /\
  exists sets w',
    @generate_all_sets BasicLatin four_items 1 quiet = Done sets w' /\
    sets.*1 = all_set_keys /\ length sets = 12 /\
    forall key s, (key, s) ∈ sets ->
      key = set_key (set_difficulty s) (exercise_type s) /\
      forall e, e ∈ exercises s ->
        type_of e = exercise_type s /\ difficulty (base e) = set_difficulty s.
Proof.
  split; [lia|].
  apply (@generate_all_sets_complete BasicLatin four_items 1 quiet). lia.
Defined.

Lemma negative_count_behaviour_witness :
  (-1 < 0)%Z /\
  let error :=
    ValueError (py "Sample larger than population or is negative") in
  (exists w', generate_matching four_items EASY (-1) quiet = Done [] w') /\
  @generate_fill_in_blank BasicLatin four_items EASY (-1) quiet
    = Raised error /\
  @generate_spelling BasicLatin four_items EASY (-1) quiet = Raised error /\
  generate_hangman four_items EASY (-1) quiet = Raised error /\
  @generate_all_sets BasicLatin four_items (-1) quiet = Raised error.
Proof.
  split; [lia|].
  apply (@negative_count_behaviour BasicLatin four_items EASY (-1) quiet). lia.
Defined.

Lemma export_set_frame_witness :
  exists p w',
    export_set [py "out"] cat_set quiet = Done p w' /\
    (forall q, q ≠ p -> files w' !! q = files quiet !! q) /\
    dirs quiet ⊆ dirs w' /\
    (forall d, [py "out"] ++ [difficulty_value d] ∈ dirs w') /\
    ([py "out"] ≠ [] -> [py "out"] ∈ dirs w').
Proof.
  eexists _, _. split; [vm_compute; reflexivity|].
  eapply (export_set_frame [py "out"] cat_set quiet).
  vm_compute; reflexivity.
Defined.

Lemma set_document_holds_answers_witness :
  exists p w',
    export_set [py "out"] cat_set quiet = Done p w' /\
    files w' !! p = Some (JObj (set_to_dict cat_set)) /\
    json_get (py "exercises") (set_to_dict cat_set)
    = JList ((fun e => JObj (to_dict e)) <$> exercises cat_set) /\
    forall e, e ∈ exercises cat_set ->
      answer_in_document e =
      match e with
      | FillInBlank x => JStr (correct_answer x)
      | Matching x => JList (pair_to_dict <$> pairs x)
      | Spelling x => JStr (english_word x)
      | Hangman x => JStr (word x)
      end.
Proof.
  eexists _, _. split; [vm_compute; reflexivity|].
  eapply (set_document_holds_answers [py "out"] cat_set quiet).
  vm_compute; reflexivity.
Defined.

Lemma numbered_uuids_NoDup : NoDup (uuids numbered).
Proof. apply (bool_decide_unpack _). vm_compute. exact I. Qed.

Lemma exercise_ids_from_uuids_witness :
  exists s w',
    @generate_exercise_set BasicLatin four_items HANGMAN EASY 1 None numbered
      = Done s w' /\
    9 * Z.to_nat 1 <= length (uuids numbered) /\
    exists us, us `sublist_of` uuids numbered /\
      id ∘ base <$> exercises s = (id_prefix HANGMAN ++.) <$> us /\
      (NoDup (uuids numbered) -> NoDup (id ∘ base <$> exercises s)).
Proof.
  eexists _, _. split; [vm_compute; reflexivity|].
  split; [vm_compute; lia|].
  eapply (@exercise_ids_from_uuids BasicLatin four_items HANGMAN EASY 1 None
            numbered);
    [vm_compute; reflexivity | vm_compute; lia].
Defined.

Lemma generated_set_answer_key_witness :
  exists s w1 p w3,
    @generate_exercise_set BasicLatin four_items MATCHING EASY 1 None numbered
      = Done s w1 /\
    9 * Z.to_nat 1 <= length (uuids numbered) /\
    NoDup (uuids numbered) /\
    export_answers [py "out"] [(py "easy_matching", s)] w1 = Done p w3 /\
    p = answers_path [py "out"] /\
    exists doc set_doc,
      files w3 !! answers_path [py "out"] = Some (JObj doc) /\
      dict_get (py "easy_matching") doc = Some (JObj set_doc) /\
      forall e, e ∈ exercises s ->
        dict_get (id (base e)) set_doc = Some (answer_payload e).
Proof.
  destruct (@generate_exercise_set BasicLatin four_items MATCHING EASY 1 None
              numbered) as [s w1|err] eqn:Hs; [|by vm_compute in Hs].
  destruct (export_answers [py "out"] [(py "easy_matching", s)] w1)
    as [p w3|err] eqn:Hx.
  2: { exfalso. revert Hx. vm_compute in Hs. injection Hs as <- <-.
       by vm_compute. }
  exists s, w1, p, w3. split; [reflexivity|].
  split; [vm_compute; lia|]. split; [apply numbered_uuids_NoDup|].
  split; [exact Hx|].
  apply (@generated_set_answer_key BasicLatin four_items [py "out"] MATCHING
           EASY 1 None numbered s w1 (py "easy_matching") w1 p w3 Hs);
    [vm_compute; lia | apply numbered_uuids_NoDup | exact Hx].
Defined.

Lemma export_all_manifest_witness :
  exists exported w',
    export_all [py "out"] [(py "easy_hangman", cat_set)] quiet
      = Done exported w' /\
    (NoDup [(py "easy_hangman", cat_set)].*1 ->
     forall key s, (key, s) ∈ [(py "easy_hangman", cat_set)] ->
       dict_get key exported
       = Some (set_path [py "out"] (set_difficulty s) (exercise_type s))) /\
    clock w' = tail (clock quiet) /\
    files w' !! manifest_path [py "out"] =
      Some (JObj
        [ (py "version", JStr (py "1.0"));
          (py "generatedAt", JStr (hd [] (clock quiet)));
          (py "totalSets",
           JInt (Z.of_nat (length [(py "easy_hangman", cat_set)])));
          (py "sets",
           JList ((fun ks : str * ExerciseSet =>
                     JObj
                       [ (py "key", JStr ks.1);
                         (py "path",
                          JStr (relative_set_path (set_difficulty ks.2)
                                  (exercise_type ks.2)));
                         (py "type",
                          JStr (exercise_type_value (exercise_type ks.2)));
                         (py "difficulty",
                          JStr (difficulty_value (set_difficulty ks.2)));
                         (py "exerciseCount",
                          JInt (Z.of_nat (length (exercises ks.2))));
                         (py "name", JStr (name ks.2)) ])
                    <$> [(py "easy_hangman", cat_set)])) ]).
Proof.
  eexists _, _. split; [vm_compute; reflexivity|].
  eapply (export_all_manifest [py "out"] [(py "easy_hangman", cat_set)] quiet).
  vm_compute; reflexivity.
Defined.

Lemma export_all_files_witness :
  exists exported w',
    export_all [py "out"] [(py "easy_hangman", cat_set)] quiet
      = Done exported w' /\
    (forall i key s, [(py "easy_hangman", cat_set)] !! i = Some (key, s) ->
       (forall j ks, i < j -> [(py "easy_hangman", cat_set)] !! j = Some ks ->
          (set_difficulty ks.2, exercise_type ks.2)
          ≠ (set_difficulty s, exercise_type s)) ->
       files w' !! set_path [py "out"] (set_difficulty s) (exercise_type s)
       = Some (JObj (set_to_dict s))) /\
    (forall q, q ≠ manifest_path [py "out"] ->
       (forall ks, ks ∈ [(py "easy_hangman", cat_set)] ->
          q ≠ set_path [py "out"] (set_difficulty ks.2) (exercise_type ks.2)) ->
       files w' !! q = files quiet !! q).
Proof.
  eexists _, _. split; [vm_compute; reflexivity|].
  eapply (export_all_files [py "out"] [(py "easy_hangman", cat_set)] quiet).
  vm_compute; reflexivity.
Defined.


Lemma quiet_tree_ok : tree_ok quiet.
Proof.
  split_and!; intros q; [done | |].
  - intros Hq. by apply elem_of_empty in Hq.
  - intros [x Hx]. cbn [quiet files] in Hx. by rewrite lookup_empty in Hx.
Qed.

Lemma export_keeps_tree_in_order_witness :
  tree_ok quiet /\
  (forall p w',
     export_set [py "out"] cat_set quiet = Done p w' -> tree_ok w') /\
  (forall exported w',
     export_all [py "out"] [(py "easy_hangman", cat_set)] quiet
       = Done exported w' -> tree_ok w') /\
  (forall p w',
     export_answers [py "out"] [(py "easy_hangman", cat_set)] quiet
       = Done p w' -> tree_ok w').
Proof.
  split; [apply quiet_tree_ok|].
  apply (export_keeps_tree_in_order [py "out"] [(py "easy_hangman", cat_set)]
           cat_set quiet quiet_tree_ok).
Defined.

Lemma parse_names_round_trip_witness :
  @lower_is_ascii BasicLatin /\
  (forall t ts,
     @parse_types BasicLatin
       (join (py ",") (exercise_type_value <$> t :: ts)) = (t :: ts, [])) /\
  (forall d ds,
     @parse_difficulties BasicLatin
       (join (py ",") (difficulty_value <$> d :: ds)) = (d :: ds, [])).
Proof.
  assert (@lower_is_ascii BasicLatin) as Hlower by (intros s _; reflexivity).
  split; [exact Hlower|].
  apply (@parse_names_round_trip BasicLatin Hlower).
Defined.

End MoreInstances.
